(** * picobot: a shallow embedding of the reasoning pipeline

    The development follows the Go sources: the persistent memory
    (SQLite scalar functions and [QueryHistory]), the ONNX embedder
    front end, the session manager, the file memory, the transport
    proxy and the agent loop.

    Conventions.
    - Go [string] and [[]byte] are sequences of bytes: [string] here,
      [list byte] for BLOBs.
    - Go [float32] and [float64] are IEEE 754 binary32 and binary64,
      modelled with the executable specification [SpecFloat] of the
      standard library (round to nearest even, no NaN payload).
    - Go [(T, error)] results are values of [outcome T]; a run-time panic
      is the third constructor.
    - The first part of the file holds the definitions, the second the
      theorems. *)

From Stdlib Require Import ZArith List String Ascii Strings.Byte Lia Bool.
From Stdlib Require Import Floats.SpecFloat Sorting.Sorted DecimalString.
From stdpp Require Import base option list strings gmap.

Local Open Scope Z_scope.

(* ===================================================================== *)
(** * Part I: definitions                                                 *)
(* ===================================================================== *)

(** ** Results of fallible Go calls *)

Inductive outcome (A : Type) : Type :=
| Ok (a : A)
| Err (msg : string)
| Panic (msg : string).
Arguments Ok {A} a.
Arguments Err {A} msg.
Arguments Panic {A} msg.

Definition is_Ok {A} (r : outcome A) : bool :=
  match r with Ok _ => true | _ => false end.

Definition is_Err {A} (r : outcome A) : bool :=
  match r with Err _ => true | _ => false end.

(** ** IEEE 754 numbers of Go *)

Module F32.
Definition prec : Z := 24.
Definition emax : Z := 128.
Definition t := spec_float.
Definition zero : t := S754_zero false.
Definition of_Z (z : Z) : t := binary_normalize prec emax z 0 false.
Definition add (x y : t) : t := SFadd prec emax x y.
Definition mul (x y : t) : t := SFmul prec emax x y.
Definition div (x y : t) : t := SFdiv prec emax x y.
Definition leb (x y : t) : bool := SFleb x y.
End F32.

Module F64.
Definition prec : Z := 53.
Definition emax : Z := 1024.
Definition t := spec_float.
Definition zero : t := S754_zero false.
Definition one : t := SFone prec emax.
Definition of_Z (z : Z) : t := binary_normalize prec emax z 0 false.
Definition add (x y : t) : t := SFadd prec emax x y.
Definition sub (x y : t) : t := SFsub prec emax x y.
Definition leb (x y : t) : bool := SFleb x y.
Definition is_nan (x : t) : bool :=
  match x with S754_nan => true | _ => false end.

(** The conversion [float64(x)] of a [float32]: every binary32 number
    is a binary64 number, only the mantissa is re-aligned. *)
Definition of_f32 (x : F32.t) : t :=
  match x with
  | S754_finite s m e => binary_normalize prec emax (cond_Zopp s (Zpos m)) e s
  | _ => x
  end.
End F64.

(** [math.Float32frombits]: sign bit 31, exponent bits 30..23, fraction
    bits 22..0. *)
Definition Float32frombits (b : Z) : F32.t :=
  let s := Z.testbit b 31 in
  let e := Z.land (Z.shiftr b 23) 255 in
  let m := Z.land b (Z.ones 23) in
  if e =? 255 then (if m =? 0 then S754_infinity s else S754_nan)
  else if e =? 0 then
    match m with
    | Zpos p => S754_finite s p (-149)
    | _ => S754_zero s
    end
  else
    match Z.lor m (Z.shiftl 1 23) with
    | Zpos p => S754_finite s p (e - 150)
    | _ => S754_nan
    end.

(** [math.Float32bits]; the one NaN of the model is the quiet NaN
    [0x7FC00000]. *)
Definition Float32bits (x : F32.t) : Z :=
  let sgn (s : bool) := if s then Z.shiftl 1 31 else 0 in
  match x with
  | S754_zero s => sgn s
  | S754_infinity s => Z.lor (sgn s) (Z.shiftl 255 23)
  | S754_nan => 0x7FC00000
  | S754_finite s m e =>
      if Zpos m <? Z.shiftl 1 23
      then Z.lor (sgn s) (Zpos m)
      else Z.lor (sgn s)
             (Z.lor (Z.shiftl (e + 150) 23) (Z.land (Zpos m) (Z.ones 23)))
  end.

(** ** Bytes *)

Definition byte_of_Z (z : Z) : byte :=
  match Byte.of_N (Z.to_N (z mod 256)) with
  | Some b => b
  | None => x00
  end.

Definition Z_of_byte (b : byte) : Z := Z.of_N (Byte.to_N b).

(** [binary.LittleEndian.Uint32] on four bytes. *)
Definition LittleEndian_Uint32 (b0 b1 b2 b3 : byte) : Z :=
  Z.lor (Z_of_byte b0)
    (Z.lor (Z.shiftl (Z_of_byte b1) 8)
       (Z.lor (Z.shiftl (Z_of_byte b2) 16) (Z.shiftl (Z_of_byte b3) 24))).

(** [binary.LittleEndian.PutUint32]. *)
Definition LittleEndian_PutUint32 (v : Z) : list byte :=
  [byte_of_Z v; byte_of_Z (Z.shiftr v 8);
   byte_of_Z (Z.shiftr v 16); byte_of_Z (Z.shiftr v 24)].

(** [bytesToFloats]: panics ([None]) unless the length is a multiple of
    four; otherwise element [i] is decoded from [b[i*4:]]. *)
Fixpoint decode_floats (b : list byte) : list F32.t :=
  match b with
  | b0 :: b1 :: b2 :: b3 :: rest =>
      Float32frombits (LittleEndian_Uint32 b0 b1 b2 b3) :: decode_floats rest
  | _ => []
  end.

Definition bytesToFloats (b : list byte) : option (list F32.t) :=
  if (length b mod 4 =? 0)%nat then Some (decode_floats b) else None.

Definition floatsToBytes (vec : list F32.t) : list byte :=
  flat_map (fun f => LittleEndian_PutUint32 (Float32bits f)) vec.

(** ** The SQLite scalar functions *)

(** [driver.Value]: the dynamically typed arguments SQLite hands to a
    registered function. *)
Inductive Value : Type :=
| VNull
| VInt (z : Z)
| VFloat (f : F64.t)
| VBool (b : bool)
| VText (s : string)
| VBlob (b : list byte).

(** The accumulation loop shared by both functions:
    [for i := range qVec { dot += float64(qVec[i] * rowVec[i]) }].
    Indexing [rowVec] past its end panics. *)
Fixpoint dot_loop (qVec rowVec : list F32.t) (dot : F64.t) : outcome F64.t :=
  match qVec with
  | [] => Ok dot
  | q :: qVec' =>
      match rowVec with
      | [] => Panic "index out of range"
      | r :: rowVec' =>
          dot_loop qVec' rowVec' (F64.add dot (F64.of_f32 (F32.mul q r)))
      end
  end.

(** [append(b, make([]byte, n)...)]. *)
Definition pad_bytes (b : list byte) (paddedLength : nat) : list byte :=
  b ++ repeat x00 (paddedLength - length b).

Definition cosineSimilarityScalar (args : list Value) : outcome Value :=
  match args with
  | [a0; a1] =>
      match a0, a1 with
      | VBlob qBlob0, VBlob rowBlob0 =>
          if negb (length qBlob0 mod 4 =? 0)%nat || negb (length rowBlob0 mod 4 =? 0)%nat
          then Err "blobs must contain whole float32 values"
          else
            let '(qBlob, rowBlob) :=
              if negb (length qBlob0 =? length rowBlob0)%nat
              then
                let paddedLength := Nat.max (length qBlob0) (length rowBlob0) in
                (pad_bytes qBlob0 paddedLength, pad_bytes rowBlob0 paddedLength)
              else (qBlob0, rowBlob0) in
            if (length qBlob =? 0)%nat || (length rowBlob =? 0)%nat
            then Ok (VFloat F64.zero)
            else if negb (length qBlob =? length rowBlob)%nat
            then Err "vector dimension mismatch"
            else
              match bytesToFloats qBlob, bytesToFloats rowBlob with
              | Some qVec, Some rowVec =>
                  match dot_loop qVec rowVec F64.zero with
                  | Ok dot => Ok (VFloat dot)
                  | Err e => Err e
                  | Panic e => Panic e
                  end
              | _, _ => Panic "invalid blob length"
              end
      | _, _ => Err "both arguments must be BLOB"
      end
  | _ => Err "cosine_similarity expects exactly 2 BLOB arguments"
  end.

Definition cosineDistanceScalar (args : list Value) : outcome Value :=
  match args with
  | [a0; a1] =>
      match a0, a1 with
      | VBlob qBlob0, VBlob rowBlob0 =>
          if (length qBlob0 =? 0)%nat || (length rowBlob0 =? 0)%nat
          then Ok (VFloat F64.one)
          else if negb (length qBlob0 mod 4 =? 0)%nat || negb (length rowBlob0 mod 4 =? 0)%nat
          then Err "BLOB length must be multiple of 4 (float32)"
          else
            let '(qBlob, rowBlob) :=
              if negb (length qBlob0 =? length rowBlob0)%nat
              then
                let paddedLength := Nat.max (length qBlob0) (length rowBlob0) in
                (pad_bytes qBlob0 paddedLength, pad_bytes rowBlob0 paddedLength)
              else (qBlob0, rowBlob0) in
            if (length qBlob =? 0)%nat || (length rowBlob =? 0)%nat
            then Ok (VFloat F64.one)
            else if negb (length qBlob =? length rowBlob)%nat
            then Err "vector dimension mismatch"
            else
              match bytesToFloats qBlob, bytesToFloats rowBlob with
              | Some qVec, Some rowVec =>
                  match dot_loop qVec rowVec F64.zero with
                  | Ok dot =>
                      let cosSim := dot in
                      let cosDist := F64.sub F64.one cosSim in
                      Ok (VFloat cosDist)
                  | Err e => Err e
                  | Panic e => Panic e
                  end
              | _, _ => Panic "invalid blob length"
              end
      | _, _ => Err "both arguments must be BLOB"
      end
  | _ => Err "cosine_distance expects exactly 2 BLOB arguments"
  end.

(** *** The statement of the contract, in the specification's words *)

(** The shorter vector is extended with zeros to [n] components. *)
Definition zero_pad (n : nat) (v : list F32.t) : list F32.t :=
  v ++ repeat F32.zero (n - length v).

(** The dot product of two [float32] arrays, accumulated in [float64]. *)
Definition dot_product (u v : list F32.t) : F64.t :=
  fold_left (fun acc p => F64.add acc (F64.of_f32 (F32.mul (fst p) (snd p))))
    (combine u v) F64.zero.

(** [cosine_distance] agrees with [cosine_similarity] on a pair of BLOBs:
    both fail, or both succeed and the distance is [1 - similarity]. *)
Definition distance_agrees (d s : outcome Value) : Prop :=
  match d, s with
  | Ok (VFloat x), Ok (VFloat y) => x = F64.sub F64.one y
  | Err _, Err _ => True
  | _, _ => False
  end.

(** ** Go strings *)

(** Strings are byte sequences; the functions of package [strings] used
    by the sources decode UTF-8 as they go.  A white-space rune
    ([unicode.IsSpace]) is one of the following byte sequences, and no
    other (ill-formed or overlong) sequence decodes to one. *)
Definition space_encodings : list (list N) :=
  ([ [0x09]; [0x0A]; [0x0B]; [0x0C]; [0x0D]; [0x20];
     [0xC2; 0x85]; [0xC2; 0xA0];
     [0xE1; 0x9A; 0x80];
     [0xE2; 0x80; 0x80]; [0xE2; 0x80; 0x81]; [0xE2; 0x80; 0x82];
     [0xE2; 0x80; 0x83]; [0xE2; 0x80; 0x84]; [0xE2; 0x80; 0x85];
     [0xE2; 0x80; 0x86]; [0xE2; 0x80; 0x87]; [0xE2; 0x80; 0x88];
     [0xE2; 0x80; 0x89]; [0xE2; 0x80; 0x8A];
     [0xE2; 0x80; 0xA8]; [0xE2; 0x80; 0xA9]; [0xE2; 0x80; 0xAF];
     [0xE2; 0x81; 0x9F];
     [0xE3; 0x80; 0x80] ])%N.

Fixpoint has_prefix (p : list N) (s : list ascii) : bool :=
  match p, s with
  | [], _ => true
  | b :: p', c :: s' => (N_of_ascii c =? b)%N && has_prefix p' s'
  | _ :: _, [] => false
  end.

(** The size in bytes of the white-space rune at the head of [s]. *)
Definition space_rune_size (s : list ascii) : option nat :=
  match List.find (fun p => has_prefix p s) space_encodings with
  | Some p => Some (length p)
  | None => None
  end.

(** The same at the end of [s], given reversed. *)
Definition space_rune_size_rev (r : list ascii) : option nat :=
  match List.find (fun p => has_prefix (rev p) r) space_encodings with
  | Some p => Some (length p)
  | None => None
  end.

Fixpoint trim_left (fuel : nat) (s : list ascii) : list ascii :=
  match fuel with
  | O => s
  | S fuel' =>
      match space_rune_size s with
      | Some n => trim_left fuel' (skipn n s)
      | None => s
      end
  end.

Fixpoint trim_right_rev (fuel : nat) (r : list ascii) : list ascii :=
  match fuel with
  | O => r
  | S fuel' =>
      match space_rune_size_rev r with
      | Some n => trim_right_rev fuel' (skipn n r)
      | None => r
      end
  end.

(** [strings.TrimSpace]. *)
Definition TrimSpace (s : string) : string :=
  let l := trim_left (String.length s) (list_ascii_of_string s) in
  string_of_list_ascii (rev (trim_right_rev (length l) (rev l))).

(** [strings.Fields]: the maximal runs of bytes between white-space
    runes.  [skip] counts the remaining bytes of a white-space rune,
    [cur] is the current word, reversed. *)
Fixpoint fields_scan (s : list ascii) (skip : nat) (cur : list ascii)
    (acc : list string) : list string :=
  let flush (acc : list string) :=
    match cur with
    | [] => acc
    | _ => acc ++ [string_of_list_ascii (rev cur)]
    end in
  match s with
  | [] => flush acc
  | c :: s' =>
      match skip with
      | S k => fields_scan s' k cur acc
      | O =>
          match space_rune_size s with
          | Some n => fields_scan s' (n - 1) [] (flush acc)
          | None => fields_scan s' 0 (c :: cur) acc
          end
      end
  end.

Definition Fields (s : string) : list string :=
  fields_scan (list_ascii_of_string s) 0 [] [].

(** [strings.Join]. *)
Fixpoint Join (elems : list string) (sep : string) : string :=
  match elems with
  | [] => ""
  | [e] => e
  | e :: rest => e +:+ sep +:+ Join rest sep
  end.

(** ** The embedder (embed_onnx.go, onnx_engine.go) *)

(** [words[i:end]] for [0 <= i <= end <= len(words)]. *)
Definition slice {A} (l : list A) (i j : Z) : list A :=
  firstn (Z.to_nat (j - i)) (skipn (Z.to_nat i) l).

(** [splitIntoChunks]: the loop
    [for i := 0; i < len(words); i += maxWords], with [fuel] bounding the
    number of iterations ([None] when it runs out). *)
Fixpoint splitIntoChunks_loop (fuel : nat) (words : list string) (i maxWords : Z)
    (chunks : list string) : option (outcome (list string)) :=
  match fuel with
  | O => None
  | S fuel' =>
      if i <? Z.of_nat (length words) then
        let end_ := i + maxWords in
        let end_ := if end_ >? Z.of_nat (length words)
                    then Z.of_nat (length words) else end_ in
        if end_ <? i then Some (Panic "slice bounds out of range")
        else
          let chunk := Join (slice words i end_) " " in
          splitIntoChunks_loop fuel' words (i + maxWords) maxWords (chunks ++ [chunk])
      else Some (Ok chunks)
  end.

Definition splitIntoChunks (fuel : nat) (text : string) (maxWords : Z)
    : option (outcome (list string)) :=
  splitIntoChunks_loop fuel (Fields text) 0 maxWords [].

(** [result[i] += val] for every [i, val] of [emb]; [emb] has the
    length of [result] when this is called. *)
Fixpoint add_into (result emb : list F32.t) : list F32.t :=
  match result, emb with
  | r :: result', v :: emb' => F32.add r v :: add_into result' emb'
  | _, _ => result
  end.

(** [averageEmbeddings], with the warnings it prints. *)
Definition averageEmbeddings (embeddings : list (list F32.t))
    : list F32.t * list string :=
  match embeddings with
  | [] => ([], [])
  | [e] => (e, [])
  | e0 :: _ =>
      let dim := length e0 in
      let '(result, warnings) :=
        fold_left
          (fun (st : list F32.t * list string) emb =>
             if negb (length emb =? dim)%nat
             then (fst st, snd st ++ ["warning: embedding dimension mismatch"])
             else (add_into (fst st) emb, snd st))
          embeddings (repeat F32.zero dim, []) in
      let n := F32.of_Z (Z.of_nat (length embeddings)) in
      (map (fun x => F32.div x n) result, warnings)
  end.

(** The ONNX engine: inference itself ([ONNXEmbeddingEngine.Embed]) is
    the external model; [BatchSize] is its configuration. *)
Record ONNXEmbeddingEngine : Type := {
  engine_Embed : list string -> outcome (list (list F32.t));
  BatchSize : Z;
}.

(** [ONNXEmbeddingEngine.EmbedBatch]; the context of the embedder is
    [context.Background()], which is never cancelled. *)
Fixpoint EmbedBatch_loop (fuel : nat) (e : ONNXEmbeddingEngine)
    (content : list string) (i batchSize : Z) (allEmbeddings : list (list F32.t))
    : option (outcome (list (list F32.t))) :=
  match fuel with
  | O => None
  | S fuel' =>
      if i <? Z.of_nat (length content) then
        let end_ := i + batchSize in
        let end_ := if end_ >? Z.of_nat (length content)
                    then Z.of_nat (length content) else end_ in
        match engine_Embed e (slice content i end_) with
        | Ok embeddings =>
            EmbedBatch_loop fuel' e content (i + batchSize) batchSize
              (allEmbeddings ++ embeddings)
        | Err err => Some (Err ("batch processing failed: " +:+ err))
        | Panic err => Some (Panic err)
        end
      else Some (Ok allEmbeddings)
  end.

Definition EmbedBatch (fuel : nat) (e : ONNXEmbeddingEngine)
    (content : list string) (batchSize : Z)
    : option (outcome (list (list F32.t))) :=
  let batchSize :=
    if batchSize <=? 0
    then (if BatchSize e <=? 0 then 32 else BatchSize e)
    else batchSize in
  EmbedBatch_loop fuel e content 0 batchSize [].

Record ONNXEmbedder : Type := {
  engine : ONNXEmbeddingEngine;
  chunkMaxWords : Z;
}.

(** [NewONNXEmbedder], given the engine it loaded. *)
Definition NewONNXEmbedder (eng : ONNXEmbeddingEngine) : ONNXEmbedder :=
  {| engine := eng; chunkMaxWords := 200 |}.

(** [ONNXEmbedder.Embed], with the warnings printed on the way.  Both
    loops run at most once per word of the text, so [fuel] is taken one
    above the length of the text. *)
Definition Embed (e : ONNXEmbedder) (text : string)
    : option (outcome (list F32.t) * list string) :=
  let fuel := S (String.length text) in
  match splitIntoChunks fuel text (chunkMaxWords e) with
  | None => None
  | Some (Err err) => Some (Err err, [])
  | Some (Panic err) => Some (Panic err, [])
  | Some (Ok chunks) =>
      match EmbedBatch fuel (engine e) chunks 0 with
      | None => None
      | Some (Panic err) => Some (Panic err, [])
      | Some (Err err) =>
          Some (Err ("failed to generate embedding for text: " +:+ err), [])
      | Some (Ok vec) =>
          match vec with
          | [] => Some (Err "no embeddings found in the response", [])
          | [] :: _ => Some (Err "no embeddings found in the response", [])
          | _ =>
              let '(averaged, warnings) := averageEmbeddings vec in
              Some (Ok averaged, warnings)
          end
      end
  end.

(** *** The mean, in the specification's words *)




(** ** Persistent memory (package memory) *)

Record MemoryItem : Type := {
  Kind : string;
  mi_Role : string;
  Text : string;
  Similarity : F64.t;
  mi_Timestamp : string;
}.

(** A row of table [history]. *)
Record Row : Type := {
  id : Z;
  channel_id : string;
  role : string;
  content : string;
  timestamp : string;
  embedding : list byte;
}.

(** The database: the rows of [history] in insertion order, the counter
    of [AUTOINCREMENT], and whether the connection still works (a closed
    or broken connection fails every statement). *)
Record DB : Type := {
  rows : list Row;
  seq : Z;
  broken : bool;
}.

(** [MemoryPersist]; [embedder] is the interface [EmbedProvider]. *)
Record MemoryPersist : Type := {
  embedder : string -> outcome (list F32.t);
  db : DB;
  threshold : F32.t;
  topk : Z;
}.

Record MemoryConfig : Type := {
  Enabled : bool;
  EmbedType : string;
  DbPath : string;
  ONNXModelPath : string;
  ONNXTokenizerPath : string;
  Threshold : F32.t;
  TopK : Z;
}.

(** The constant [0.87] as a [float32]: the nearest binary32 number. *)
Definition default_threshold : F32.t := F32.div (F32.of_Z 87) (F32.of_Z 100).

(** [Embed] as the method of the interface: the printed warnings are not
    part of the result.  [Embed] always returns for an embedder made by
    [NewONNXEmbedder] (lemma [Embed_returns]). *)
Definition ONNXEmbedder_Embed (e : ONNXEmbedder) (text : string)
    : outcome (list F32.t) :=
  match Embed e text with
  | Some (r, _) => r
  | None => Panic "out of fuel"
  end.

(** [NewPersistMemory].  Loading the model ([NewONNXEmbedder]), opening
    the database ([initDB]) and creating the schema ([initSchema]) are
    done by the environment; their results are [onnxemb], [opened] and
    [schema]. *)
Definition NewPersistMemory (memConf : MemoryConfig)
    (onnxemb : outcome ONNXEmbeddingEngine) (opened : outcome DB)
    (schema : outcome unit) : option MemoryPersist :=
  if negb (String.eqb (EmbedType memConf) "onnx") then None
  else
    match onnxemb with
    | Ok eng =>
        match opened with
        | Ok db0 =>
            match schema with
            | Ok _ =>
                let Threshold' :=
                  if F32.leb (Threshold memConf) F32.zero
                  then default_threshold else Threshold memConf in
                let TopK' := if TopK memConf <=? 0 then 10 else TopK memConf in
                Some {| embedder := ONNXEmbedder_Embed (NewONNXEmbedder eng);
                        db := db0;
                        threshold := Threshold';
                        topk := TopK' |}
            | _ => None
            end
        | _ => None
        end
    | _ => None
    end.

Definition set_db (m : MemoryPersist) (d : DB) : MemoryPersist :=
  {| embedder := embedder m; db := d; threshold := threshold m; topk := topk m |}.

(** [StoreHistory]: one [INSERT] in a transaction. *)
Definition StoreHistory (m : MemoryPersist)
    (channelID role_ content_ timestamp_ : string) : outcome unit * MemoryPersist :=
  match embedder m content_ with
  | Err e => (Err ("embedding content: " +:+ e), m)
  | Panic e => (Panic e, m)
  | Ok embedding_ =>
      if broken (db m) then (Err "SQL begin transaction: database is closed", m)
      else
        let r := {| id := seq (db m) + 1; channel_id := channelID; role := role_;
                    content := content_; timestamp := timestamp_;
                    embedding := floatsToBytes embedding_ |} in
        (Ok tt,
         set_db m {| rows := rows (db m) ++ [r]; seq := seq (db m) + 1;
                     broken := false |})
  end.

(** The statement [QueryHistory] prepares:
    [SELECT role, content, timestamp, cosine_similarity(embedding, ?) AS similarity
     FROM history WHERE similarity >= ? [AND channel_id = ?]
     ORDER BY similarity DESC LIMIT ?]
    with its arguments; [sel_channel] is [Some] when the optional clause is
    part of the text. *)
Record SelectStmt : Type := {
  sel_vector : list byte;
  sel_threshold : F64.t;
  sel_channel : option string;
  sel_limit : Z;
}.

(** The value of the column [similarity] for a row: SQLite stores a NaN
    result as NULL ([None]). *)
Definition similarity_column (q : list byte) (r : Row) : outcome (option F64.t) :=
  match cosineSimilarityScalar [VBlob (embedding r); VBlob q] with
  | Ok (VFloat x) => if F64.is_nan x then Ok None else Ok (Some x)
  | Ok _ => Ok None
  | Err e => Err e
  | Panic e => Panic e
  end.

(** The rows that pass [WHERE], each with its similarity.  The clause on
    [channel_id] is decided first (it has the index); a comparison with
    NULL is not true. *)
Fixpoint where_rows (st : SelectStmt) (rs : list Row)
    : outcome (list (Row * F64.t)) :=
  match rs with
  | [] => Ok []
  | r :: rs' =>
      let in_channel :=
        match sel_channel st with
        | Some c => String.eqb (channel_id r) c
        | None => true
        end in
      if in_channel then
        match similarity_column (sel_vector st) r with
        | Ok sim =>
            match where_rows st rs' with
            | Ok rest =>
                match sim with
                | Some x =>
                    if F64.leb (sel_threshold st) x
                    then Ok ((r, x) :: rest) else Ok rest
                | None => Ok rest
                end
            | other => other
            end
        | Err e => Err e
        | Panic e => Panic e
        end
      else where_rows st rs'
  end.

(** [ORDER BY similarity DESC]: insertion into a list in non-increasing
    order; rows of equal similarity keep the order of the table. *)
Fixpoint insert_desc (x : Row * F64.t) (l : list (Row * F64.t)) : list (Row * F64.t) :=
  match l with
  | [] => [x]
  | y :: l' =>
      if F64.leb (snd x) (snd y) then y :: insert_desc x l' else x :: l
  end.

Definition order_by_similarity_desc (l : list (Row * F64.t)) : list (Row * F64.t) :=
  fold_right insert_desc [] l.

(** [LIMIT n]: a negative [n] is no limit. *)
Definition limit {A} (n : Z) (l : list A) : list A :=
  if n <? 0 then l else firstn (Z.to_nat n) l.

Definition run_select (d : DB) (st : SelectStmt) : outcome (list (Row * F64.t)) :=
  if broken d then Err "database is closed"
  else
    match where_rows st (rows d) with
    | Ok l => Ok (limit (sel_limit st) (order_by_similarity_desc l))
    | other => other
    end.

(** [rows.Scan(&item.Role, &item.Text, &item.Timestamp, &item.Similarity)]. *)
Definition scan_item (p : Row * F64.t) : MemoryItem :=
  {| Kind := ""; mi_Role := role (fst p); Text := content (fst p);
     Similarity := snd p; mi_Timestamp := timestamp (fst p) |}.

(** The statement built by [QueryHistory] from its arguments. *)
Definition QueryHistory_stmt (m : MemoryPersist) (embedding_ : list F32.t)
    (channelID : string) (topk_ : Z) : SelectStmt :=
  let topk_ := if topk_ <=? 0 then topk m else topk_ in
  {| sel_vector := floatsToBytes embedding_;
     sel_threshold := F64.of_f32 (threshold m);
     sel_channel := if negb (String.eqb channelID "") then Some channelID else None;
     sel_limit := topk_ |}.

Definition QueryHistory (m : MemoryPersist) (channelID query : string) (topk_ : Z)
    : outcome (list MemoryItem) :=
  match embedder m query with
  | Err e => Err ("embedding query: " +:+ e)
  | Panic e => Panic e
  | Ok embedding_ =>
      match run_select (db m) (QueryHistory_stmt m embedding_ channelID topk_) with
      | Ok l => Ok (map scan_item l)
      | Err e => Err ("querying memory: " +:+ e)
      | Panic e => Panic e
      end
  end.

(** The order of the result: each similarity is at least the next. *)
Definition non_increasing (l : list F64.t) : Prop :=
  Sorted (fun x y => F64.leb y x = true) l.

(** The row a returned item was read from. *)
Definition item_of_row (q : list byte) (it : MemoryItem) (r : Row) : Prop :=
  mi_Role it = role r /\ Text it = content r /\ mi_Timestamp it = timestamp r /\
  similarity_column q r = Ok (Some (Similarity it)).

(** The table with other values in column [channel_id]. *)
Definition relabel_row (g : Row -> string) (r : Row) : Row :=
  {| id := id r; channel_id := g r; role := role r; content := content r;
     timestamp := timestamp r; embedding := embedding r |}.

Definition relabel (g : Row -> string) (d : DB) : DB :=
  {| rows := map (relabel_row g) (rows d); seq := seq d; broken := broken d |}.

(** What [WHERE] lets through: a row of the table, its similarity, which
    is at least the threshold, and its channel when the clause is there. *)
Definition passes (st : SelectStmt) (rs : list Row) (p : Row * F64.t) : Prop :=
  List.In (fst p) rs /\
  similarity_column (sel_vector st) (fst p) = Ok (Some (snd p)) /\
  F64.leb (sel_threshold st) (snd p) = true /\
  match sel_channel st with
  | Some c => channel_id (fst p) = c
  | None => True
  end.

Definition desc (p q : Row * F64.t) : Prop := F64.leb (snd q) (snd p) = true.

(** ** Sessions (package session) *)

Definition MaxHistorySize : nat := 50.

Record Message : Type := {
  Role : string;      (* "user", "assistant", "tool" *)
  Content : string;
  Timestamp : string; (* RFC3339 *)
}.

Record Session : Type := {
  Key : string;
  History : list Message;
}.

(** [Session.Trim]: keeps the last [MaxHistorySize] messages and returns
    the ones it removed ([nil] when nothing is removed). *)
Definition Trim (s : Session) : list Message * Session :=
  if (MaxHistorySize <? length (History s))%nat then
    let trimmed := firstn (length (History s) - MaxHistorySize) (History s) in
    (trimmed,
     {| Key := Key s;
        History := skipn (length (History s) - MaxHistorySize) (History s) |})
  else ([], s).

(** [Session.AddMessage], given the formatted reading of the clock. *)
Definition AddMessage (s : Session) (role content now : string) : Session :=
  {| Key := Key s;
     History := History s ++ [{| Role := role; Content := content; Timestamp := now |}] |}.

Definition GetHistory (s : Session) : list Message := History s.

(** The files of the workspace: the text files by path, and the session
    files by path, each holding the JSON document of a session, which is
    represented by the session itself; [denied] tells the paths the
    operating system refuses to open, create or write. *)
Record FS : Type := {
  files : gmap string string;
  session_files : gmap string Session;
  denied : string -> bool;
}.

(** [json.MarshalIndent] of a session followed by [os.WriteFile]. *)
Definition WriteSessionFile (fs : FS) (path : string) (s : Session) : outcome unit * FS :=
  if denied fs path then (Err ("open " +:+ path +:+ ": permission denied"), fs)
  else (Ok tt, {| files := files fs;
                  session_files := <[path := s]> (session_files fs);
                  denied := denied fs |}).

(** [filepath.Join] of a directory and a name; paths are read up to the
    normal form [filepath.Clean] computes. *)
Definition filepath_Join (dir name : string) : string := dir +:+ "/" +:+ name.

(** The manager.  Its map holds one session per key and a session is
    always stored under its own [Key] ([GetOrCreate], [LoadAll]); the
    pointers the agent loop holds come from [GetOrCreate], so a session
    handle is the key of the session in the map. *)
Record SessionManager : Type := {
  sessions : gmap string Session;
  workspace : string;
}.

Definition NewSessionManager (workspace : string) : SessionManager :=
  {| sessions := ∅; workspace := workspace |}.

Definition GetOrCreate (sm : SessionManager) (key : string) : Session * SessionManager :=
  match sessions sm !! key with
  | Some s => (s, sm)
  | None =>
      let s := {| Key := key; History := [] |} in
      (s, {| sessions := <[key := s]> (sessions sm); workspace := workspace sm |})
  end.

(** The assignment through the pointer of the session stored at [key]. *)
Definition update_session (sm : SessionManager) (key : string) (s : Session)
    : SessionManager :=
  {| sessions := <[key := s]> (sessions sm); workspace := workspace sm |}.

(** [SessionManager.Save] of the session stored at [key]: it trims, then
    writes the file.  The trimmed prefix is dropped here. *)
Definition Save (sm : SessionManager) (fs : FS) (key : string)
    : outcome unit * SessionManager * FS :=
  match sessions sm !! key with
  | None => (Panic "nil pointer dereference", sm, fs)
  | Some s =>
      let s' := snd (Trim s) in
      let sm' := update_session sm key s' in
      let path := filepath_Join (workspace sm) "sessions" in
      let fpath := filepath_Join path (Key s' +:+ ".json") in
      let '(r, fs') := WriteSessionFile fs fpath s' in
      (r, sm', fs')
  end.

(** [SessionManager.TrimAll].  Go ranges over the map in an unspecified
    order; [order] is the order of this run, a list of the keys. *)
Fixpoint TrimAll_loop (order : list string) (ss : gmap string Session)
    (trimmedMsg : list Message) : list Message * gmap string Session :=
  match order with
  | [] => (trimmedMsg, ss)
  | k :: order' =>
      match ss !! k with
      | None => TrimAll_loop order' ss trimmedMsg
      | Some s =>
          let '(trimmed, s') := Trim s in
          TrimAll_loop order' (<[k := s']> ss)
            (if (0 <? length trimmed)%nat then trimmedMsg ++ trimmed else trimmedMsg)
      end
  end.

Definition TrimAll (order : list string) (sm : SessionManager)
    : list Message * SessionManager :=
  let '(trimmedMsg, ss) := TrimAll_loop order (sessions sm) [] in
  (trimmedMsg, {| sessions := ss; workspace := workspace sm |}).

(** An order Go may pick: every key of the map, once. *)
Definition iteration_order (order : list string) (sm : SessionManager) : Prop :=
  NoDup order /\ forall k, k ∈ order <-> is_Some (sessions sm !! k).

(** ** The hub and the transport proxy (packages chat, channels) *)

Record Inbound : Type := {
  in_Channel : string;
  in_SenderID : string;
  in_ChatID : string;
  in_Content : string;
}.

Record Outbound : Type := {
  out_Channel : string;
  out_ChatID : string;
  out_Content : string;
}.

(** A buffered Go channel: the queued values, oldest first, and the
    capacity given to [make]. *)
Record chan (A : Type) : Type := {
  buf : list A;
  cap : nat;
}.
Arguments buf {A} c.
Arguments cap {A} c.

Definition make_chan {A} (buffer : nat) : chan A := {| buf := []; cap := buffer |}.

(** [select { case ch <- v: ...; default: ... }]: the send happens when
    the queue has room; the flag tells which branch ran. *)
Definition try_send {A} (ch : chan A) (v : A) : chan A * bool :=
  if (length (buf ch) <? cap ch)%nat
  then ({| buf := buf ch ++ [v]; cap := cap ch |}, true)
  else (ch, false).

(** [v := <-ch] when a value is queued. *)
Definition receive {A} (ch : chan A) : option (A * chan A) :=
  match buf ch with
  | [] => None
  | v :: rest => Some (v, {| buf := rest; cap := cap ch |})
  end.

Record Hub : Type := {
  In : chan Inbound;
  Out : chan Outbound;
  TelegramOut : chan Outbound;
  NtfyOut : chan Outbound;
}.

Definition NewHub (buffer : nat) : Hub :=
  {| In := make_chan buffer; Out := make_chan buffer;
     TelegramOut := make_chan buffer; NtfyOut := make_chan buffer |}.

Definition set_Out (hub : Hub) (c : chan Outbound) : Hub :=
  {| In := In hub; Out := c; TelegramOut := TelegramOut hub; NtfyOut := NtfyOut hub |}.

Definition set_TelegramOut (hub : Hub) (c : chan Outbound) : Hub :=
  {| In := In hub; Out := Out hub; TelegramOut := c; NtfyOut := NtfyOut hub |}.

Definition set_NtfyOut (hub : Hub) (c : chan Outbound) : Hub :=
  {| In := In hub; Out := Out hub; TelegramOut := TelegramOut hub; NtfyOut := c |}.

(** What the proxy does with one message, as the log tells it. *)
Inductive ProxyEvent : Type :=
| Forwarded (queue : string) (msg : Outbound)
| DroppedFull (queue : string) (msg : Outbound)
| UnknownChannel (msg : Outbound).

(** The body of the [case msg := <-hub.Out] branch of [StartProxy]. *)
Definition proxy_dispatch (hub : Hub) (msg : Outbound) : Hub * ProxyEvent :=
  if String.eqb (out_Channel msg) "telegram" then
    let '(c, sent) := try_send (TelegramOut hub) msg in
    if sent then (set_TelegramOut hub c, Forwarded "telegram" msg)
    else (hub, DroppedFull "telegram" msg)
  else if String.eqb (out_Channel msg) "ntfy" then
    let '(c, sent) := try_send (NtfyOut hub) msg in
    if sent then (set_NtfyOut hub c, Forwarded "ntfy" msg)
    else (hub, DroppedFull "ntfy" msg)
  else (hub, UnknownChannel msg).

(** One turn of the loop of the proxy: it takes the oldest message of
    [hub.Out], if there is one, and dispatches it. *)
Definition proxy_step (hub : Hub) : option (Hub * ProxyEvent) :=
  match receive (Out hub) with
  | None => None
  | Some (msg, out') => Some (proxy_dispatch (set_Out hub out') msg)
  end.

(** The proxy until it is cancelled or finds [hub.Out] empty: [n] is the
    number of turns the scheduler grants before the cancellation. *)
Fixpoint proxy_run (n : nat) (hub : Hub) (log : list ProxyEvent)
    : Hub * list ProxyEvent :=
  match n with
  | O => (hub, log)
  | S n' =>
      match proxy_step hub with
      | None => (hub, log)
      | Some (hub', ev) => proxy_run n' hub' (log ++ [ev])
      end
  end.

(** The messages a log reports as forwarded to [queue]. *)
Definition forwarded_to (queue : string) (log : list ProxyEvent) : list Outbound :=
  flat_map (fun ev =>
              match ev with
              | Forwarded q msg => if String.eqb q queue then [msg] else []
              | _ => []
              end) log.

Definition event_msg (ev : ProxyEvent) : Outbound :=
  match ev with
  | Forwarded _ msg => msg
  | DroppedFull _ msg => msg
  | UnknownChannel msg => msg
  end.

(** The routing rule, read on one event of the log: a message is only
    ever forwarded to, or dropped in front of, the queue that its own
    [channel] field names, and a message of another channel is reported
    as unknown. *)
Definition routed_by_channel (ev : ProxyEvent) : Prop :=
  match ev with
  | Forwarded q msg =>
      q = out_Channel msg /\ (q = "telegram"%string \/ q = "ntfy"%string)
  | DroppedFull q msg =>
      q = out_Channel msg /\ (q = "telegram"%string \/ q = "ntfy"%string)
  | UnknownChannel msg =>
      out_Channel msg <> "telegram"%string /\ out_Channel msg <> "ntfy"%string
  end.

(** ** Regular expressions (package regexp) *)

(** The constructs the pattern of the agent loop uses.  Matching is the
    leftmost-first (backtracking) matching of Go: a greedy operator first
    tries to take more. *)
Inductive regex : Type :=
| REmpty                          (* the empty pattern *)
| RLit (c : ascii)                (* a literal, under the flag [(?i)] *)
| RClass (p : ascii -> bool)      (* a character class *)
| RSeq (r1 r2 : regex)
| ROpt (r : regex)                (* [r?] *)
| RPlus (r : regex)               (* [r+] *)
| RGroup (r : regex)              (* [(r)], the capturing group *)
| RBegin                          (* [^] *)
| REnd.                           (* [$] *)

Definition to_lower (c : ascii) : ascii :=
  let n := N_of_ascii c in
  if ((65 <=? n) && (n <=? 90))%N then ascii_of_N (n + 32) else c.

(** [\s] is [[\t\n\f\r ]]. *)
Definition class_space (c : ascii) : bool :=
  let n := N_of_ascii c in
  ((n =? 9) || (n =? 10) || (n =? 12) || (n =? 13) || (n =? 32))%N.

(** [.] is every character but the line feed. *)
Definition class_dot (c : ascii) : bool := negb (N_of_ascii c =? 10)%N.

(** A match in progress: the input that is left and the text of the
    group, once it is closed. *)
Definition cont : Type := list ascii -> option (list ascii) -> option (list ascii * option (list ascii)).

(** [rmatch total r s cap k]: match [r] at the head of [s], then go on
    with [k]; [total] is the length of the whole input.  The result is
    the input left after the whole match, and the group. *)
Fixpoint rmatch (total : nat) (r : regex) (s : list ascii)
    (cap : option (list ascii)) (k : cont)
    : option (list ascii * option (list ascii)) :=
  match r with
  | REmpty => k s cap
  | RLit c =>
      match s with
      | x :: s' => if Ascii.eqb (to_lower x) (to_lower c) then k s' cap else None
      | [] => None
      end
  | RClass p =>
      match s with
      | x :: s' => if p x then k s' cap else None
      | [] => None
      end
  | RSeq r1 r2 => rmatch total r1 s cap (fun s' cap' => rmatch total r2 s' cap' k)
  | ROpt r1 =>
      match rmatch total r1 s cap k with
      | Some res => Some res
      | None => k s cap
      end
  | RPlus r1 =>
      (fix more (fuel : nat) (s : list ascii) (cap : option (list ascii))
         {struct fuel} : option (list ascii * option (list ascii)) :=
         match fuel with
         | O => None
         | S fuel' =>
             rmatch total r1 s cap
               (fun s' cap' =>
                  if (length s' <? length s)%nat then
                    match more fuel' s' cap' with
                    | Some res => Some res
                    | None => k s' cap'
                    end
                  else k s' cap')
         end) (S (length s)) s cap
  | RGroup r1 =>
      rmatch total r1 s cap
        (fun s' _ => k s' (Some (firstn (length s - length s') s)))
  | RBegin => if (length s =? total)%nat then k s cap else None
  | REnd => match s with [] => k s cap | _ => None end
  end.

(** The match that starts at the first possible offset. *)
Fixpoint find_from (fuel : nat) (total : nat) (r : regex) (s : list ascii)
    : option (list ascii * list ascii * option (list ascii)) :=
  match rmatch total r s None (fun s' cap => Some (s', cap)) with
  | Some (rest, cap) => Some (s, rest, cap)
  | None =>
      match fuel, s with
      | S fuel', _ :: s' => find_from fuel' total r s'
      | _, _ => None
      end
  end.

(** [FindStringSubmatch] for a pattern with one group: the text of the
    whole match and of the group, or [nil]. *)
Definition FindStringSubmatch (r : regex) (s : string) : list string :=
  let l := list_ascii_of_string s in
  match find_from (length l) (length l) r l with
  | Some (start, rest, cap) =>
      [string_of_list_ascii (firstn (length start - length rest) start);
       match cap with
       | Some g => string_of_list_ascii g
       | None => ""
       end]
  | None => []
  end.

Fixpoint literal (l : list ascii) : regex :=
  match l with
  | [] => REmpty
  | [c] => RLit c
  | c :: l' => RSeq (RLit c) (literal l')
  end.

(** The pattern [(?i)^remember(?:\s+to)?\s+(.+)$]. *)
Definition rememberRE : regex :=
  RSeq RBegin
    (RSeq (literal (list_ascii_of_string "remember"))
       (RSeq (ROpt (RSeq (RPlus (RClass class_space))
                      (literal (list_ascii_of_string "to"))))
          (RSeq (RPlus (RClass class_space))
             (RSeq (RGroup (RPlus (RClass class_dot))) REnd)))).

(** ** File memory (store.go) *)

(** A reading of the clock, by the renderings the sources take of it. *)
Record Time : Type := {
  date_utc : string;        (* UTC, layout 2006-01-02 *)
  rfc3339_utc : string;     (* UTC, RFC3339 *)
  rfc3339 : string;         (* local, RFC3339 *)
  minute_weekday : string;  (* local, layout 2006-01-02 15:04 (Monday) *)
}.

Definition LF : string := String (ascii_of_nat 10) EmptyString.

Record MemoryStore : Type := {
  ms_workspace : string;
  memoryDir : string;
  ms_limit : Z;
}.

Definition NewMemoryStoreWithWorkspace (workspace : string) (limit_ : Z) : MemoryStore :=
  {| ms_workspace := workspace;
     memoryDir := workspace +:+ "/memory";
     ms_limit := if limit_ <=? 0 then 100 else limit_ |}.

Definition not_exist : string := "no such file or directory".

(** [os.ReadFile]. *)
Definition ReadFile (fs : FS) (path : string) : outcome string :=
  if denied fs path then Err "permission denied"
  else
    match files fs !! path with
    | Some text => Ok text
    | None => Err not_exist
    end.

(** The shape shared by [ReadLongTerm] and [ReadToday]: a missing file
    reads as the empty string. *)
Definition read_or_empty (fs : FS) (path : string) : outcome string :=
  match ReadFile fs path with
  | Err e => if String.eqb e not_exist then Ok "" else Err e
  | other => other
  end.

Definition ReadLongTerm (s : MemoryStore) (fs : FS) : outcome string :=
  read_or_empty fs (filepath_Join (memoryDir s) "MEMORY.md").

Definition ReadToday (s : MemoryStore) (now : Time) (fs : FS) : outcome string :=
  read_or_empty fs (filepath_Join (memoryDir s) (date_utc now +:+ ".md")).

(** [AppendToday]: [now1] names the file, [now2] stamps the line. *)
Definition AppendToday (s : MemoryStore) (text : string) (now1 now2 : Time) (fs : FS)
    : outcome unit * FS :=
  if denied fs (memoryDir s) then (Err "mkdir: permission denied", fs)
  else
    let name := date_utc now1 +:+ ".md" in
    let path := filepath_Join (memoryDir s) name in
    if denied fs path then (Err "open: permission denied", fs)
    else
      let old := match files fs !! path with Some t => t | None => "" end in
      (Ok tt,
       {| files := <[path := old +:+ "[" +:+ rfc3339_utc now2 +:+ "] " +:+ text +:+ LF]>
                     (files fs);
          session_files := session_files fs;
          denied := denied fs |}).

Definition GetMemoryContext (s : MemoryStore) (now : Time) (fs : FS) : outcome string :=
  match ReadLongTerm s fs with
  | Ok lt =>
      match ReadToday s now fs with
      | Ok td =>
          if String.eqb lt "" && String.eqb td "" then Ok ""
          else if String.eqb lt "" then Ok td
          else if String.eqb td "" then Ok lt
          else Ok (lt +:+ LF +:+ LF +:+ "---" +:+ LF +:+ LF +:+ td)
      | other => other
      end
  | other => other
  end.

(** ** The provider and the tools (packages providers, tools) *)

(** A JSON value: the arguments of a tool call and the schema of a tool
    are JSON-valued maps. *)
#[local] Unset Elimination Schemes.
Inductive JSON : Type :=
| JNull
| JBool (b : bool)
| JNumber (x : F64.t)
| JString (s : string)
| JArray (l : list JSON)
| JObject (fields : list (string * JSON)).
#[local] Set Elimination Schemes.

Record ToolCall : Type := {
  tc_ID : string;
  tc_Name : string;
  tc_Arguments : JSON;
}.

(** [providers.Message]. *)
Record PMessage : Type := {
  msg_Role : string;
  msg_Content : string;
  msg_ToolCalls : list ToolCall;
  msg_ToolCallID : string;
}.

Record ToolDefinition : Type := {
  td_Name : string;
  td_Description : string;
  td_Parameters : JSON;
}.

Record Response : Type := {
  resp_Content : string;
  HasToolCalls : bool;
  ToolCalls : list ToolCall;
}.

Record Skill : Type := {
  skill_Name : string;
  skill_Description : string;
}.

Definition plain (role_ content_ : string) : PMessage :=
  {| msg_Role := role_; msg_Content := content_; msg_ToolCalls := [];
     msg_ToolCallID := "" |}.

(** What the loop does to its collaborators, in order. *)
Inductive Event : Type :=
| EvLog (line : string)
| EvChat (messages : list PMessage)
| EvExecute (name : string) (args : JSON)
| EvSend (out : Outbound) (sent : bool)
| EvAppendToday (note : string)
| EvQueryHistory (channelID query : string) (topk_ : Z)
| EvStoreHistory (channelID role_ content_ timestamp_ : string)
| EvSave (key : string).

(** ** The agent loop (package agent) *)

Section Agent.

(** [X] is the state of what lies outside the process: the model
    behind the provider, the state the tools keep, the scheduler. *)
Context {X : Type}.

(** What a tool can reach: the hub, the files, the outside. *)
Record Outside : Type := {
  hub : Hub;
  fs : FS;
  ext : X;
}.

(** A registered tool, for what the loop asks of it: the optional
    capability [SetContext(channel, chatID)]. *)
Record Tool : Type := {
  SetContext : option (string -> string -> X -> X);
}.

(** The registry, by the three methods the loop calls. *)
Record Registry : Type := {
  Get : string -> option Tool;
  Definitions : list ToolDefinition;
  Execute : string -> JSON -> Outside -> outcome string * Outside;
}.

Record ContextBuilder : Type := {
  cb_workspace : string;
  ranker : option (string -> list MemoryItem -> Z -> list MemoryItem);
  cb_topK : Z;
  skillsLoader : FS -> list Skill * option string;
}.

(** [AgentLoop], without the collaborators that hold state; those are
    in [World]. *)
Record AgentLoop : Type := {
  provider :
    list PMessage -> list ToolDefinition -> string -> F64.t -> Z -> X ->
    outcome Response * X;
  tools : Registry;
  context : ContextBuilder;
  memory : MemoryStore;
  model : string;
  maxIterations : Z;
  temperature : F64.t;
  maxTokens : Z;
}.

(** The state the loop works on.  [clock] gives the successive readings
    of [time.Now()], [ticks] counts the readings taken; [range_order]
    is the order in which the runtime ranges over the map of sessions;
    [trace] records the events so far. *)
Record World : Type := {
  outside : Outside;
  sessionManager : SessionManager;
  memoryPersist : option MemoryPersist;
  clock : nat -> Time;
  ticks : nat;
  range_order : gmap string Session -> list string;
  trace : list Event;
}.

Definition set_outside (w : World) (o : Outside) : World :=
  {| outside := o; sessionManager := sessionManager w;
     memoryPersist := memoryPersist w; clock := clock w; ticks := ticks w;
     range_order := range_order w; trace := trace w |}.

Definition set_sessionManager (w : World) (sm : SessionManager) : World :=
  {| outside := outside w; sessionManager := sm;
     memoryPersist := memoryPersist w; clock := clock w; ticks := ticks w;
     range_order := range_order w; trace := trace w |}.

Definition set_memoryPersist (w : World) (m : option MemoryPersist) : World :=
  {| outside := outside w; sessionManager := sessionManager w;
     memoryPersist := m; clock := clock w; ticks := ticks w;
     range_order := range_order w; trace := trace w |}.

Definition set_hub (o : Outside) (h : Hub) : Outside :=
  {| hub := h; fs := fs o; ext := ext o |}.

Definition set_fs (o : Outside) (f : FS) : Outside :=
  {| hub := hub o; fs := f; ext := ext o |}.

Definition set_ext (o : Outside) (x : X) : Outside :=
  {| hub := hub o; fs := fs o; ext := x |}.

(** *** Computations: state, and a panic ends the run *)

Inductive run (A : Type) : Type :=
  | Done (a : A) (w : World)
  | Crashed (msg : string) (w : World).
Arguments Done {A} a w.
Arguments Crashed {A} msg w.

Definition M (A : Type) : Type := World -> run A.

Definition ret {A} (a : A) : M A := fun w => Done a w.

Definition bind {A B} (m : M A) (f : A -> M B) : M B :=
  fun w =>
    match m w with
    | Done a w' => f a w'
    | Crashed e w' => Crashed e w'
    end.

Definition world_of {A} (r : run A) : World :=
  match r with
  | Done _ w => w
  | Crashed _ w => w
  end.

Definition is_Done {A} (r : run A) : bool :=
  match r with
  | Done _ _ => true
  | Crashed _ _ => false
  end.

Definition emit (ev : Event) : M unit :=
  fun w =>
    Done tt {| outside := outside w; sessionManager := sessionManager w;
               memoryPersist := memoryPersist w; clock := clock w;
               ticks := ticks w; range_order := range_order w;
               trace := trace w ++ [ev] |}.

(** [log.Printf]. *)
Definition log (line : string) : M unit := emit (EvLog line).

(** [time.Now()]. *)
Definition time_Now : M Time :=
  fun w =>
    Done (clock w (ticks w))
      {| outside := outside w; sessionManager := sessionManager w;
         memoryPersist := memoryPersist w; clock := clock w;
         ticks := S (ticks w); range_order := range_order w;
         trace := trace w |}.

(** The pointer [a.memoryPersist], with the state behind it. *)
Definition get_memoryPersist : M (option MemoryPersist) :=
  fun w => Done (memoryPersist w) w.

Definition get_fs : M FS := fun w => Done (fs (outside w)) w.

(** A Go result in a computation: an [error] is a value, a panic ends
    the run. *)
Definition lift {A} (r : outcome A) : M (A + string) :=
  fun w =>
    match r with
    | Ok a => Done (inl a) w
    | Err e => Done (inr e) w
    | Panic e => Crashed e w
    end.

Notation "x <- m ;; k" := (bind m (fun x => k))
  (at level 100, m at next level, right associativity).
Notation "m ;;; k" := (bind m (fun _ => k))
  (at level 100, right associativity).

(** [for _, x := range l { body x }]. *)
Fixpoint for_each {A} (l : list A) (body : A -> M unit) : M unit :=
  match l with
  | [] => ret tt
  | x :: l' => body x ;;; for_each l' body
  end.

(** *** The collaborators, as computations *)

(** The non-blocking send on [hub.Out]. *)
Definition send_Out (out : Outbound) : M unit :=
  r <- (fun w =>
          let '(c, sent) := try_send (Out (hub (outside w))) out in
          Done sent (set_outside w (set_hub (outside w) (set_Out (hub (outside w)) c)))) ;;
  emit (EvSend out r) ;;;
  if r then ret tt else log "Outbound channel full, dropping message".

Definition sessions_GetOrCreate (key : string) : M unit :=
  fun w =>
    Done tt (set_sessionManager w (snd (GetOrCreate (sessionManager w) key))).

(** [session.GetHistory()] through the pointer to the session at [key]. *)
Definition session_GetHistory (key : string) : M (list Message) :=
  fun w =>
    match sessions (sessionManager w) !! key with
    | Some s => Done (GetHistory s) w
    | None => Crashed "nil pointer dereference" w
    end.

(** [session.AddMessage(role, content)]. *)
Definition session_AddMessage (key role_ content_ : string) : M unit :=
  now <- time_Now ;;
  fun w =>
    match sessions (sessionManager w) !! key with
    | Some s =>
        Done tt (set_sessionManager w
                   (update_session (sessionManager w) key
                      (AddMessage s role_ content_ (rfc3339 now))))
    | None => Crashed "nil pointer dereference" w
    end.

(** [a.sessions.Save(session)]; the loop drops the error. *)
Definition sessions_Save (key : string) : M unit :=
  emit (EvSave key) ;;;
  fun w =>
    let '(r, sm', fs') := Save (sessionManager w) (fs (outside w)) key in
    let w' := set_outside (set_sessionManager w sm') (set_fs (outside w) fs') in
    match r with
    | Panic e => Crashed e w'
    | _ => Done tt w'
    end.

Definition sessions_TrimAll : M (list Message) :=
  fun w =>
    let order := range_order w (sessions (sessionManager w)) in
    let '(msgs, sm') := TrimAll order (sessionManager w) in
    Done msgs (set_sessionManager w sm').

Definition memory_AppendToday (a : AgentLoop) (text : string) : M (unit + string) :=
  emit (EvAppendToday text) ;;;
  now1 <- time_Now ;;
  now2 <- time_Now ;;
  r <- (fun w =>
          let '(r, fs') := AppendToday (memory a) text now1 now2 (fs (outside w)) in
          Done r (set_outside w (set_fs (outside w) fs'))) ;;
  lift r.

(** [ReadToday] reads the clock for the name of the file. *)
Definition memory_GetMemoryContext (a : AgentLoop) : M (string + string) :=
  now <- time_Now ;;
  r <- (fun w => Done (GetMemoryContext (memory a) now (fs (outside w))) w) ;;
  lift r.

Definition provider_Chat (a : AgentLoop) (messages : list PMessage)
    : M (Response + string) :=
  emit (EvChat messages) ;;;
  r <- (fun w =>
          let '(r, x') :=
            provider a messages (Definitions (tools a)) (model a)
              (temperature a) (maxTokens a) (ext (outside w)) in
          Done r (set_outside w (set_ext (outside w) x'))) ;;
  lift r.

Definition tools_Execute (a : AgentLoop) (name : string) (args : JSON)
    : M (string + string) :=
  emit (EvExecute name args) ;;;
  r <- (fun w =>
          let '(r, o') := Execute (tools a) name args (outside w) in
          Done r (set_outside w o')) ;;
  lift r.

(** [if t := a.tools.Get(name); t != nil { if the tool has SetContext
    { SetContext(channel, chatID) } }]. *)
Definition set_tool_context (a : AgentLoop) (name channel chatID : string) : M unit :=
  fun w =>
    match Get (tools a) name with
    | Some t =>
        match SetContext t with
        | Some f =>
            Done tt (set_outside w
                       (set_ext (outside w) (f channel chatID (ext (outside w)))))
        | None => Done tt w
        end
    | None => Done tt w
    end.

Definition persist_QueryHistory (m : MemoryPersist) (channelID query : string)
    (topk_ : Z) : M (list MemoryItem + string) :=
  emit (EvQueryHistory channelID query topk_) ;;;
  lift (QueryHistory m channelID query topk_).

(** [a.memoryPersist.StoreHistory(...)] on the current database. *)
Definition persist_StoreHistory (channelID role_ content_ timestamp_ : string)
    : M (unit + string) :=
  emit (EvStoreHistory channelID role_ content_ timestamp_) ;;;
  r <- (fun w =>
          match memoryPersist w with
          | Some m =>
              let '(r, m') := StoreHistory m channelID role_ content_ timestamp_ in
              Done r (set_memoryPersist w (Some m'))
          | None => Crashed "nil pointer dereference" w
          end) ;;
  lift r.

(** *** The context builder (context.go) *)

Definition DQ : string := String (ascii_of_nat 34) EmptyString.

Definition system_template (time_now ws channel chatID : string) : string :=
  String.concat ""
    [ "## Current Time"; LF; time_now; LF; LF;
      "## Workspace"; LF;
      "Your workspace is at: "; ws; LF;
      "- Memory files: "; ws; "/memory/MEMORY.md"; LF;
      "- Daily notes: "; ws; "/memory/YYYY-MM-DD.md"; LF;
      "- Custom skills: "; ws; "/skills/{skill-name}/SKILL.md"; LF; LF;
      "IMPORTANT: For normal conversation, just respond with text - do not call the message tool!"; LF;
      "Only use the 'message' tool when you need to send a message to a specific chat channel."; LF; LF;
      "## Current Session"; LF;
      "Channel: "; channel; LF;
      "Chat ID: "; chatID; LF ].

Definition memory_tool_instruction : string :=
  String.concat ""
    [ "Always be helpful, accurate, and concise. If you decide something should be remembered, call the tool 'write_memory' with JSON arguments: {";
      DQ; "target"; DQ; ": "; DQ; "today"; DQ; "|"; DQ; "long"; DQ; ", ";
      DQ; "content"; DQ; ": "; DQ; "..."; DQ; ", ";
      DQ; "append"; DQ; ": true|false}. Use a tool call rather than plain chat text when writing memory.";
      LF; LF ].

Definition bootstrapFiles : list string := ["SOUL.md"; "AGENTS.md"; "USER.md"; "TOOLS.md"].

(** The loop over the bootstrap files. *)
Definition bootstrap_section (ws : string) (fs_ : FS) : string :=
  fold_left
    (fun system name =>
       match ReadFile fs_ (filepath_Join ws name) with
       | Ok data =>
           let content_ := TrimSpace data in
           if negb (String.eqb content_ "")
           then system +:+ "## " +:+ name +:+ LF +:+ LF +:+ content_
           else system
       | _ => system
       end)
    bootstrapFiles "".

Definition skills_section (loadedSkills : list Skill) : string :=
  match loadedSkills with
  | [] => ""
  | _ =>
      String.concat ""
        ([ "# Skills"; LF; LF;
           "The following skills extend your capabilities. To use a skill, read it using read_skill tool.";
           LF; LF; "<skills>"; LF ] ++
         flat_map (fun sk =>
                     [ " <skill>"; LF;
                       "  <name>"; skill_Name sk; "</name>"; LF;
                       "  <description>"; skill_Description sk; "</description>"; LF;
                       " </skill>"; LF ]) loadedSkills ++
         [ "</skills>"; LF; LF ])
  end.

Definition memories_section (selected : list MemoryItem) : string :=
  match selected with
  | [] => ""
  | _ =>
      "Relevant memories:" +:+ LF +:+
      String.concat ""
        (map (fun m => "- " +:+ Text m +:+ " (" +:+ Kind m +:+ ")" +:+ LF) selected)
  end.

Definition BuildMessages (cb : ContextBuilder) (history : list Message)
    (currentMessage channel chatID memoryContext : string)
    (memories : list MemoryItem) : M (list PMessage) :=
  now <- time_Now ;;
  fs_ <- get_fs ;;
  let system := "You are Picobot, a helpful assistant." +:+ LF +:+ LF in
  let system :=
    system +:+
    system_template (minute_weekday now) (cb_workspace cb) channel chatID +:+
    LF +:+ LF in
  let system := system +:+ bootstrap_section (cb_workspace cb) fs_ in
  let system := system +:+ memory_tool_instruction in
  let '(loadedSkills, err) := skillsLoader cb fs_ in
  match err with
  | Some e => log ("error loading skills: " +:+ e)
  | None => ret tt
  end ;;;
  let system := system +:+ skills_section loadedSkills in
  let system :=
    if negb (String.eqb memoryContext "")
    then system +:+ "Memory:" +:+ LF +:+ memoryContext else system in
  let selected :=
    match ranker cb, memories with
    | Some rank, _ :: _ => rank currentMessage memories (cb_topK cb)
    | _, _ => memories
    end in
  let system := system +:+ memories_section selected in
  ret ([plain "system" system] ++
       map (fun h => plain (Role h) (Content h)) history ++
       [plain "user" currentMessage]).

(** *** The loop (loop.go) *)

Definition remembered : string := "OK, I've remembered that.".
Definition apology : string :=
  "Sorry, I encountered an error while processing your request.".
Definition no_response : string :=
  "I've completed processing but have no response to give.".
Definition exhausted : string := "Max iterations reached without final response".

(** [for _, tc := range resp.ToolCalls { ... }], in both loops. *)
Fixpoint exec_tool_calls (a : AgentLoop) (calls : list ToolCall)
    (messages : list PMessage) (lastToolResult : string)
    : M (list PMessage * string) :=
  match calls with
  | [] => ret (messages, lastToolResult)
  | tc :: calls' =>
      r <- tools_Execute a (tc_Name tc) (tc_Arguments tc) ;;
      let res := match r with
                 | inl res => res
                 | inr e => "(tool error) " +:+ e
                 end in
      exec_tool_calls a calls'
        (messages ++ [{| msg_Role := "tool"; msg_Content := res;
                         msg_ToolCalls := []; msg_ToolCallID := tc_ID tc |}])
        res
  end.

Definition assistant_calls (resp : Response) : PMessage :=
  {| msg_Role := "assistant"; msg_Content := resp_Content resp;
     msg_ToolCalls := ToolCalls resp; msg_ToolCallID := "" |}.

(** The loop [for iteration < a.maxIterations] of [Run]; [fuel] is the
    number of iterations that are left.  It returns [finalContent] and
    [lastToolResult]. *)
Fixpoint Run_tool_loop (a : AgentLoop) (fuel : nat) (messages : list PMessage)
    (lastToolResult : string) : M (string * string) :=
  match fuel with
  | O => ret ("", lastToolResult)
  | S fuel' =>
      r <- provider_Chat a messages ;;
      match r with
      | inr e =>
          log ("provider error: " +:+ e) ;;;
          ret (apology, lastToolResult)
      | inl resp =>
          if HasToolCalls resp then
            p <- exec_tool_calls a (ToolCalls resp)
                   (messages ++ [assistant_calls resp]) lastToolResult ;;
            Run_tool_loop a fuel' (fst p) (snd p)
          else ret (resp_Content resp, lastToolResult)
      end
  end.

(** The choice of the reply after the loop. *)
Definition final_reply (finalContent lastToolResult : string) : string :=
  if String.eqb finalContent "" && negb (String.eqb lastToolResult "")
  then lastToolResult
  else if String.eqb finalContent "" then no_response
  else finalContent.

(** The query of persistent memory in [Run]. *)
Definition recall (channel chatID content_ : string) : M (list MemoryItem) :=
  mp <- get_memoryPersist ;;
  match mp with
  | Some m =>
      r <- persist_QueryHistory m (channel +:+ chatID) content_ 0 ;;
      match r with
      | inr e => log ("Failed to query persistent memory: " +:+ e) ;;; ret []
      | inl memx =>
          for_each memx (fun m => log ("Result: " +:+ Text m)) ;;;
          ret (map (fun m => {| Kind := "Persistent"; mi_Role := mi_Role m;
                                Text := Text m; Similarity := Similarity m;
                                mi_Timestamp := mi_Timestamp m |}) memx)
      end
  | None => ret []
  end.

(** Steps 3 to 6 of the loop for one message: the session, the two
    memories, the turn, the tool-calling loop and the fallbacks. *)
Definition steps_3_to_6 (a : AgentLoop) (channel chatID content_ : string)
    : M string :=
  let key := channel +:+ ":" +:+ chatID in
  sessions_GetOrCreate key ;;;
  r <- memory_GetMemoryContext a ;;
  let memCtx := match r with inl c => c | inr _ => "" end in
  memories <- recall channel chatID content_ ;;
  history <- session_GetHistory key ;;
  messages <- BuildMessages (context a) history content_ channel chatID memCtx memories ;;
  p <- Run_tool_loop a (Z.to_nat (maxIterations a)) messages "" ;;
  ret (final_reply (fst p) (snd p)).

(** The archival of the trimmed history. *)
Definition store_trimmed (channel chatID : string) (m : Message) : M unit :=
  if negb (String.eqb (Role m) "user") then
    r <- persist_StoreHistory (channel +:+ chatID) (Role m) (Content m) (Timestamp m) ;;
    match r with
    | inr e => log ("Failed to store trimmed history: " +:+ e)
    | inl _ => ret tt
    end
  else ret tt.

Definition archive (channel chatID : string) : M unit :=
  mp <- get_memoryPersist ;;
  match mp with
  | Some _ =>
      msgs <- sessions_TrimAll ;;
      for_each msgs (store_trimmed channel chatID)
  | None => sessions_TrimAll ;;; ret tt
  end.

(** The branch of the remember heuristic. *)
Definition remember (a : AgentLoop) (msg : Inbound) (note : string) : M unit :=
  r <- memory_AppendToday a note ;;
  match r with
  | inr e => log ("error appending to memory: " +:+ e)
  | inl _ => ret tt
  end ;;;
  send_Out {| out_Channel := in_Channel msg; out_ChatID := in_ChatID msg;
              out_Content := remembered |} ;;;
  let key := in_Channel msg +:+ ":" +:+ in_ChatID msg in
  sessions_GetOrCreate key ;;;
  session_AddMessage key "user" (in_Content msg) ;;;
  session_AddMessage key "assistant" remembered ;;;
  sessions_Save key.

(** The body of [case msg, ok := <-a.hub.In] of [Run]. *)
Definition process_message (a : AgentLoop) (msg : Inbound) : M unit :=
  log ("Processing message from " +:+ in_Channel msg +:+ ":" +:+ in_SenderID msg) ;;;
  let trimmed := TrimSpace (in_Content msg) in
  let matches := FindStringSubmatch rememberRE trimmed in
  if (length matches =? 2)%nat then
    remember a msg (nth 1 matches "")
  else
    set_tool_context a "message" (in_Channel msg) (in_ChatID msg) ;;;
    set_tool_context a "cron" (in_Channel msg) (in_ChatID msg) ;;;
    finalContent <- steps_3_to_6 a (in_Channel msg) (in_ChatID msg) (in_Content msg) ;;
    let key := in_Channel msg +:+ ":" +:+ in_ChatID msg in
    session_AddMessage key "user" (in_Content msg) ;;;
    session_AddMessage key "assistant" finalContent ;;;
    archive (in_Channel msg) (in_ChatID msg) ;;;
    sessions_Save key ;;;
    send_Out {| out_Channel := in_Channel msg; out_ChatID := in_ChatID msg;
                out_Content := finalContent |}.

(** [msg, ok := <-a.hub.In], when a message is queued. *)
Definition receive_In : M (option Inbound) :=
  fun w =>
    match receive (In (hub (outside w))) with
    | Some (msg, c) =>
        Done (Some msg)
          (set_outside w
             (set_hub (outside w)
                {| In := c; Out := Out (hub (outside w));
                   TelegramOut := TelegramOut (hub (outside w));
                   NtfyOut := NtfyOut (hub (outside w)) |}))
    | None => Done None w
    end.

(** [Run]: [turns] is the number of turns of the loop before the
    cancellation; a turn with no message queued is the idle tick. *)
Fixpoint Run (a : AgentLoop) (turns : nat) : M unit :=
  match turns with
  | O => log "Agent loop received shutdown signal"
  | S turns' =>
      r <- receive_In ;;
      match r with
      | Some msg => process_message a msg ;;; Run a turns'
      | None => Run a turns'
      end
  end.

(** The loop of [ProcessDirect]. *)
Fixpoint ProcessDirect_loop (a : AgentLoop) (fuel : nat) (messages : list PMessage)
    (lastToolResult : string) : M (string + string) :=
  match fuel with
  | O => ret (inl exhausted)
  | S fuel' =>
      r <- provider_Chat a messages ;;
      match r with
      | inr e => ret (inr e)
      | inl resp =>
          if negb (HasToolCalls resp) then
            if negb (String.eqb (resp_Content resp) "") then ret (inl (resp_Content resp))
            else if negb (String.eqb lastToolResult "") then ret (inl lastToolResult)
            else ret (inl (resp_Content resp))
          else
            p <- exec_tool_calls a (ToolCalls resp)
                   (messages ++ [assistant_calls resp]) lastToolResult ;;
            ProcessDirect_loop a fuel' (fst p) (snd p)
      end
  end.

(** [ProcessDirect]; the deadline of its context is time, which the
    provider and the tools see and this model does not. *)
Definition ProcessDirect (a : AgentLoop) (content_ : string) : M (string + string) :=
  set_tool_context a "message" "cli" "direct" ;;;
  set_tool_context a "cron" "cli" "direct" ;;;
  r <- memory_GetMemoryContext a ;;
  let memCtx := match r with inl c => c | inr _ => "" end in
  messages <- BuildMessages (context a) [] content_ "cli" "direct" memCtx [] ;;
  ProcessDirect_loop a (Z.to_nat (maxIterations a)) messages "".

(** *** The direct mode, in the specification's words *)

(** Steps 3 to 6 with channel "cli" and chat "direct", the reply
    returned to the caller. *)
Definition ProcessDirect_spec (a : AgentLoop) (content_ : string) : M string :=
  steps_3_to_6 a "cli" "direct" content_.

End Agent.

Arguments Outside : clear implicits.
Arguments Tool : clear implicits.
Arguments Registry : clear implicits.
Arguments AgentLoop : clear implicits.
Arguments World : clear implicits.
Arguments run : clear implicits.
Arguments M : clear implicits.
Arguments Done {X A} a w.
Arguments Crashed {X A} msg w.

(** *** Reading a trace *)

Definition is_chat (ev : Event) : bool :=
  match ev with EvChat _ => true | _ => false end.

(** The number of calls of [provider.Chat] in a trace. *)
Definition chat_calls (tr : list Event) : nat := length (List.filter is_chat tr).

(** The calls of [StoreHistory] in a trace, with their arguments. *)
Definition store_calls (tr : list Event) : list (string * string * string * string) :=
  flat_map (fun ev =>
              match ev with
              | EvStoreHistory c r t ts => [(c, r, t, ts)]
              | _ => []
              end) tr.

(** [m] adds to the trace at most [n] calls of the provider, whether it
    returns or panics. *)
Definition chat_bound {X A} (n : nat) (m : M X A) : Prop :=
  forall w, exists tr,
    trace (world_of (m w)) = trace w ++ tr /\ (chat_calls tr <= n)%nat.

(** [m] adds to the trace only events that satisfy [Q]. *)
Definition all_events {X A} (Q : Event -> Prop) (m : M X A) : Prop :=
  forall w, exists tr,
    trace (world_of (m w)) = trace w ++ tr /\ Forall Q tr.

(** The event is not a call of [StoreHistory] under another channel
    than [c]. *)
Definition stores_under (c : string) (ev : Event) : Prop :=
  match ev with
  | EvStoreHistory c' _ _ _ => c' = c
  | _ => True
  end.

(** The call of [StoreHistory] that archives the message [m] under [c]. *)
Definition store_call_of (c : string) (m : Message) : string * string * string * string :=
  (c, Role m, Content m, Timestamp m).

Definition not_user (m : Message) : bool := negb (String.eqb (Role m) "user").

(** The part of the world the provider and the tools cannot reach. *)
Definition core {X} (w : World X)
    : SessionManager * option MemoryPersist * (gmap string Session -> list string) :=
  (sessionManager w, memoryPersist w, range_order w).

Definition is_query (ev : Event) : bool :=
  match ev with EvQueryHistory _ _ _ => true | _ => false end.

(** The calls of [QueryHistory] in a trace. *)
Definition query_calls (tr : list Event) : list Event := List.filter is_query tr.

Definition run_map {X A} (g : World X -> World X) (r : run X A) : run X A :=
  match r with
  | Done a w => Done a (g w)
  | Crashed e w => Crashed e (g w)
  end.

(** [m] neither reads nor writes the sessions. *)
Definition ignores_sessions {X A} (m : M X A) : Prop :=
  forall w sm,
    m (set_sessionManager w sm) = run_map (fun w' => set_sessionManager w' sm) (m w).

(** The direct mode as the specification words it: the tool context of
    step 2, which [ProcessDirect] sets as [Run] does, then steps 3 to 6. *)
Definition direct_as_specified {X} (a : AgentLoop X) (content_ : string) : M X string :=
  bind (set_tool_context a "message" "cli" "direct")
    (fun _ => bind (set_tool_context a "cron" "cli" "direct")
                (fun _ => ProcessDirect_spec a content_)).

(** The direct mode does what is specified on a state: it returns the
    same reply, and persistent memory is queried by both or by none. *)
Definition direct_meets_spec {X} (a : AgentLoop X) (content_ : string) (w : World X)
    : Prop :=
  match ProcessDirect a content_ w, direct_as_specified a content_ w with
  | Done (inl reply) w1, Done reply' w2 =>
      reply = reply' /\ query_calls (trace w1) = query_calls (trace w2)
  | _, _ => False
  end.

Definition is_store (ev : Event) : bool :=
  match ev with EvStoreHistory _ _ _ _ => true | _ => false end.

(** The prefixes [TrimAll] removes, session by session in the order of
    the range. *)
Definition trimmed_prefixes (order : list string) (ss : gmap string Session)
    : list Message :=
  concat (map (fun k => match ss !! k with
                        | Some s => fst (Trim s)
                        | None => []
                        end) order).

(** [m] leaves the component [f] of the world as it is. *)
Definition keeps {X A B} (f : World X -> B) (m : M X A) : Prop :=
  forall w, f (world_of (m w)) = f w.


(** ** A small installation, for the examples *)

Definition demo_time (n : nat) : Time :=
  match n with
  | O => {| date_utc := "2026-10-31"; rfc3339_utc := "2026-10-31T12:00:00Z";
            rfc3339 := "2026-10-31T12:00:00Z";
            minute_weekday := "2026-10-31 12:00 (Saturday)" |}
  | 1%nat => {| date_utc := "2026-10-31"; rfc3339_utc := "2026-10-31T12:00:01Z";
                rfc3339 := "2026-10-31T12:00:01Z";
                minute_weekday := "2026-10-31 12:00 (Saturday)" |}
  | _ => {| date_utc := "2026-10-31"; rfc3339_utc := "2026-10-31T12:00:02Z";
            rfc3339 := "2026-10-31T12:00:02Z";
            minute_weekday := "2026-10-31 12:00 (Saturday)" |}
  end.

Definition demo_fs : FS :=
  {| files := ∅; session_files := ∅; denied := fun _ => false |}.

(** A provider that answers every turn with an empty text and no tool
    call. *)
Definition silent_provider (messages : list PMessage) (defs : list ToolDefinition)
    (model_ : string) (temperature_ : F64.t) (maxTokens_ : Z) (x : unit)
    : outcome Response * unit :=
  (Ok {| resp_Content := ""; HasToolCalls := false; ToolCalls := [] |}, x).

Definition demo_registry : Registry unit :=
  {| Get := fun _ => None; Definitions := [];
     Execute := fun name _ o => (Err ("tool not found: " +:+ name), o) |}.

Definition demo_agent : AgentLoop unit :=
  {| provider := silent_provider;
     tools := demo_registry;
     context := {| cb_workspace := "ws"; ranker := None; cb_topK := 0;
                   skillsLoader := fun _ => ([], None) |};
     memory := NewMemoryStoreWithWorkspace "ws" 100;
     model := "m"; maxIterations := 3; temperature := F64.zero; maxTokens := 100 |}.

Definition demo_world : World unit :=
  {| outside := {| hub := NewHub 4; fs := demo_fs; ext := tt |};
     sessionManager := NewSessionManager "ws";
     memoryPersist := None;
     clock := demo_time; ticks := 0;
     range_order := fun ss => map fst (map_to_list ss);
     trace := [] |}.

Definition demo_remember : Inbound :=
  {| in_Channel := "telegram"; in_SenderID := "u1"; in_ChatID := "42";
     in_Content := "remember to buy milk" |}.

(** A persistent memory with three rows, and an engine that maps every
    text to the unit vector [(1, 0)]. *)
Definition demo_engine : ONNXEmbeddingEngine :=
  {| engine_Embed := fun texts => Ok (map (fun _ => [F32.of_Z 1; F32.zero]) texts);
     BatchSize := 32 |}.

Definition demo_conf : MemoryConfig :=
  {| Enabled := true; EmbedType := "onnx"; DbPath := "~/memory.db";
     ONNXModelPath := "~/model.onnx"; ONNXTokenizerPath := "~/tokenizer.json";
     Threshold := F32.zero; TopK := 0 |}.

Definition demo_db : DB :=
  {| rows :=
       [ {| id := 1; channel_id := "c1"; role := "assistant";
            content := "the password is 42"; timestamp := "2026-10-30T08:00:00Z";
            embedding := floatsToBytes [F32.of_Z 1; F32.zero] |};
         {| id := 2; channel_id := "c1"; role := "assistant";
            content := "the weather is fine"; timestamp := "2026-10-30T09:00:00Z";
            embedding := floatsToBytes [F32.zero; F32.of_Z 1] |};
         {| id := 3; channel_id := "c2"; role := "assistant";
            content := "the password is 43"; timestamp := "2026-10-30T10:00:00Z";
            embedding := floatsToBytes [F32.of_Z 1; F32.zero] |} ];
     seq := 3; broken := false |}.

Definition demo_memory : MemoryPersist :=
  {| embedder := ONNXEmbedder_Embed (NewONNXEmbedder demo_engine);
     db := {| rows := []; seq := 0; broken := false |};
     threshold := default_threshold; topk := 10 |}.

Definition demo_items : list MemoryItem :=
  [ {| Kind := ""; mi_Role := "assistant"; Text := "the password is 42";
       Similarity := F64.one; mi_Timestamp := "2026-10-30T08:00:00Z" |} ].

(** A session of another chat that holds 51 messages, the oldest one an
    answer of the assistant. *)
Definition demo_old : Message :=
  {| Role := "assistant"; Content := "the password is 42";
     Timestamp := "2026-10-30T08:00:00Z" |}.

Definition demo_filler : Message :=
  {| Role := "user"; Content := "ok"; Timestamp := "2026-10-30T08:01:00Z" |}.

Definition demo_long : Session :=
  {| Key := "ntfy:7"; History := demo_old :: repeat demo_filler 50 |}.

Definition demo_sessions : SessionManager :=
  update_session (NewSessionManager "ws") "ntfy:7" demo_long.

Definition demo_world_memory : World unit :=
  {| outside := {| hub := NewHub 4; fs := demo_fs; ext := tt |};
     sessionManager := demo_sessions;
     memoryPersist := Some demo_memory;
     clock := demo_time; ticks := 0;
     range_order := fun ss => map fst (map_to_list ss);
     trace := [] |}.

Definition demo_hello : Inbound :=
  {| in_Channel := "telegram"; in_SenderID := "u1"; in_ChatID := "42";
     in_Content := "hello" |}.

(** The same memory with a row stored under "clidirect". *)
Definition demo_db_cli : DB :=
  {| rows :=
       [ {| id := 1; channel_id := "clidirect"; role := "assistant";
            content := "the password is 42"; timestamp := "2026-10-30T08:00:00Z";
            embedding := floatsToBytes [F32.of_Z 1; F32.zero] |} ];
     seq := 1; broken := false |}.

Definition demo_world_cli : World unit :=
  {| outside := {| hub := NewHub 4; fs := demo_fs; ext := tt |};
     sessionManager := NewSessionManager "ws";
     memoryPersist := Some (set_db demo_memory demo_db_cli);
     clock := demo_time; ticks := 0;
     range_order := fun ss => map fst (map_to_list ss);
     trace := [] |}.

(** A provider that answers every turn with the text "hi". *)
Definition hi_provider (messages : list PMessage) (defs : list ToolDefinition)
    (model_ : string) (temperature_ : F64.t) (maxTokens_ : Z) (x : unit)
    : outcome Response * unit :=
  (Ok {| resp_Content := "hi"; HasToolCalls := false; ToolCalls := [] |}, x).

Definition demo_agent_hi : AgentLoop unit :=
  {| provider := hi_provider;
     tools := demo_registry;
     context := {| cb_workspace := "ws"; ranker := None; cb_topK := 0;
                   skillsLoader := fun _ => ([], None) |};
     memory := NewMemoryStoreWithWorkspace "ws" 100;
     model := "m"; maxIterations := 3; temperature := F64.zero; maxTokens := 100 |}.

(** An engine of hidden size 2: the number of bytes of the text, and 1;
    and a text of 401 words, which makes three chunks. *)
Definition length_engine : ONNXEmbeddingEngine :=
  {| engine_Embed := fun texts =>
       Ok (map (fun t => [F32.of_Z (Z.of_nat (String.length t)); F32.of_Z 1]) texts);
     BatchSize := 32 |}.

Definition demo_words : string := Join (repeat "w"%string 401) " ".

(** *** Further definitions of package memory *)

(** A binary32 number: a [float32] of Go is always one. *)
Definition valid_float32 (x : F32.t) : bool := valid_binary F32.prec F32.emax x.

(** The table holds whole [float32] arrays only. *)
Definition whole_embeddings (d : DB) : Prop :=
  Forall (fun r => (length (embedding r) mod 4 = 0)%nat) (rows d).

(** The loop of [BatchStoreHistory] inside its transaction: [tx] is the
    table as the transaction sees it. *)
Fixpoint BatchStoreHistory_loop (m : MemoryPersist) (channelID : string)
    (items : list Message) (tx : DB) : outcome DB :=
  match items with
  | [] => Ok tx
  | it :: items' =>
      match embedder m (Content it) with
      | Err e => Err e
      | Panic e => Panic e
      | Ok emb =>
          let r := {| id := seq tx + 1; channel_id := channelID; role := Role it;
                      content := Content it; timestamp := Timestamp it;
                      embedding := floatsToBytes emb |} in
          BatchStoreHistory_loop m channelID items'
            {| rows := rows tx ++ [r]; seq := seq tx + 1; broken := false |}
      end
  end.

(** [BatchStoreHistory]: nothing is done for no items; otherwise the
    rows are inserted in one transaction, which is rolled back at the
    first failure and committed at the end. *)
Definition BatchStoreHistory (m : MemoryPersist) (channelID : string)
    (items : list Message) : outcome unit * MemoryPersist :=
  match items with
  | [] => (Ok tt, m)
  | _ :: _ =>
      if broken (db m) then (Err "database is closed", m)
      else
        match BatchStoreHistory_loop m channelID items (db m) with
        | Ok d => (Ok tt, set_db m d)
        | Err e => (Err e, m)
        | Panic e => (Panic e, m)
        end
  end.

(** The items stored one call of [StoreHistory] after the other, until
    one fails. *)
Fixpoint StoreHistory_each (m : MemoryPersist) (channelID : string)
    (items : list Message) : outcome unit * MemoryPersist :=
  match items with
  | [] => (Ok tt, m)
  | it :: items' =>
      match StoreHistory m channelID (Role it) (Content it) (Timestamp it) with
      | (Ok _, m') => StoreHistory_each m' channelID items'
      | other => other
      end
  end.

(** The sign bit of [math.Float32bits]. *)
Definition sign_bit (s : bool) : Z := if s then 1 else 0.

(** *** Further definitions of package session and of store.go *)

(** Every session of the map is stored under its own key. *)
Definition own_keys (sm : SessionManager) : Prop :=
  forall k s, sessions sm !! k = Some s -> Key s = k.

(** Every session of the map is within the bound of the history. *)
Definition all_trimmed (ss : gmap string Session) : Prop :=
  forall k s, ss !! k = Some s -> (length (History s) <= MaxHistorySize)%nat.

(** [WriteLongTerm]: [MEMORY.md] is overwritten. *)
Definition WriteLongTerm (s : MemoryStore) (content_ : string) (fs : FS)
    : outcome unit * FS :=
  if denied fs (memoryDir s) then (Err "mkdir: permission denied", fs)
  else
    let path := filepath_Join (memoryDir s) "MEMORY.md" in
    if denied fs path then (Err "open: permission denied", fs)
    else
      (Ok tt,
       {| files := <[path := content_]> (files fs);
          session_files := session_files fs;
          denied := denied fs |}).

(** The line [AppendToday] writes. *)
Definition today_line (now : Time) (text : string) : string :=
  "[" +:+ rfc3339_utc now +:+ "] " +:+ text +:+ LF.

(** The number of messages of a channel in a queue. *)
Definition for_channel (c : string) (l : list Outbound) : list Outbound :=
  List.filter (fun m => String.eqb (out_Channel m) c) l.

(** The reports of a dropped message in a log. *)
Definition dropped (log : list ProxyEvent) : list Outbound :=
  flat_map (fun ev => match ev with DroppedFull _ msg => [msg] | _ => [] end) log.

(** *** Further readers of a trace *)

Definition is_send (ev : Event) : bool :=
  match ev with EvSend _ _ => true | _ => false end.

(** The sends on [hub.Out] in a trace, each with the flag of the
    non-blocking send. *)
Definition send_calls (tr : list Event) : list (Outbound * bool) :=
  flat_map (fun ev => match ev with EvSend out sent => [(out, sent)] | _ => [] end) tr.

(** The tool message the loop appends for a call and its result. *)
Definition tool_message (tx : ToolCall) (res : string) : PMessage :=
  {| msg_Role := "tool"; msg_Content := res; msg_ToolCalls := [];
     msg_ToolCallID := tc_ID tx |}.

(** A computation that returns makes one send on [hub.Out], of a
    message that satisfies [P]. *)
Definition replies_once {X A} (P : Outbound -> Prop) (m : M X A) : Prop :=
  forall w a w', m w = Done a w' ->
    exists tr out sent,
      trace w' = trace w ++ tr /\ send_calls tr = [(out, sent)] /\ P out.

(** What a computation returns satisfies [R]. *)
Definition returns {X A} (R : A -> Prop) (m : M X A) : Prop :=
  forall w a w', m w = Done a w' -> R a.

(** A hub with three replies waiting, and an agent that is granted no
    iteration. *)
Definition demo_hub_waiting : Hub :=
  set_Out (NewHub 4)
    {| buf := [ {| out_Channel := "telegram"; out_ChatID := "42"; out_Content := "a" |};
                {| out_Channel := "ntfy"; out_ChatID := "7"; out_Content := "b" |};
                {| out_Channel := "cli"; out_ChatID := "direct"; out_Content := "c" |} ];
       cap := 4 |}.

Definition demo_agent_idle : AgentLoop unit :=
  {| provider := hi_provider;
     tools := demo_registry;
     context := {| cb_workspace := "ws"; ranker := None; cb_topK := 0;
                   skillsLoader := fun _ => ([], None) |};
     memory := NewMemoryStoreWithWorkspace "ws" 100;
     model := "m"; maxIterations := 0; temperature := F64.zero; maxTokens := 100 |}.

(** A provider that is down. *)
Definition down_provider (messages : list PMessage) (defs : list ToolDefinition)
    (model_ : string) (temperature_ : F64.t) (maxTokens_ : Z) (x : unit)
    : outcome Response * unit :=
  (Err "connection refused", x).

Definition demo_agent_down : AgentLoop unit :=
  {| provider := down_provider;
     tools := demo_registry;
     context := {| cb_workspace := "ws"; ranker := None; cb_topK := 0;
                   skillsLoader := fun _ => ([], None) |};
     memory := NewMemoryStoreWithWorkspace "ws" 100;
     model := "m"; maxIterations := 3; temperature := F64.zero; maxTokens := 100 |}.

(** A session that is at the bound of its history, in a world whose
    persistent memory is on. *)
Definition demo_full : Session :=
  {| Key := "telegram:42"; History := repeat demo_filler 50 |}.

Definition demo_world_full : World unit :=
  {| outside := {| hub := NewHub 4; fs := demo_fs; ext := tt |};
     sessionManager := update_session (NewSessionManager "ws") "telegram:42" demo_full;
     memoryPersist := Some demo_memory;
     clock := demo_time; ticks := 0;
     range_order := fun ss => map fst (map_to_list ss);
     trace := [] |}.

(** ** The ONNX engine (tokenizer.go, onnx_engine.go, onnx_runtime.go) *)

(** [%d] of [fmt]. *)
Definition itoa (z : Z) : string := NilZero.string_of_int (Z.to_int z).

(** The conversion [float32(x)] of a [float64]: rounding to binary32. *)
Definition F32_of_f64 (x : F64.t) : F32.t :=
  match x with
  | S754_finite s m e => binary_normalize F32.prec F32.emax (cond_Zopp s (Zpos m)) e s
  | _ => x
  end.

(** [norm = float32(math.Sqrt(float64(norm)))] after the loop
    [for _, val := range v { norm += val * val }], as both
    [normalizeEmbeddings] and [normalizeVector] compute it. *)
Definition vector_norm (v : list F32.t) : F32.t :=
  let norm := fold_left (fun norm val => F32.add norm (F32.mul val val)) v F32.zero in
  F32_of_f64 (SFsqrt F64.prec F64.emax (F64.of_f32 norm)).

(** [normalizeEmbeddings] (onnx_engine.go): the result; the slices of
    the argument are overwritten with it. *)
Definition normalizeEmbeddings (embeddings : list (list F32.t)) : list (list F32.t) :=
  map (fun embedding =>
         let norm := vector_norm embedding in
         if SFltb F32.zero norm
         then map (fun x => F32.div x norm) embedding
         else embedding)
      embeddings.

(** [normalizeVector] (package memory). *)
Definition normalizeVector (v : list F32.t) : list F32.t :=
  let norm := vector_norm v in
  map (fun val => F32.div val norm) v.

Definition is_zero (x : F32.t) : bool :=
  match x with S754_zero _ => true | _ => false end.

(** The tokenizer: [EncodeSingle text] stands for the ids of
    [t.tokenizer.EncodeSingle(t.preprocess(text), true)], the work of the
    library on the preprocessed text. *)
Record Tokenizer : Type := {
  tk_maxLength : Z;
  EncodeSingle : string -> outcome (list Z);
}.

(** [Tokenizer.Tokenize]: the ids, followed by zeros up to [maxLength]. *)
Definition Tokenize (t : Tokenizer) (text : string) (maxLength : Z)
    : outcome (list Z) :=
  let maxLength := if maxLength <=? 0 then tk_maxLength t else maxLength in
  if maxLength <=? 0 then Err "maxLength must be > 0"
  else
    match EncodeSingle t text with
    | Ok ids => Ok (ids ++ repeat 0 (Z.to_nat maxLength - length ids))
    | Err e => Err e
    | Panic e => Panic e
    end.

(** The loop of [TokenizeBatch]; [i] is the index of the next text. *)
Fixpoint TokenizeBatch_loop (t : Tokenizer) (texts : list string) (i maxLength : Z)
    : outcome (list (list Z)) :=
  match texts with
  | [] => Ok []
  | text :: texts' =>
      match Tokenize t text maxLength with
      | Ok tokenized =>
          match TokenizeBatch_loop t texts' (i + 1) maxLength with
          | Ok rest => Ok (tokenized :: rest)
          | other => other
          end
      | Err e => Err ("failed to tokenize text " +:+ itoa i +:+ ": " +:+ e)
      | Panic e => Panic e
      end
  end.

Definition TokenizeBatch (t : Tokenizer) (texts : list string) (maxLength : Z)
    : outcome (list (list Z)) :=
  let maxLength := if maxLength <=? 0 then tk_maxLength t else maxLength in
  TokenizeBatch_loop t texts 0 maxLength.

(** [generateAttentionMasks]: 1 for a token, 0 for the padding id 0. *)
Definition generateAttentionMasks (tokens : list (list Z)) : list (list Z) :=
  map (fun seq => map (fun token => if negb (token =? 0) then 1 else 0) seq) tokens.

(** The validation loop of [CreateInputTensorFromTokens]: the first
    sequence whose length is not [seqLen] gives the error. *)
Fixpoint check_lengths (tokens : list (list Z)) (i seqLen : Z) : option string :=
  match tokens with
  | [] => None
  | seq :: rest =>
      if negb (Z.of_nat (length seq) =? seqLen)
      then Some ("sequence " +:+ itoa i +:+ " has length " +:+
                 itoa (Z.of_nat (length seq)) +:+ ", expected " +:+ itoa seqLen)
      else check_lengths rest (i + 1) seqLen
  end.

(** [copy(dst[lo:hi], src)] for [lo <= hi <= len(dst)]. *)
Definition copy_at (dst : list Z) (lo hi : nat) (src : list Z) : list Z :=
  let n := Nat.min (hi - lo) (length src) in
  firstn lo dst ++ firstn n src ++ skipn (lo + n) dst.

(** The loop that flattens the sequences into [flatTokens]. *)
Fixpoint flatten_rows (rows_ : list (list Z)) (i seqLen : nat) (flat : list Z) : list Z :=
  match rows_ with
  | [] => flat
  | seq :: rest =>
      flatten_rows rest (S i) seqLen (copy_at flat (i * seqLen) ((i + 1) * seqLen) seq)
  end.

(** [CreateInputTensorFromTokens], up to the call of the runtime: the
    data and the shape it hands to [NewRealONNXTensor]. *)
Definition CreateInputTensorFromTokens (tokens : list (list Z))
    : outcome (list Z * list Z) :=
  match tokens with
  | [] => Err "no tokens provided"
  | seq0 :: _ =>
      let batchSize := length tokens in
      let seqLen := length seq0 in
      match check_lengths tokens 0 (Z.of_nat seqLen) with
      | Some e => Err e
      | None =>
          let flatTokens := flatten_rows tokens 0 seqLen (repeat 0 (batchSize * seqLen)) in
          Ok (flatTokens, [Z.of_nat batchSize; Z.of_nat seqLen])
      end
  end.

(** *** The statistics of the engine *)

(** A 64-bit signed integer of Go: the arithmetic wraps around. *)
Definition int64 (z : Z) : Z := (z + 2 ^ 63) mod 2 ^ 64 - 2 ^ 63.

(** [InferenceStats]; a [time.Duration] is a number of nanoseconds. *)
Record InferenceStats : Type := {
  TotalInferences : Z;
  TotalTokens : Z;
  AverageLatency : Z;
  P95Latency : Z;
  ErrorRate : F64.t;
  ThroughputTPS : F64.t;
  RecentLatencies : list Z;
  TotalErrors : Z;
}.

Definition NewInferenceStats : InferenceStats :=
  {| TotalInferences := 0; TotalTokens := 0; AverageLatency := 0; P95Latency := 0;
     ErrorRate := F64.zero; ThroughputTPS := F64.zero; RecentLatencies := [];
     TotalErrors := 0 |}.

Definition F64_div (x y : F64.t) : F64.t := SFdiv F64.prec F64.emax x y.

(** The loop of [updateStats]: the sum of the latencies and the latency
    at index [p95Index], when this index is positive. *)
Fixpoint updateStats_loop (lats : list Z) (i p95Index total p95 : Z) : Z * Z :=
  match lats with
  | [] => (total, p95)
  | lat :: rest =>
      let total := int64 (total + lat) in
      let p95 := if (i =? p95Index) && (0 <? p95Index) then lat else p95 in
      updateStats_loop rest (i + 1) p95Index total p95
  end.

Definition updateStats (s : InferenceStats) : InferenceStats :=
  match RecentLatencies s with
  | [] => s
  | _ :: _ =>
      let n := Z.of_nat (length (RecentLatencies s)) in
      let p95Index := if 20 <=? n then Z.quot (int64 (n * 95)) 100 else 0 in
      let '(total, p95) :=
        updateStats_loop (RecentLatencies s) 0 p95Index 0 (P95Latency s) in
      let avg := Z.quot total n in
      {| TotalInferences := TotalInferences s; TotalTokens := TotalTokens s;
         AverageLatency := avg; P95Latency := p95; ErrorRate := ErrorRate s;
         ThroughputTPS :=
           if 0 <? avg then F64_div (F64.of_Z 1000000000) (F64.of_Z avg)
           else ThroughputTPS s;
         RecentLatencies := RecentLatencies s; TotalErrors := TotalErrors s |}
  end.

Definition RecordInference (s : InferenceStats) (tokenCount latency : Z)
    : InferenceStats :=
  let lats := RecentLatencies s ++ [latency] in
  updateStats
    {| TotalInferences := int64 (TotalInferences s + 1);
       TotalTokens := int64 (TotalTokens s + tokenCount);
       AverageLatency := AverageLatency s; P95Latency := P95Latency s;
       ErrorRate := ErrorRate s; ThroughputTPS := ThroughputTPS s;
       RecentLatencies := if (100 <? length lats)%nat then skipn 1 lats else lats;
       TotalErrors := TotalErrors s |}.

Definition updateErrorRate (s : InferenceStats) : InferenceStats :=
  if 0 <? TotalInferences s then
    {| TotalInferences := TotalInferences s; TotalTokens := TotalTokens s;
       AverageLatency := AverageLatency s; P95Latency := P95Latency s;
       ErrorRate := F64_div (F64.of_Z (TotalErrors s)) (F64.of_Z (TotalInferences s));
       ThroughputTPS := ThroughputTPS s; RecentLatencies := RecentLatencies s;
       TotalErrors := TotalErrors s |}
  else s.

Definition RecordError (s : InferenceStats) : InferenceStats :=
  updateErrorRate
    {| TotalInferences := TotalInferences s; TotalTokens := TotalTokens s;
       AverageLatency := AverageLatency s; P95Latency := P95Latency s;
       ErrorRate := ErrorRate s; ThroughputTPS := ThroughputTPS s;
       RecentLatencies := RecentLatencies s;
       TotalErrors := int64 (TotalErrors s + 1) |}.

(** What [ONNXEmbeddingEngine.Embed] does to the statistics when the
    tokenizer, the tensors or the inference fail: [RecordError] at the
    failure, then the deferred [RecordInference] at the return. *)
Definition record_failed_Embed (s : InferenceStats) (batch latency : Z)
    : InferenceStats :=
  RecordInference (RecordError s) batch latency.

(** The same for successive calls, each with its batch size and its
    latency. *)
Definition record_failed_Embeds (s : InferenceStats) (calls : list (Z * Z))
    : InferenceStats :=
  fold_left (fun s c => record_failed_Embed s (fst c) (snd c)) calls s.

Definition RecordInferences (s : InferenceStats) (calls : list (Z * Z))
    : InferenceStats :=
  fold_left (fun s c => RecordInference s (fst c) (snd c)) calls s.

(** The text has at most [n] ids. *)
Definition fits_in (t : Tokenizer) (n : Z) (text : string) : bool :=
  match EncodeSingle t text with
  | Ok ids => Z.of_nat (length ids) <=? n
  | _ => false
  end.

(** A tokenizer with one id per byte of the text. *)
Definition demo_tokenizer : Tokenizer :=
  {| tk_maxLength := 4;
     EncodeSingle := fun text => Ok (repeat 7 (String.length text)) |}.

(** *** Definitions for the amended claims *)

(** A [float32] that is a number: neither an infinity nor NaN. *)
Definition is_number (x : F32.t) : bool :=
  match x with
  | S754_zero _ | S754_finite _ _ _ => true
  | _ => false
  end.

(** The BLOB is a whole array of [float32] numbers. *)
Definition array_of_numbers (b : list byte) : bool :=
  (length b mod 4 =? 0)%nat && forallb is_number (decode_floats b).


(** The persistent memory after the archive of [msgs] under [c]: one
    call of [StoreHistory] per message, a failure being logged and passed
    over. *)
Fixpoint archive_all (m : MemoryPersist) (c : string) (msgs : list Message)
    : MemoryPersist :=
  match msgs with
  | [] => m
  | x :: msgs' =>
      archive_all (snd (StoreHistory m c (Role x) (Content x) (Timestamp x))) c msgs'
  end.

(** The row [r] is the message [x] archived under the channel id [c]. *)
Definition archived_as (c : string) (m : MemoryPersist) (r : Row) (x : Message) : Prop :=
  channel_id r = c /\ role r = Role x /\ content r = Content x /\
  timestamp r = Timestamp x /\
  exists v, embedder m (Content x) = Ok v /\ embedding r = floatsToBytes v.

(** C10 in the specification's words, for sessions [sm] the archive
    trims and the rows [stored] it adds: every message that is trimmed
    and is not a user message is stored under the channel and the chat of
    the inbound message, and not under the key of its own session. *)
Definition archived_as_claimed (msg : Inbound) (sm : SessionManager) (stored : list Row)
    : Prop :=
  forall k s x,
    sessions sm !! k = Some s ->
    List.In x (List.filter not_user (fst (Trim s))) ->
    exists r,
      List.In r stored /\ role r = Role x /\ content r = Content x /\
      timestamp r = Timestamp x /\
      channel_id r = in_Channel msg +:+ in_ChatID msg /\ channel_id r <> k.

(** A message of the chat ":7" on ntfy. *)
Definition demo_colon : Inbound :=
  {| in_Channel := "ntfy"; in_SenderID := "u1"; in_ChatID := ":7";
     in_Content := "hello" |}.

(** The text the loop keeps of the outcome of a tool; a panic leaves
    none. *)
Definition result_text (r : outcome string) : option string :=
  match r with
  | Ok res => Some res
  | Err e => Some ("(tool error) " +:+ e)
  | Panic _ => None
  end.

(** The texts of the calls, each tool run on the state the one before
    left, and the state after the last; [None] when a tool panics. *)
Fixpoint tool_results {X} (reg : Registry X) (calls : list ToolCall) (o : Outside X)
    : option (list string * Outside X) :=
  match calls with
  | [] => Some ([], o)
  | tx :: calls' =>
      let '(r, o') := Execute reg (tc_Name tx) (tc_Arguments tx) o in
      match result_text r with
      | Some res =>
          match tool_results reg calls' o' with
          | Some (results, o'') => Some (res :: results, o'')
          | None => None
          end
      | None => None
      end
  end.

(* ===================================================================== *)
(** * Part II: theorems                                                   *)
(* ===================================================================== *)

(** ** Persistent memory: the scalar functions *)

Section Cosine.

Lemma decode_floats_length (n : nat) :
  forall b : list byte, length b = (4 * n)%nat -> length (decode_floats b) = n.
Proof.
  induction n as [|n IH]; intros b Hb.
  - destruct b; [reflexivity | discriminate].
  - destruct b as [|b0 [|b1 [|b2 [|b3 rest]]]]; simpl in Hb; try lia.
    simpl. f_equal. apply IH. lia.
Qed.

Lemma decode_floats_zeros (k : nat) :
  decode_floats (repeat x00 (4 * k)) = repeat F32.zero k.
Proof.
  induction k as [|k IH]; [reflexivity|].
  replace (4 * S k)%nat with (S (S (S (S (4 * k))))) by lia.
  simpl repeat. simpl decode_floats. f_equal. exact IH.
Qed.

Lemma decode_floats_app (n : nat) :
  forall b c : list byte,
    length b = (4 * n)%nat ->
    decode_floats (b ++ c) = decode_floats b ++ decode_floats c.
Proof.
  induction n as [|n IH]; intros b c Hb.
  - destruct b; [reflexivity | discriminate].
  - destruct b as [|b0 [|b1 [|b2 [|b3 rest]]]]; simpl in Hb; try lia.
    simpl. f_equal. apply IH. lia.
Qed.

Lemma mod4_length (b : list byte) :
  (length b mod 4 = 0)%nat -> exists n, length b = (4 * n)%nat.
Proof.
  intros H. exists (length b / 4)%nat.
  pose proof (Nat.div_mod_eq (length b) 4). lia.
Qed.

(** Padding the bytes with zeros is padding the vector with [+0]. *)
Lemma decode_floats_pad (p q : nat) (b : list byte) :
  length b = (4 * p)%nat ->
  decode_floats (pad_bytes b (4 * q)) = zero_pad q (decode_floats b).
Proof.
  intros Hb. unfold pad_bytes, zero_pad.
  rewrite (decode_floats_app p) by exact Hb.
  rewrite (decode_floats_length p) by exact Hb.
  rewrite Hb. replace (4 * q - 4 * p)%nat with (4 * (q - p))%nat by lia.
  now rewrite decode_floats_zeros.
Qed.

Lemma dot_loop_fold (u : list F32.t) :
  forall (v : list F32.t) (acc : F64.t),
    length u = length v ->
    dot_loop u v acc =
    Ok (fold_left
          (fun acc p => F64.add acc (F64.of_f32 (F32.mul (fst p) (snd p))))
          (combine u v) acc).
Proof.
  induction u as [|x u IH]; intros v acc Hlen.
  - reflexivity.
  - destruct v as [|y v]; [discriminate|].
    simpl in Hlen. simpl. apply IH. lia.
Qed.

Lemma dot_loop_dot_product (u v : list F32.t) :
  length u = length v -> dot_loop u v F64.zero = Ok (dot_product u v).
Proof. intros H. now rewrite dot_loop_fold. Qed.

Lemma zero_pad_length (n : nat) (v : list F32.t) :
  (length v <= n)%nat -> length (zero_pad n v) = n.
Proof.
  intros H. unfold zero_pad. rewrite length_app, repeat_length. lia.
Qed.

Lemma zero_pad_id (v : list F32.t) : zero_pad (length v) v = v.
Proof.
  unfold zero_pad. rewrite Nat.sub_diag. simpl. apply app_nil_r.
Qed.

Lemma pad_bytes_length (n : nat) (b : list byte) :
  (length b <= n)%nat -> length (pad_bytes b n) = n.
Proof.
  intros H. unfold pad_bytes. rewrite length_app, repeat_length. lia.
Qed.

Lemma bytesToFloats_mod4 (n : nat) (b : list byte) :
  length b = (4 * n)%nat -> bytesToFloats b = Some (decode_floats b).
Proof.
  intros H. unfold bytesToFloats. rewrite H.
  replace (4 * n)%nat with (n * 4)%nat by lia.
  now rewrite Nat.Div0.mod_mul.
Qed.

(** What both scalar functions compute once the two lengths are
    multiples of four and at least one BLOB is not empty. *)
Lemma dot_of_padded (p q : nat) (a b : list byte) :
  length a = (4 * p)%nat -> length b = (4 * q)%nat ->
  let n := Nat.max p q in
  let a' := if negb (length a =? length b)%nat
            then pad_bytes a (Nat.max (length a) (length b)) else a in
  let b' := if negb (length a =? length b)%nat
            then pad_bytes b (Nat.max (length a) (length b)) else b in
  length a' = (4 * n)%nat /\ length b' = (4 * n)%nat /\
  decode_floats a' = zero_pad n (decode_floats a) /\
  decode_floats b' = zero_pad n (decode_floats b).
Proof.
  intros Ha Hb n a' b'. subst n a' b'.
  destruct (length a =? length b)%nat eqn:E; simpl.
  - apply Nat.eqb_eq in E.
    assert (p = q) by lia. subst q. rewrite Nat.max_id.
    repeat split; try assumption.
    + rewrite <- (decode_floats_length p a Ha) at 1. now rewrite zero_pad_id.
    + rewrite <- (decode_floats_length p b Hb) at 1. now rewrite zero_pad_id.
  - rewrite Ha, Hb.
    replace (Nat.max (4 * p) (4 * q)) with (4 * Nat.max p q)%nat by lia.
    repeat split.
    + apply pad_bytes_length. lia.
    + apply pad_bytes_length. lia.
    + now apply (decode_floats_pad p).
    + now apply (decode_floats_pad q).
Qed.

End Cosine.

Section CosineContract.

Lemma mod4_eqb (n : nat) : ((4 * n) mod 4 =? 0)%nat = true.
Proof.
  replace (4 * n)%nat with (n * 4)%nat by lia.
  now rewrite Nat.Div0.mod_mul.
Qed.

(** The part of both functions after the padding, on two BLOBs of the
    same length [4 * n]. *)
Lemma dot_after_padding (n : nat) (a' b' : list byte) :
  length a' = (4 * n)%nat -> length b' = (4 * n)%nat ->
  (n = 0%nat /\ dot_product (decode_floats a') (decode_floats b') = F64.zero) \/
  (n <> 0%nat /\
   bytesToFloats a' = Some (decode_floats a') /\
   bytesToFloats b' = Some (decode_floats b') /\
   dot_loop (decode_floats a') (decode_floats b') F64.zero =
   Ok (dot_product (decode_floats a') (decode_floats b'))).
Proof.
  intros Ha Hb. destruct n as [|n].
  - left. split; [reflexivity|].
    destruct a'; [|discriminate]. reflexivity.
  - right. split; [discriminate|].
    rewrite (bytesToFloats_mod4 (S n)), (bytesToFloats_mod4 (S n)) by assumption.
    repeat split. apply dot_loop_dot_product.
    now rewrite !(decode_floats_length (S n)).
Qed.

Lemma similarity_of_blobs (p q : nat) (a b : list byte) :
  length a = (4 * p)%nat -> length b = (4 * q)%nat ->
  cosineSimilarityScalar [VBlob a; VBlob b] =
  Ok (VFloat (dot_product (zero_pad (Nat.max p q) (decode_floats a))
                (zero_pad (Nat.max p q) (decode_floats b)))).
Proof.
  intros Ha Hb.
  destruct (dot_of_padded p q a b Ha Hb) as (La & Lb & Da & Db).
  assert (Ma : (length a mod 4 =? 0)%nat = true) by (rewrite Ha; apply mod4_eqb).
  assert (Mb : (length b mod 4 =? 0)%nat = true) by (rewrite Hb; apply mod4_eqb).
  unfold cosineSimilarityScalar.
  rewrite Ma, Mb. simpl orb. cbv iota.
  destruct (negb (length a =? length b)%nat);
    cbv zeta beta iota in *; rewrite La, Lb, <- Da, <- Db;
    destruct (dot_after_padding _ _ _ La Lb) as [[Hn Hd]|(Hn & Ba & Bb & Hd)].
  all: try (rewrite Hn; simpl; now rewrite Hd).
  all: rewrite Nat.eqb_refl; simpl negb; cbv iota;
    replace ((4 * Nat.max p q =? 0)%nat) with false
      by (symmetry; apply Nat.eqb_neq; lia);
    simpl orb; cbv iota; now rewrite Ba, Bb, Hd.
Qed.

Lemma distance_of_blobs (p q : nat) (a b : list byte) :
  length a = (4 * p)%nat -> length b = (4 * q)%nat ->
  p <> 0%nat -> q <> 0%nat ->
  cosineDistanceScalar [VBlob a; VBlob b] =
  Ok (VFloat (F64.sub F64.one
                (dot_product (zero_pad (Nat.max p q) (decode_floats a))
                   (zero_pad (Nat.max p q) (decode_floats b))))).
Proof.
  intros Ha Hb Hp Hq.
  destruct (dot_of_padded p q a b Ha Hb) as (La & Lb & Da & Db).
  assert (Ma : (length a mod 4 =? 0)%nat = true) by (rewrite Ha; apply mod4_eqb).
  assert (Mb : (length b mod 4 =? 0)%nat = true) by (rewrite Hb; apply mod4_eqb).
  assert (Za : (length a =? 0)%nat = false) by (apply Nat.eqb_neq; lia).
  assert (Zb : (length b =? 0)%nat = false) by (apply Nat.eqb_neq; lia).
  unfold cosineDistanceScalar.
  rewrite Za, Zb, Ma, Mb. simpl orb. cbv iota.
  destruct (negb (length a =? length b)%nat);
    cbv zeta beta iota in *; rewrite La, Lb, <- Da, <- Db;
    destruct (dot_after_padding _ _ _ La Lb) as [[Hn Hd]|(Hn & Ba & Bb & Hd)];
    try lia.
  all: rewrite Nat.eqb_refl; simpl negb; cbv iota;
    replace ((4 * Nat.max p q =? 0)%nat) with false
      by (symmetry; apply Nat.eqb_neq; lia);
    simpl orb; cbv iota; now rewrite Ba, Bb, Hd.
Qed.

(** C5. On two BLOBs whose byte lengths are multiples of four,
    [cosine_similarity] does not fail, whatever the two lengths are:
    both BLOBs decode to little-endian [float32] arrays [u] and [v], the
    shorter one is extended with zeros to the longer length, and the
    result is the dot product of the two arrays.  When the lengths are
    equal nothing is padded and the result is the dot product of [u]
    and [v], which is the cosine of two unit vectors. *)
Theorem cosine_similarity_zero_pads (a b : list byte) :
  (length a mod 4 = 0)%nat -> (length b mod 4 = 0)%nat ->
  exists u v : list F32.t,
    bytesToFloats a = Some u /\ bytesToFloats b = Some v /\
    cosineSimilarityScalar [VBlob a; VBlob b] =
      Ok (VFloat (dot_product
                    (zero_pad (Nat.max (length u) (length v)) u)
                    (zero_pad (Nat.max (length u) (length v)) v))) /\
    (length a = length b ->
     cosineSimilarityScalar [VBlob a; VBlob b] = Ok (VFloat (dot_product u v))).
Proof.
  intros Ha Hb.
  destruct (mod4_length a Ha) as [p Hp], (mod4_length b Hb) as [q Hq].
  exists (decode_floats a), (decode_floats b).
  rewrite (bytesToFloats_mod4 p a Hp), (bytesToFloats_mod4 q b Hq).
  rewrite (decode_floats_length p a Hp), (decode_floats_length q b Hq).
  repeat split.
  - now apply similarity_of_blobs.
  - intros Hlen. assert (p = q) by lia. subst q.
    rewrite (similarity_of_blobs p p a b Hp Hq), Nat.max_id.
    pose proof (decode_floats_length p a Hp) as La.
    pose proof (decode_floats_length p b Hq) as Lb.
    rewrite <- La at 1. rewrite zero_pad_id.
    rewrite <- Lb at 1. now rewrite zero_pad_id.
Qed.

Lemma cosine_similarity_zero_pads_witness :
  exists u v : list F32.t,
    bytesToFloats [x00; x00; x80; x3f] = Some u /\
    bytesToFloats [x00; x00; x00; x40; x00; x00; x80; x3f] = Some v /\
    cosineSimilarityScalar
      [VBlob [x00; x00; x80; x3f];
       VBlob [x00; x00; x00; x40; x00; x00; x80; x3f]] =
      Ok (VFloat (dot_product
                    (zero_pad (Nat.max (length u) (length v)) u)
                    (zero_pad (Nat.max (length u) (length v)) v))) /\
    (length [x00; x00; x80; x3f] =
     length [x00; x00; x00; x40; x00; x00; x80; x3f] ->
     cosineSimilarityScalar
       [VBlob [x00; x00; x80; x3f];
        VBlob [x00; x00; x00; x40; x00; x00; x80; x3f]] =
     Ok (VFloat (dot_product u v))).
Proof.
  apply (cosine_similarity_zero_pads
           [x00; x00; x80; x3f]
           [x00; x00; x00; x40; x00; x00; x80; x3f]); reflexivity.
Defined.

(** The vector [(1)] against [(2, 1)]: padded to [(1, 0)], the result is
    [1*2 + 0*1 = 2]. *)
Example cosine_similarity_padded_value :
  cosineSimilarityScalar
    [VBlob [x00; x00; x80; x3f];
     VBlob [x00; x00; x00; x40; x00; x00; x80; x3f]] =
  Ok (VFloat (F64.of_Z 2)).
Proof. vm_compute. reflexivity. Qed.

(** C6, as stated, fails: with an empty first BLOB and a one-byte second
    BLOB [cosine_distance] answers [1.0] from its first guard while
    [cosine_similarity] rejects the length. *)
Lemma cosine_distance_disagrees_on_empty :
  ~ distance_agrees
      (cosineDistanceScalar [VBlob []; VBlob [x00]])
      (cosineSimilarityScalar [VBlob []; VBlob [x00]]).
Proof. vm_compute. exact (fun H => H). Qed.

(** The values differ too: against the empty BLOB, [+Inf] has similarity
    [0 * Inf = NaN] and distance [1.0]. *)
Example cosine_distance_disagrees_on_infinity :
  cosineSimilarityScalar [VBlob []; VBlob [x00; x00; x80; x7f]] =
    Ok (VFloat S754_nan) /\
  cosineDistanceScalar [VBlob []; VBlob [x00; x00; x80; x7f]] =
    Ok (VFloat F64.one).
Proof. split; vm_compute; reflexivity. Qed.

(** With an empty argument [cosine_distance] is [1.0], without looking
    at the other argument. *)
Lemma cosine_distance_empty (a b : list byte) :
  a = [] \/ b = [] ->
  cosineDistanceScalar [VBlob a; VBlob b] = Ok (VFloat F64.one).
Proof.
  intros [-> | ->]; unfold cosineDistanceScalar; simpl length.
  - reflexivity.
  - now rewrite orb_true_r.
Qed.

End CosineContract.

(** ** The embedder *)

Section Embedder.




(** A single vector is returned as it is. *)
Lemma averageEmbeddings_single (e : list F32.t) :
  averageEmbeddings [e] = (e, []).
Proof. reflexivity. Qed.

(** *** The loops of [Embed] end *)

Lemma fields_scan_length (s : list ascii) :
  forall (skip : nat) (cur : list ascii) (acc : list string),
    (length (fields_scan s skip cur acc) <=
     length acc + length s + match cur with [] => 0 | _ => 1 end)%nat.
Proof.
  induction s as [|c s IH]; intros skip cur acc.
  - simpl. destruct cur; [lia|]. rewrite length_app. simpl. lia.
  - cbn [fields_scan]. destruct skip as [|k].
    + destruct (space_rune_size (c :: s)) as [n|].
      * etransitivity; [apply IH|]. destruct cur; [simpl; lia|].
        rewrite length_app. simpl. lia.
      * etransitivity; [apply IH|]. simpl. destruct cur; lia.
    + etransitivity; [apply IH|]. simpl. lia.
Qed.

Lemma list_ascii_of_string_length (s : string) :
  length (list_ascii_of_string s) = String.length s.
Proof. induction s as [|c s IH]; simpl; [reflexivity | now rewrite IH]. Qed.

(** [strings.Fields] gives at most one word per byte of the text. *)
Lemma Fields_length (text : string) :
  (length (Fields text) <= String.length text)%nat.
Proof.
  unfold Fields. etransitivity; [apply fields_scan_length|].
  rewrite list_ascii_of_string_length. simpl. lia.
Qed.

(** With a positive step the loop of [splitIntoChunks] ends without a
    panic, after at most one iteration per word that is left, and adds at
    most one chunk per word. *)
Lemma splitIntoChunks_loop_returns (words : list string) (maxWords : Z) (fuel : nat) :
  0 < maxWords ->
  forall (i : Z) (chunks : list string),
    0 <= i ->
    Z.max 0 (Z.of_nat (length words) - i) < Z.of_nat fuel ->
    exists cs,
      splitIntoChunks_loop fuel words i maxWords chunks = Some (Ok (chunks ++ cs)) /\
      Z.of_nat (length cs) <= Z.max 0 (Z.of_nat (length words) - i).
Proof.
  intros Hmax. induction fuel as [|fuel IH]; intros i chunks Hi Hfuel.
  - lia.
  - cbn [splitIntoChunks_loop].
    destruct (Z.ltb_spec i (Z.of_nat (length words))) as [Hlt|Hge].
    + assert (Hend : ((if i + maxWords >? Z.of_nat (length words)
                       then Z.of_nat (length words) else i + maxWords) <? i) = false).
      { apply Z.ltb_ge. destruct (Z.gtb_spec (i + maxWords) (Z.of_nat (length words))); lia. }
      rewrite Hend.
      destruct (IH (i + maxWords)
                  (chunks ++
                   [Join (slice words i
                            (if i + maxWords >? Z.of_nat (length words)
                             then Z.of_nat (length words) else i + maxWords)) " "]))
        as (cs & Hcs & Hlen); [lia | lia |].
      eexists (_ :: cs). split.
      * rewrite Hcs. now rewrite <- app_assoc.
      * simpl length. lia.
    + exists []. split; [now rewrite app_nil_r | simpl; lia].
Qed.

(** With a positive batch size the loop of [EmbedBatch] ends. *)
Lemma EmbedBatch_loop_returns (e : ONNXEmbeddingEngine) (content : list string)
    (batchSize : Z) (fuel : nat) :
  0 < batchSize ->
  forall (i : Z) (allEmbeddings : list (list F32.t)),
    Z.max 0 (Z.of_nat (length content) - i) < Z.of_nat fuel ->
    exists r, EmbedBatch_loop fuel e content i batchSize allEmbeddings = Some r.
Proof.
  intros Hb. induction fuel as [|fuel IH]; intros i allEmbeddings Hfuel.
  - lia.
  - cbn [EmbedBatch_loop].
    destruct (Z.ltb_spec i (Z.of_nat (length content))) as [Hlt|Hge].
    + destruct (engine_Embed e _) as [embeddings|err|err].
      * apply IH. lia.
      * eexists. reflexivity.
      * eexists. reflexivity.
    + eexists. reflexivity.
Qed.

(** [Embed] returns: with a positive number of words per chunk, the
    fuel of the model, one above the length of the text, is enough for
    both loops. *)
Lemma Embed_returns (e : ONNXEmbedder) (text : string) :
  0 < chunkMaxWords e ->
  exists r warnings, Embed e text = Some (r, warnings).
Proof.
  intros Hmax. unfold Embed, splitIntoChunks.
  pose proof (Fields_length text) as HF.
  destruct (splitIntoChunks_loop_returns (Fields text) (chunkMaxWords e)
              (S (String.length text)) Hmax 0 []) as (cs & -> & Hcs); [lia | lia |].
  cbn [app].
  unfold EmbedBatch. cbn [Z.leb Z.compare].
  destruct (EmbedBatch_loop_returns (engine e) cs
              (if BatchSize (engine e) <=? 0 then 32 else BatchSize (engine e))
              (S (String.length text))) with (i := 0) (allEmbeddings := @nil (list F32.t))
    as (r & ->).
  - destruct (Z.leb_spec (BatchSize (engine e)) 0); lia.
  - lia.
  - destruct r as [vec|err|err]; [|eexists _, _; reflexivity..].
    destruct vec as [|[|x v0] vec]; [eexists _, _; reflexivity..|].
    destruct (averageEmbeddings _) as [averaged warnings].
    eexists _, _; reflexivity.
Qed.

(** The embedder [NewONNXEmbedder] makes never runs out of fuel. *)
Corollary NewONNXEmbedder_Embed_returns (eng : ONNXEmbeddingEngine) (text : string) :
  exists r warnings,
    Embed (NewONNXEmbedder eng) text = Some (r, warnings) /\
    ONNXEmbedder_Embed (NewONNXEmbedder eng) text = r.
Proof.
  destruct (Embed_returns (NewONNXEmbedder eng) text) as (r & warnings & H);
    [reflexivity|].
  exists r, warnings. split; [exact H|].
  unfold ONNXEmbedder_Embed. now rewrite H.
Qed.

(** Outside the precondition of [averageEmbeddings] (all embeddings
    have the same dimension), which the engine never leaves: of the three
    vectors [(1,1)], [(5)] and [(3,3)] the second is skipped with a
    warning, and the sum [(4,4)] of the other two is divided by three. *)
Example averageEmbeddings_outside_precondition :
  averageEmbeddings
    [[F32.of_Z 1; F32.of_Z 1]; [F32.of_Z 5]; [F32.of_Z 3; F32.of_Z 3]] =
    ([F32.div (F32.of_Z 4) (F32.of_Z 3); F32.div (F32.of_Z 4) (F32.of_Z 3)],
     ["warning: embedding dimension mismatch"%string]).
Proof. vm_compute. reflexivity. Qed.

End Embedder.

(** ** Sessions *)

Section Sessions.

Lemma Trim_app (s : Session) :
  fst (Trim s) ++ History (snd (Trim s)) = History s.
Proof.
  unfold Trim. destruct (MaxHistorySize <? length (History s))%nat; simpl.
  - apply firstn_skipn.
  - reflexivity.
Qed.

Lemma Trim_short (s : Session) :
  (length (History s) <= MaxHistorySize)%nat -> Trim s = ([], s).
Proof.
  intros H. unfold Trim.
  destruct (MaxHistorySize <? length (History s))%nat eqn:E; [|reflexivity].
  apply Nat.ltb_lt in E. lia.
Qed.

Lemma Trim_bound (s : Session) :
  (length (History (snd (Trim s))) <= MaxHistorySize)%nat.
Proof.
  unfold Trim. destruct (MaxHistorySize <? length (History s))%nat eqn:E; simpl.
  - apply Nat.ltb_lt in E. rewrite length_skipn. lia.
  - apply Nat.ltb_ge in E. exact E.
Qed.

Lemma Trim_long (s : Session) :
  (MaxHistorySize < length (History s))%nat ->
  length (History (snd (Trim s))) = MaxHistorySize /\
  length (fst (Trim s)) = (length (History s) - MaxHistorySize)%nat.
Proof.
  intros H. unfold Trim.
  destruct (MaxHistorySize <? length (History s))%nat eqn:E; simpl.
  - rewrite length_skipn, length_firstn. lia.
  - apply Nat.ltb_ge in E. lia.
Qed.

Lemma Trim_Key (s : Session) : Key (snd (Trim s)) = Key s.
Proof.
  unfold Trim. now destruct (MaxHistorySize <? length (History s))%nat.
Qed.

Lemma Trim_idempotent (s : Session) : Trim (snd (Trim s)) = ([], snd (Trim s)).
Proof. apply Trim_short, Trim_bound. Qed.

(** C2. [Trim] returns the prefix it removes: the prefix followed by
    the history that remains is the history before the call, and the
    prefix is empty when the history had at most 50 messages.  [Save]
    trims before it writes, so after [Save] the session holds at most
    50 messages, and so does the file when it is written. *)
Theorem Trim_splits_and_Save_bounds
    (sm : SessionManager) (fs : FS) (key : string) (s : Session) :
  sessions sm !! key = Some s ->
  fst (Trim s) ++ History (snd (Trim s)) = History s /\
  ((length (History s) <= 50)%nat -> fst (Trim s) = []) /\
  exists (r : outcome unit) (sm' : SessionManager) (fs' : FS) (s' : Session),
    Save sm fs key = (r, sm', fs') /\
    sessions sm' !! key = Some s' /\
    s' = snd (Trim s) /\
    (length (History s') <= 50)%nat /\
    (r = Ok tt ->
     session_files fs' !! filepath_Join (filepath_Join (workspace sm) "sessions")
                            (Key s +:+ ".json") = Some s').
Proof.
  intros Hs. split; [apply Trim_app|]. split.
  - intros Hlen. now rewrite Trim_short.
  - unfold Save. rewrite Hs. rewrite Trim_Key.
    unfold WriteSessionFile.
    destruct (denied fs _) eqn:Hd.
    + eexists _, _, _, _. split; [reflexivity|].
      simpl. rewrite lookup_insert_eq.
      repeat split; try apply Trim_bound. intros H. discriminate H.
    + eexists _, _, _, _. split; [reflexivity|].
      simpl. rewrite !lookup_insert_eq.
      repeat split. apply Trim_bound.
Qed.

Lemma trimmed_prefixes_insert (order : list string) (ss : gmap string Session)
    (k0 : string) (s' : Session) :
  k0 ∉ order ->
  trimmed_prefixes order (<[k0:=s']> ss) = trimmed_prefixes order ss.
Proof.
  intros Hk0. unfold trimmed_prefixes. f_equal. apply map_ext_in. intros k Hk.
  rewrite lookup_insert_ne; [reflexivity|].
  intros ->. apply Hk0. now apply list_elem_of_In.
Qed.

Lemma TrimAll_loop_spec (order : list string) :
  forall (ss : gmap string Session) (acc : list Message),
    NoDup order ->
    fst (TrimAll_loop order ss acc) = acc ++ trimmed_prefixes order ss /\
    forall k,
      snd (TrimAll_loop order ss acc) !! k =
      if bool_decide (k ∈ order)
      then (fun s => snd (Trim s)) <$> ss !! k
      else ss !! k.
Proof.
  induction order as [|k0 order IH]; intros ss acc Hnd.
  - cbn [TrimAll_loop fst snd]. unfold trimmed_prefixes. cbn [map concat].
    rewrite app_nil_r. split; [reflexivity|].
    intros k. case_bool_decide as Hd; [|reflexivity]. now apply not_elem_of_nil in Hd.
  - apply NoDup_cons in Hnd as [Hk0 Hnd].
    cbn [TrimAll_loop].
    assert (Hpre : trimmed_prefixes (k0 :: order) ss =
                   match ss !! k0 with Some s => fst (Trim s) | None => [] end ++
                   trimmed_prefixes order ss) by reflexivity.
    rewrite Hpre. clear Hpre.
    destruct (ss !! k0) as [s|] eqn:E.
    + destruct (Trim s) as [trimmed s'] eqn:ET.
      destruct (IH (<[k0:=s']> ss)
                  (if (0 <? length trimmed)%nat then acc ++ trimmed else acc) Hnd)
        as [H1 H2].
      split.
      * rewrite H1, trimmed_prefixes_insert by exact Hk0. cbn [fst].
        destruct trimmed; cbn [length Nat.ltb Nat.leb];
          [reflexivity | now rewrite <- app_assoc].
      * intros k. rewrite H2.
        destruct (decide (k = k0)) as [->|Hne].
        -- rewrite lookup_insert_eq, E.
           repeat case_bool_decide; try reflexivity.
           all: try contradiction.
           all: try (cbn; rewrite ?ET; reflexivity).
           all: try (exfalso; match goal with H : _ ∉ _ :: _ |- _ =>
                                apply H; apply list_elem_of_here end).
        -- rewrite lookup_insert_ne by congruence.
           repeat case_bool_decide; try reflexivity.
           all: exfalso; rewrite elem_of_cons in *; tauto.
    + destruct (IH ss acc Hnd) as [H1 H2]. split; [exact H1|].
      intros k. rewrite H2.
      destruct (decide (k = k0)) as [->|Hne].
      * rewrite E. repeat case_bool_decide; reflexivity.
      * repeat case_bool_decide; try reflexivity.
        all: exfalso; rewrite elem_of_cons in *; tauto.
Qed.

(** [TrimAll] returns the removed prefixes of all the sessions, and leaves
    every session trimmed: for each session the prefix returned, followed
    by the history that remains, is the history before the call. *)
Lemma TrimAll_spec (order : list string) (sm : SessionManager) :
  iteration_order order sm ->
  fst (TrimAll order sm) = trimmed_prefixes order (sessions sm) /\
  forall k s,
    sessions sm !! k = Some s ->
    sessions (snd (TrimAll order sm)) !! k = Some (snd (Trim s)) /\
    fst (Trim s) ++ History (snd (Trim s)) = History s /\
    (length (History (snd (Trim s))) <= MaxHistorySize)%nat.
Proof.
  intros [Hnd Hdom]. unfold TrimAll.
  destruct (TrimAll_loop_spec order (sessions sm) [] Hnd) as [H1 H2].
  destruct (TrimAll_loop order (sessions sm) []) as [tm ss'] eqn:E.
  simpl in *. split; [exact H1|].
  intros k s Hs. rewrite H2, Hs.
  rewrite bool_decide_eq_true_2 by (apply Hdom; now exists s).
  repeat split; [apply Trim_app | apply Trim_bound].
Qed.

End Sessions.

(** ** The transport proxy *)

Section Proxy.

Lemma try_send_buf {A} (ch : chan A) (v : A) :
  buf (fst (try_send ch v)) = buf ch ++ (if snd (try_send ch v) then [v] else []).
Proof.
  unfold try_send. destruct (length (buf ch) <? cap ch)%nat; simpl.
  - reflexivity.
  - now rewrite app_nil_r.
Qed.

(** One message: the queues other than the one its channel names are
    left as they were, and so is everything when the channel is
    unknown. *)
Lemma proxy_dispatch_spec (hub : Hub) (msg : Outbound) :
  let hub' := fst (proxy_dispatch hub msg) in
  let ev := snd (proxy_dispatch hub msg) in
  event_msg ev = msg /\
  routed_by_channel ev /\
  In hub' = In hub /\ Out hub' = Out hub /\
  buf (TelegramOut hub') = buf (TelegramOut hub) ++ forwarded_to "telegram" [ev] /\
  buf (NtfyOut hub') = buf (NtfyOut hub) ++ forwarded_to "ntfy" [ev] /\
  (out_Channel msg <> "telegram"%string -> TelegramOut hub' = TelegramOut hub) /\
  (out_Channel msg <> "ntfy"%string -> NtfyOut hub' = NtfyOut hub) /\
  (out_Channel msg <> "telegram"%string -> out_Channel msg <> "ntfy"%string ->
   hub' = hub /\ ev = UnknownChannel msg).
Proof.
  unfold proxy_dispatch.
  destruct (String.eqb_spec (out_Channel msg) "telegram") as [Ht|Ht].
  - pose proof (try_send_buf (TelegramOut hub) msg) as Hb.
    destruct (try_send (TelegramOut hub) msg) as [c sent].
    destruct sent; simpl in *; rewrite ?app_nil_r;
      repeat split; auto; try congruence.
    all: try (intros; congruence).
  - destruct (String.eqb_spec (out_Channel msg) "ntfy") as [Hn|Hn].
    + pose proof (try_send_buf (NtfyOut hub) msg) as Hb.
      destruct (try_send (NtfyOut hub) msg) as [c sent].
      destruct sent; simpl in *; rewrite ?app_nil_r;
        repeat split; auto; try congruence.
      all: try (intros; congruence).
    + simpl. rewrite ?app_nil_r. repeat split; auto.
Qed.

Lemma forwarded_to_app (q : string) (l1 l2 : list ProxyEvent) :
  forwarded_to q (l1 ++ l2) = forwarded_to q l1 ++ forwarded_to q l2.
Proof. unfold forwarded_to. apply flat_map_app. Qed.

Lemma proxy_run_log (n : nat) :
  forall (hub : Hub) (log : list ProxyEvent),
    proxy_run n hub log =
    (fst (proxy_run n hub []), log ++ snd (proxy_run n hub [])).
Proof.
  induction n as [|n IH]; intros hub log; simpl.
  - now rewrite app_nil_r.
  - destruct (proxy_step hub) as [[hub' ev]|]; simpl.
    + rewrite (IH hub' (log ++ [ev])), (IH hub' [ev]). simpl.
      now rewrite <- app_assoc.
    + now rewrite app_nil_r.
Qed.

(** C9. Whatever the number of turns of the proxy and the state of the
    hub: the messages it took from [hub.Out] are the ones its log
    reports, in order; each is forwarded to, or dropped in front of, the
    queue its [channel] field names and no other; the per-transport
    queues grow by exactly the messages reported as forwarded to them;
    and a message whose channel is neither "telegram" nor "ntfy" is
    reported as unknown and reaches no queue. *)
Theorem proxy_routes_by_channel (n : nat) (hub : Hub) :
  let hub' := fst (proxy_run n hub []) in
  let log := snd (proxy_run n hub []) in
  map event_msg log ++ buf (Out hub') = buf (Out hub) /\
  Forall routed_by_channel log /\
  buf (TelegramOut hub') = buf (TelegramOut hub) ++ forwarded_to "telegram" log /\
  buf (NtfyOut hub') = buf (NtfyOut hub) ++ forwarded_to "ntfy" log /\
  Forall (fun m => out_Channel m = "telegram"%string) (forwarded_to "telegram" log) /\
  Forall (fun m => out_Channel m = "ntfy"%string) (forwarded_to "ntfy" log) /\
  Forall (fun ev =>
            out_Channel (event_msg ev) <> "telegram"%string ->
            out_Channel (event_msg ev) <> "ntfy"%string ->
            ev = UnknownChannel (event_msg ev)) log /\
  In hub' = In hub.
Proof.
  revert hub. induction n as [|n IH]; intros hub; simpl.
  - rewrite !app_nil_r. repeat split; constructor.
  - unfold proxy_step, receive.
    destruct (buf (Out hub)) as [|msg rest] eqn:Hout; simpl.
    + rewrite Hout, !app_nil_r. repeat split; constructor.
    + set (hub0 := set_Out hub {| buf := rest; cap := cap (Out hub) |}).
      pose proof (proxy_dispatch_spec hub0 msg) as Hd. simpl in Hd.
      destruct (proxy_dispatch hub0 msg) as [hub1 ev]. simpl in Hd.
      destruct Hd as (Hm & Hr & HIn & HOut & HT & HN & _ & _ & Hu).
      rewrite (proxy_run_log n hub1 [ev]). cbn [fst snd].
      specialize (IH hub1). simpl in IH.
      destruct IH as (I1 & I2 & I3 & I4 & I5 & I6 & I7 & I8).
      rewrite !(forwarded_to_app _ [ev]).
      repeat split.
      * simpl. rewrite Hm. f_equal. rewrite I1, HOut. reflexivity.
      * simpl. constructor; assumption.
      * rewrite I3, HT. simpl. now rewrite <- app_assoc.
      * rewrite I4, HN. simpl. now rewrite <- app_assoc.
      * apply Forall_app. split; [|assumption].
        destruct ev as [q m|q m|m]; simpl; try constructor.
        destruct (String.eqb_spec q "telegram"); constructor; [|constructor].
        destruct Hr as [Hq _]. congruence.
      * apply Forall_app. split; [|assumption].
        destruct ev as [q m|q m|m]; simpl; try constructor.
        destruct (String.eqb_spec q "ntfy"); constructor; [|constructor].
        destruct Hr as [Hq _]. congruence.
      * simpl. constructor; [|assumption].
        intros H1 H2. rewrite Hm in *. now destruct (Hu H1 H2).
      * rewrite I8, HIn. reflexivity.
Qed.

End Proxy.

(** ** Persistent memory: [QueryHistory] *)

Section Query.

Lemma SFcompare_antisym (x y : spec_float) :
  SFcompare y x = option_map CompOpp (SFcompare x y).
Proof.
  destruct x as [sx|sx| |sx mx ex], y as [sy|sy| |sy my ey];
    try reflexivity; try (now destruct sx); try (now destruct sy);
    try (now destruct sx, sy).
  simpl. destruct sx, sy; try reflexivity; f_equal;
    rewrite (Z.compare_antisym ey ex);
    destruct (ey ?= ex) eqn:E; simpl; try reflexivity;
    rewrite (Pos.compare_cont_antisym mx my Eq); simpl;
    now destruct (Pos.compare_cont Eq mx my).
Qed.

(** Two numbers that are not NaN are comparable. *)
Lemma leb_total (x y : F64.t) :
  F64.is_nan x = false -> F64.is_nan y = false ->
  F64.leb x y = false -> F64.leb y x = true.
Proof.
  unfold F64.leb, SFleb. intros Hx Hy. rewrite (SFcompare_antisym x y).
  destruct (SFcompare x y) as [[| |]|] eqn:E; simpl; try discriminate; try reflexivity.
  destruct x, y; simpl in *; try discriminate;
    repeat match goal with b : bool |- _ => destruct b end; discriminate.
Qed.

Lemma leb_not_nan (x y : F64.t) : F64.leb x y = true -> F64.is_nan y = false.
Proof.
  unfold F64.leb, SFleb.
  destruct x, y; simpl; try reflexivity; discriminate.
Qed.

Lemma where_rows_passes (st : SelectStmt) (rs : list Row) :
  forall l, where_rows st rs = Ok l -> Forall (passes st rs) l.
Proof.
  induction rs as [|r rs IH]; intros l Hl; simpl in Hl.
  - injection Hl as <-. constructor.
  - assert (Hmono : forall l', Forall (passes st rs) l' -> Forall (passes st (r :: rs)) l').
    { intros l'. apply List.Forall_impl. intros p (H1 & H2 & H3 & H4).
      repeat split; auto. now right. }
    destruct (match sel_channel st with
              | Some c => String.eqb (channel_id r) c
              | None => true
              end) eqn:Hc.
    + destruct (similarity_column (sel_vector st) r) as [sim| |] eqn:Hsim;
        try discriminate.
      destruct (where_rows st rs) as [rest| |] eqn:Hrest; try discriminate.
      specialize (IH rest eq_refl).
      destruct sim as [x|]; [|injection Hl as <-; now apply Hmono].
      destruct (F64.leb (sel_threshold st) x) eqn:Hx;
        injection Hl as <-; [|now apply Hmono].
      constructor; [|now apply Hmono].
      repeat split; simpl; auto.
      destruct (sel_channel st); [|exact I].
      now apply String.eqb_eq.
    + apply Hmono. now apply IH.
Qed.

Lemma insert_desc_Forall (P : Row * F64.t -> Prop) (x : Row * F64.t) (l : list (Row * F64.t)) :
  P x -> Forall P l -> Forall P (insert_desc x l).
Proof.
  intros Hx. induction 1 as [|y l Hy Hl IH]; simpl.
  - repeat constructor. exact Hx.
  - destruct (F64.leb (snd x) (snd y)); repeat constructor; auto.
Qed.

Lemma order_by_Forall (P : Row * F64.t -> Prop) (l : list (Row * F64.t)) :
  Forall P l -> Forall P (order_by_similarity_desc l).
Proof.
  induction 1 as [|x l Hx Hl IH]; simpl; [constructor|].
  now apply insert_desc_Forall.
Qed.

Lemma order_by_length (l : list (Row * F64.t)) :
  length (order_by_similarity_desc l) = length l.
Proof.
  induction l as [|x l IH]; simpl; [reflexivity|]. rewrite <- IH.
  generalize (order_by_similarity_desc l). intros l'.
  induction l' as [|y l' IH']; simpl; [reflexivity|].
  destruct (F64.leb (snd x) (snd y)); simpl; [now rewrite IH'|reflexivity].
Qed.

Lemma insert_desc_HdRel (x a : Row * F64.t) (l : list (Row * F64.t)) :
  desc a x -> HdRel desc a l -> HdRel desc a (insert_desc x l).
Proof.
  intros Hax Hal. destruct l as [|y l]; simpl.
  - constructor. exact Hax.
  - destruct (F64.leb (snd x) (snd y)); constructor; auto.
    now inversion Hal.
Qed.

Lemma insert_desc_Sorted (x : Row * F64.t) (l : list (Row * F64.t)) :
  F64.is_nan (snd x) = false ->
  Forall (fun p => F64.is_nan (snd p) = false) l ->
  Sorted desc l -> Sorted desc (insert_desc x l).
Proof.
  intros Hx Hnan Hs. induction Hs as [|y l Hs IH Hhd]; simpl.
  - repeat constructor.
  - inversion Hnan as [|? ? Hy Hl]; subst.
    destruct (F64.leb (snd x) (snd y)) eqn:E.
    + constructor; [now apply IH|].
      apply insert_desc_HdRel; [exact E | exact Hhd].
    + constructor; [now constructor|].
      constructor. unfold desc. now apply leb_total.
Qed.

Lemma order_by_Sorted (l : list (Row * F64.t)) :
  Forall (fun p => F64.is_nan (snd p) = false) l ->
  Sorted desc (order_by_similarity_desc l).
Proof.
  induction 1 as [|x l Hx Hl IH]; simpl; [constructor|].
  apply insert_desc_Sorted; auto. now apply order_by_Forall.
Qed.

Lemma firstn_Sorted {A} (R : A -> A -> Prop) (n : nat) :
  forall l, Sorted R l -> Sorted R (firstn n l).
Proof.
  induction n as [|n IH]; intros l Hs; simpl; [constructor|].
  destruct Hs as [|x l Hs Hhd]; [constructor|].
  constructor; [now apply IH|].
  destruct Hhd as [|y l Hxy]; [destruct n; constructor|].
  destruct n; simpl; constructor. exact Hxy.
Qed.

Lemma limit_Sorted {A} (R : A -> A -> Prop) (n : Z) (l : list A) :
  Sorted R l -> Sorted R (limit n l).
Proof.
  intros Hs. unfold limit. destruct (n <? 0); [exact Hs|]. now apply firstn_Sorted.
Qed.

Lemma limit_Forall {A} (P : A -> Prop) (n : Z) (l : list A) :
  Forall P l -> Forall P (limit n l).
Proof.
  intros H. unfold limit. destruct (n <? 0); [exact H|].
  now apply Forall_take.
Qed.

Lemma limit_length {A} (n : Z) (l : list A) :
  0 <= n -> Z.of_nat (length (limit n l)) <= n.
Proof.
  intros Hn. unfold limit. destruct (n <? 0) eqn:E; [lia|].
  rewrite length_firstn. lia.
Qed.

Lemma Sorted_map_desc (l : list (Row * F64.t)) :
  Sorted desc l -> non_increasing (map Similarity (map scan_item l)).
Proof.
  unfold non_increasing.
  induction 1 as [|x l Hs IH Hhd]; simpl; [constructor|].
  constructor; [exact IH|].
  destruct Hhd as [|y l Hxy]; simpl; constructor. exact Hxy.
Qed.

(** What a successful [SELECT] returns. *)
Lemma run_select_spec (d : DB) (st : SelectStmt) (l : list (Row * F64.t)) :
  run_select d st = Ok l ->
  Forall (passes st (rows d)) l /\ Sorted desc l /\
  (0 <= sel_limit st -> Z.of_nat (length l) <= sel_limit st).
Proof.
  unfold run_select. destruct (broken d); [discriminate|].
  destruct (where_rows st (rows d)) as [l0| |] eqn:Hw; try discriminate.
  intros H. injection H as <-.
  pose proof (where_rows_passes st (rows d) l0 Hw) as Hp.
  split; [|split].
  - now apply limit_Forall, order_by_Forall.
  - apply limit_Sorted, order_by_Sorted.
    eapply List.Forall_impl; [|exact Hp]. intros p (_ & _ & Hle & _).
    eapply leb_not_nan. exact Hle.
  - apply limit_length.
Qed.

(** Without the clause on [channel_id] the statement does not read the
    column. *)
Lemma where_rows_relabel (g : Row -> string) (st : SelectStmt) (rs : list Row) :
  sel_channel st = None ->
  where_rows st (map (relabel_row g) rs) =
  match where_rows st rs with
  | Ok l => Ok (map (fun p => (relabel_row g (fst p), snd p)) l)
  | Err e => Err e
  | Panic e => Panic e
  end.
Proof.
  intros Hc. induction rs as [|r rs IH]; simpl; [reflexivity|].
  rewrite Hc in *. rewrite IH.
  change (similarity_column (sel_vector st) (relabel_row g r))
    with (similarity_column (sel_vector st) r).
  destruct (similarity_column (sel_vector st) r) as [[x|]| |]; try reflexivity;
    destruct (where_rows st rs) as [l| |]; try reflexivity.
  destruct (F64.leb (sel_threshold st) x); reflexivity.
Qed.

Lemma insert_desc_map (f : Row -> Row) (x : Row * F64.t) (l : list (Row * F64.t)) :
  insert_desc (f (fst x), snd x) (map (fun p => (f (fst p), snd p)) l) =
  map (fun p => (f (fst p), snd p)) (insert_desc x l).
Proof.
  induction l as [|y l IH]; simpl; [reflexivity|].
  destruct (F64.leb (snd x) (snd y)); simpl; [now rewrite IH|reflexivity].
Qed.

Lemma order_by_map (f : Row -> Row) (l : list (Row * F64.t)) :
  order_by_similarity_desc (map (fun p => (f (fst p), snd p)) l) =
  map (fun p => (f (fst p), snd p)) (order_by_similarity_desc l).
Proof.
  induction l as [|x l IH]; simpl; [reflexivity|].
  rewrite IH. apply insert_desc_map.
Qed.

Lemma limit_map {A B} (f : A -> B) (n : Z) (l : list A) :
  limit n (map f l) = map f (limit n l).
Proof.
  unfold limit. destruct (n <? 0); [reflexivity|]. apply firstn_map.
Qed.

Lemma QueryHistory_relabel (g : Row -> string) (m : MemoryPersist)
    (query : string) (topK : Z) :
  QueryHistory (set_db m (relabel g (db m))) "" query topK =
  QueryHistory m "" query topK.
Proof.
  unfold QueryHistory. simpl embedder.
  destruct (embedder m query) as [v| |]; try reflexivity.
  unfold run_select, QueryHistory_stmt. simpl.
  destruct (broken (db m)); [reflexivity|].
  rewrite where_rows_relabel by reflexivity.
  match goal with |- context [where_rows ?st ?rs] =>
    destruct (where_rows st rs) as [l| |] end; try reflexivity.
  rewrite order_by_map, limit_map, map_map. reflexivity.
Qed.

Lemma NewPersistMemory_defaults (memConf : MemoryConfig)
    (eng : ONNXEmbeddingEngine) (db0 : DB) (m0 : MemoryPersist) :
  NewPersistMemory memConf (Ok eng) (Ok db0) (Ok tt) = Some m0 ->
  threshold m0 =
    (if F32.leb (Threshold memConf) F32.zero
     then default_threshold else Threshold memConf) /\
  topk m0 = (if TopK memConf <=? 0 then 10 else TopK memConf) /\
  0 < topk m0.
Proof.
  unfold NewPersistMemory.
  destruct (negb (String.eqb (EmbedType memConf) "onnx")); [discriminate|].
  intros H. injection H as <-. simpl. repeat split.
  destruct (TopK memConf <=? 0) eqn:E; [lia|]. apply Z.leb_gt in E. exact E.
Qed.

(** C1. Take a persistent memory made by [NewPersistMemory] from a
    configuration, at any later state [d] of its database, and a call
    of [QueryHistory] that succeeds.  With [tau] the configured
    threshold ([0.87] when the configuration gives a value [<= 0]) and
    [k] the caller's [topK] (the configured value, [10] when that is
    [<= 0], when the caller passes [topK <= 0]):
    every returned similarity is at least [tau]; the similarities are in
    non-increasing order; at most [k] items are returned; the clause on
    [channel_id] is in the statement if and only if the channel is not
    the empty string, so that with a channel every item comes from a row
    of that channel, and with the empty channel the result does not
    depend on the channels of the rows. *)
Theorem QueryHistory_contract
    (memConf : MemoryConfig) (eng : ONNXEmbeddingEngine) (db0 d : DB)
    (m0 : MemoryPersist) (channel query : string) (topK : Z)
    (items : list MemoryItem) :
  NewPersistMemory memConf (Ok eng) (Ok db0) (Ok tt) = Some m0 ->
  QueryHistory (set_db m0 d) channel query topK = Ok items ->
  let tau := F64.of_f32 (if F32.leb (Threshold memConf) F32.zero
                         then default_threshold else Threshold memConf) in
  let k := if topK <=? 0
           then (if TopK memConf <=? 0 then 10 else TopK memConf)
           else topK in
  exists v : list F32.t,
    embedder m0 query = Ok v /\
    Forall (fun it => F64.leb tau (Similarity it) = true) items /\
    non_increasing (map Similarity items) /\
    Z.of_nat (length items) <= k /\
    (sel_channel (QueryHistory_stmt (set_db m0 d) v channel topK) =
       if String.eqb channel "" then None else Some channel) /\
    (channel <> ""%string ->
     Forall (fun it => exists r, List.In r (rows d) /\ channel_id r = channel /\
                                 item_of_row (floatsToBytes v) it r) items) /\
    (channel = ""%string ->
     forall g, QueryHistory (set_db m0 (relabel g d)) channel query topK = Ok items).
Proof.
  intros Hnew Hq tau k.
  destruct (NewPersistMemory_defaults _ _ _ _ Hnew) as (Hth & Htk & Hpos).
  unfold QueryHistory in Hq. simpl embedder in Hq.
  destruct (embedder m0 query) as [v| |] eqn:Hv; try discriminate.
  exists v. split; [reflexivity|].
  simpl db in Hq.
  destruct (run_select d (QueryHistory_stmt (set_db m0 d) v channel topK))
    as [l| |] eqn:Hsel; try discriminate.
  injection Hq as <-.
  destruct (run_select_spec _ _ _ Hsel) as (Hpass & Hsort & Hlen).
  assert (Hlim : sel_limit (QueryHistory_stmt (set_db m0 d) v channel topK) = k).
  { unfold QueryHistory_stmt, k. simpl. rewrite Htk. reflexivity. }
  assert (Hk : 0 <= k).
  { unfold k. rewrite <- Htk. destruct (topK <=? 0) eqn:E; [lia|].
    apply Z.leb_gt in E. lia. }
  repeat split.
  - apply Forall_map. eapply List.Forall_impl; [|exact Hpass].
    intros p (_ & _ & Hle & _). simpl.
    unfold QueryHistory_stmt in Hle. simpl in Hle. rewrite Hth in Hle. exact Hle.
  - now apply Sorted_map_desc.
  - rewrite length_map. rewrite Hlim in Hlen. now apply Hlen.
  - unfold QueryHistory_stmt. simpl. now destruct (String.eqb channel "").
  - intros Hch. apply Forall_map. eapply List.Forall_impl; [|exact Hpass].
    intros p (Hin & Hsim & _ & Hc). exists (fst p).
    unfold QueryHistory_stmt in Hc, Hsim. simpl in Hc, Hsim.
    destruct (String.eqb_spec channel ""); [contradiction|]. simpl in Hc.
    repeat split; auto.
  - intros -> g.
    pose proof (QueryHistory_relabel g (set_db m0 d) query topK) as Hr.
    change (set_db (set_db m0 d) (relabel g (db (set_db m0 d))))
      with (set_db m0 (relabel g d)) in Hr.
    rewrite Hr. unfold QueryHistory. simpl embedder. rewrite Hv.
    simpl db. rewrite Hsel. reflexivity.
Qed.

End Query.

(** ** The agent loop: what a computation adds to the trace *)

Section TraceLogic.

Context {X : Type}.

Lemma chat_calls_app (t1 t2 : list Event) :
  chat_calls (t1 ++ t2) = (chat_calls t1 + chat_calls t2)%nat.
Proof. unfold chat_calls. now rewrite List.filter_app, length_app. Qed.

Lemma chat_bound_ret {A} (a : A) : chat_bound 0 (ret (X := X) a).
Proof. intros w. exists []. simpl. rewrite app_nil_r. split; [reflexivity | apply Nat.le_refl]. Qed.

Lemma chat_bound_weaken {A} (n n' : nat) (m : M X A) :
  (n <= n')%nat -> chat_bound n m -> chat_bound n' m.
Proof.
  intros Hle Hm w. destruct (Hm w) as (tr & Htr & Hn). exists tr.
  split; [exact Htr | eapply Nat.le_trans; eassumption].
Qed.

Lemma chat_bound_bind {A B} (n1 n2 : nat) (m : M X A) (f : A -> M X B) :
  chat_bound n1 m -> (forall a, chat_bound n2 (f a)) ->
  chat_bound (n1 + n2) (bind m f).
Proof.
  intros Hm Hf w. unfold bind. destruct (Hm w) as (t1 & Ht1 & Hn1).
  destruct (m w) as [a w1|e w1]; cbn [world_of] in *.
  - destruct (Hf a w1) as (t2 & Ht2 & Hn2).
    exists (t1 ++ t2). rewrite Ht2, Ht1, app_assoc, chat_calls_app.
    split; [reflexivity | now apply Nat.add_le_mono].
  - exists t1. split; [exact Ht1 | ].
    eapply Nat.le_trans; [exact Hn1 | apply Nat.le_add_r].
Qed.

(** A computation that is a function of the world into a world with the
    same trace. *)
Lemma chat_bound_silent {A} (m : M X A) :
  (forall w, trace (world_of (m w)) = trace w) -> chat_bound 0 m.
Proof. intros H w. exists []. rewrite H, app_nil_r. split; [reflexivity | apply Nat.le_refl]. Qed.

Lemma all_events_ret {A} (Q : Event -> Prop) (a : A) : all_events Q (ret (X := X) a).
Proof. intros w. exists []. simpl. rewrite app_nil_r. split; [reflexivity | constructor]. Qed.

Lemma all_events_bind {A B} (Q : Event -> Prop) (m : M X A) (f : A -> M X B) :
  all_events Q m -> (forall a, all_events Q (f a)) -> all_events Q (bind m f).
Proof.
  intros Hm Hf w. unfold bind. destruct (Hm w) as (t1 & Ht1 & Hq1).
  destruct (m w) as [a w1|e w1]; simpl in *.
  - destruct (Hf a w1) as (t2 & Ht2 & Hq2).
    exists (t1 ++ t2). rewrite Ht2, Ht1, app_assoc. split; [reflexivity|].
    apply Forall_app. now split.
  - exists t1. now split.
Qed.

Lemma all_events_silent {A} (Q : Event -> Prop) (m : M X A) :
  (forall w, trace (world_of (m w)) = trace w) -> all_events Q m.
Proof. intros H w. exists []. rewrite H, app_nil_r. split; [reflexivity | constructor]. Qed.

Lemma all_events_emit (Q : Event -> Prop) (ev : Event) :
  Q ev -> all_events Q (emit (X := X) ev).
Proof. intros H w. exists [ev]. simpl. split; [reflexivity | now repeat constructor]. Qed.

Lemma chat_bound_emit (ev : Event) :
  chat_bound (if is_chat ev then 1 else 0) (emit (X := X) ev).
Proof.
  intros w. exists [ev]. simpl. split; [reflexivity|].
  unfold chat_calls. simpl. destruct (is_chat ev); simpl; lia.
Qed.

Lemma keeps_ret {A B} (f : World X -> B) (a : A) : keeps f (ret a).
Proof. intros w. reflexivity. Qed.

Lemma keeps_bind {A B C} (g : World X -> C) (m : M X A) (f : A -> M X B) :
  keeps g m -> (forall a, keeps g (f a)) -> keeps g (bind m f).
Proof.
  intros Hm Hf w. unfold bind. specialize (Hm w).
  destruct (m w) as [a w1|e w1]; simpl in *.
  - now rewrite Hf.
  - exact Hm.
Qed.

Lemma all_events_impl {A} (Q Q' : Event -> Prop) (m : M X A) :
  (forall ev, Q ev -> Q' ev) -> all_events Q m -> all_events Q' m.
Proof.
  intros HQ Hm w. destruct (Hm w) as (tr & Htr & Hall). exists tr.
  split; [exact Htr | eapply List.Forall_impl; eassumption].
Qed.

Lemma all_events_if {A} (Q : Event -> Prop) (b : bool) (m1 m2 : M X A) :
  all_events Q m1 -> all_events Q m2 -> all_events Q (if b then m1 else m2).
Proof. now destruct b. Qed.

Lemma chat_calls_none (tr : list Event) :
  Forall (fun ev => is_chat ev = false) tr -> chat_calls tr = 0%nat.
Proof.
  unfold chat_calls. induction 1 as [|ev tr Hev _ IH]; simpl; [reflexivity|].
  now rewrite Hev.
Qed.

(** No call of the provider at all. *)
Lemma no_chat_bound {A} (m : M X A) :
  all_events (fun ev => is_chat ev = false) m -> chat_bound 0 m.
Proof.
  intros Hm w. destruct (Hm w) as (tr & Htr & Hall). exists tr. split; [exact Htr|].
  rewrite (chat_calls_none tr Hall). apply Nat.le_refl.
Qed.

Lemma chat_bound_no_chat {A} (m : M X A) :
  chat_bound 0 m -> forall w, exists tr,
    trace (world_of (m w)) = trace w ++ tr /\ chat_calls tr = 0%nat.
Proof.
  intros Hm w. destruct (Hm w) as (tr & Htr & Hn). exists tr.
  split; [exact Htr|]. now apply Nat.le_0_r.
Qed.

Ltac silent :=
  apply all_events_silent; intros ?w;
  repeat match goal with
         | |- context [match ?x with _ => _ end] => destruct x
         end; reflexivity.

Lemma all_events_time_Now (Q : Event -> Prop) : all_events Q (time_Now (X := X)).
Proof. silent. Qed.

Lemma all_events_get_memoryPersist (Q : Event -> Prop) :
  all_events Q (get_memoryPersist (X := X)).
Proof. silent. Qed.

Lemma all_events_get_fs (Q : Event -> Prop) : all_events Q (get_fs (X := X)).
Proof. silent. Qed.

Lemma all_events_lift {A} (Q : Event -> Prop) (r : outcome A) :
  all_events Q (lift (X := X) r).
Proof. unfold lift. silent. Qed.

Lemma all_events_log (Q : Event -> Prop) (line : string) :
  Q (EvLog line) -> all_events Q (log (X := X) line).
Proof. apply all_events_emit. Qed.

Lemma all_events_for_each {A} (Q : Event -> Prop) (l : list A) (body : A -> M X unit) :
  (forall x, all_events Q (body x)) -> all_events Q (for_each l body).
Proof.
  intros Hb. induction l as [|x l IH]; simpl.
  - apply all_events_ret.
  - apply all_events_bind; [apply Hb | intros _; exact IH].
Qed.

Lemma all_events_send_Out (Q : Event -> Prop) (out : Outbound) :
  (forall sent, Q (EvSend out sent)) -> (forall line, Q (EvLog line)) ->
  all_events Q (send_Out (X := X) out).
Proof.
  intros HS HL. unfold send_Out.
  apply all_events_bind.
  - apply all_events_silent. intros w. now destruct (try_send _ _).
  - intros r. apply all_events_bind; [now apply all_events_emit|]. intros _.
    destruct r; [apply all_events_ret | now apply all_events_log].
Qed.

Lemma all_events_GetOrCreate (Q : Event -> Prop) (key : string) :
  all_events Q (sessions_GetOrCreate (X := X) key).
Proof. unfold sessions_GetOrCreate. silent. Qed.

Lemma all_events_GetHistory (Q : Event -> Prop) (key : string) :
  all_events Q (session_GetHistory (X := X) key).
Proof. unfold session_GetHistory. silent. Qed.

Lemma all_events_AddMessage (Q : Event -> Prop) (key r c : string) :
  all_events Q (session_AddMessage (X := X) key r c).
Proof.
  unfold session_AddMessage. apply all_events_bind; [apply all_events_time_Now|].
  intros now. silent.
Qed.

Lemma all_events_Save (Q : Event -> Prop) (key : string) :
  Q (EvSave key) -> all_events Q (sessions_Save (X := X) key).
Proof.
  intros HQ. unfold sessions_Save.
  apply all_events_bind; [now apply all_events_emit|]. intros _.
  apply all_events_silent. intros w.
  destruct (Save (sessionManager w) (fs (outside w)) key) as [[r sm'] fs'].
  now destruct r.
Qed.

Lemma all_events_TrimAll (Q : Event -> Prop) : all_events Q (sessions_TrimAll (X := X)).
Proof.
  apply all_events_silent. intros w. unfold sessions_TrimAll.
  now destruct (TrimAll _ _).
Qed.

Lemma all_events_AppendToday (Q : Event -> Prop) (a : AgentLoop X) (text : string) :
  Q (EvAppendToday text) -> all_events Q (memory_AppendToday a text).
Proof.
  intros HQ. unfold memory_AppendToday.
  apply all_events_bind; [now apply all_events_emit|]. intros _.
  apply all_events_bind; [apply all_events_time_Now|]. intros now1.
  apply all_events_bind; [apply all_events_time_Now|]. intros now2.
  apply all_events_bind; [|intros r; apply all_events_lift].
  apply all_events_silent. intros w. now destruct (AppendToday _ _ _ _ _).
Qed.

Lemma all_events_GetMemoryContext (Q : Event -> Prop) (a : AgentLoop X) :
  all_events Q (memory_GetMemoryContext a).
Proof.
  unfold memory_GetMemoryContext.
  apply all_events_bind; [apply all_events_time_Now|]. intros now.
  apply all_events_bind; [|intros r; apply all_events_lift].
  now apply all_events_silent.
Qed.

Lemma all_events_Execute (Q : Event -> Prop) (a : AgentLoop X) (name : string) (args : JSON) :
  Q (EvExecute name args) -> all_events Q (tools_Execute a name args).
Proof.
  intros HQ. unfold tools_Execute.
  apply all_events_bind; [now apply all_events_emit|]. intros _.
  apply all_events_bind; [|intros r; apply all_events_lift].
  apply all_events_silent. intros w. now destruct (Execute _ _ _ _).
Qed.

Lemma all_events_set_tool_context (Q : Event -> Prop) (a : AgentLoop X)
    (name channel chatID : string) :
  all_events Q (set_tool_context a name channel chatID).
Proof. unfold set_tool_context. silent. Qed.

Lemma all_events_QueryHistory (Q : Event -> Prop) (m : MemoryPersist)
    (c q : string) (k : Z) :
  Q (EvQueryHistory c q k) -> all_events Q (persist_QueryHistory (X := X) m c q k).
Proof.
  intros HQ. unfold persist_QueryHistory.
  apply all_events_bind; [now apply all_events_emit | intros _; apply all_events_lift].
Qed.

Lemma all_events_StoreHistory (Q : Event -> Prop) (c r t ts : string) :
  Q (EvStoreHistory c r t ts) -> all_events Q (persist_StoreHistory (X := X) c r t ts).
Proof.
  intros HQ. unfold persist_StoreHistory.
  apply all_events_bind; [now apply all_events_emit|]. intros _.
  apply all_events_bind; [|intros x; apply all_events_lift].
  apply all_events_silent. intros w.
  destruct (memoryPersist w); [|reflexivity]. now destruct (StoreHistory _ _ _ _ _).
Qed.

Lemma all_events_BuildMessages (Q : Event -> Prop) (cb : ContextBuilder)
    (history : list Message) (cur channel chatID memCtx : string)
    (memories : list MemoryItem) :
  (forall line, Q (EvLog line)) ->
  all_events Q (BuildMessages (X := X) cb history cur channel chatID memCtx memories).
Proof.
  intros HL. unfold BuildMessages.
  apply all_events_bind; [apply all_events_time_Now|]. intros now.
  apply all_events_bind; [apply all_events_get_fs|]. intros fs_.
  destruct (skillsLoader cb fs_) as [sk err].
  apply all_events_bind; [|intros _; apply all_events_ret].
  destruct err; [now apply all_events_log | apply all_events_ret].
Qed.

Lemma all_events_exec_tool_calls (Q : Event -> Prop) (a : AgentLoop X)
    (calls : list ToolCall) :
  (forall name args, Q (EvExecute name args)) ->
  forall messages last, all_events Q (exec_tool_calls a calls messages last).
Proof.
  intros HE. induction calls as [|tc calls IH]; intros messages last; simpl.
  - apply all_events_ret.
  - apply all_events_bind; [now apply all_events_Execute|]. intros r. apply IH.
Qed.

End TraceLogic.

(** The events of a composed computation, piece by piece. *)
Ltac quiet :=
  repeat first
    [ apply all_events_ret
    | apply all_events_time_Now
    | apply all_events_lift
    | apply all_events_get_memoryPersist
    | apply all_events_get_fs
    | apply all_events_log
    | apply all_events_send_Out
    | apply all_events_GetOrCreate
    | apply all_events_GetHistory
    | apply all_events_AddMessage
    | apply all_events_Save
    | apply all_events_TrimAll
    | apply all_events_AppendToday
    | apply all_events_GetMemoryContext
    | apply all_events_Execute
    | apply all_events_set_tool_context
    | apply all_events_QueryHistory
    | apply all_events_StoreHistory
    | apply all_events_BuildMessages
    | apply all_events_exec_tool_calls
    | apply all_events_for_each; intros ?
    | apply all_events_bind; [|intros ?]
    | match goal with
      | |- all_events _ (match ?x with _ => _ end) => destruct x
      end
    | progress intros
    | reflexivity
    | exact I ].

(** ** The agent loop: the calls of the provider *)

Section ProviderCalls.

Context {X : Type}.

Lemma chat_bound_bind_l {A B} (n : nat) (m : M X A) (f : A -> M X B) :
  chat_bound 0 m -> (forall a, chat_bound n (f a)) -> chat_bound n (bind m f).
Proof. intros Hm Hf. change n with (0 + n)%nat. now apply chat_bound_bind. Qed.

Lemma chat_bound_bind_r {A B} (n : nat) (m : M X A) (f : A -> M X B) :
  chat_bound n m -> (forall a, chat_bound 0 (f a)) -> chat_bound n (bind m f).
Proof.
  intros Hm Hf. rewrite <- (Nat.add_0_r n). now apply chat_bound_bind.
Qed.

Lemma chat_bound_provider_Chat (a : AgentLoop X) (messages : list PMessage) :
  chat_bound 1 (provider_Chat a messages).
Proof.
  unfold provider_Chat.
  apply (chat_bound_bind 1 0); [apply (chat_bound_emit (EvChat messages))|]. intros _.
  apply no_chat_bound. apply all_events_bind; [|intros r; apply all_events_lift].
  apply all_events_silent. intros w. now destruct (provider _ _ _ _ _ _ _).
Qed.

Lemma exec_tool_calls_no_chat (a : AgentLoop X) (calls : list ToolCall)
    (messages : list PMessage) (last : string) :
  chat_bound 0 (exec_tool_calls a calls messages last).
Proof. apply no_chat_bound. quiet. Qed.

(** The loop of [Run] calls the provider at most once per iteration. *)
Lemma Run_tool_loop_bound (a : AgentLoop X) (fuel : nat) :
  forall messages last, chat_bound fuel (Run_tool_loop a fuel messages last).
Proof.
  induction fuel as [|fuel IH]; intros messages last; simpl.
  - apply chat_bound_ret.
  - apply (chat_bound_bind 1 fuel); [apply chat_bound_provider_Chat|].
    intros [resp|e].
    + destruct (HasToolCalls resp).
      * apply chat_bound_bind_l; [apply exec_tool_calls_no_chat|]. intros p. apply IH.
      * eapply chat_bound_weaken; [|apply chat_bound_ret]. apply Nat.le_0_l.
    + eapply chat_bound_weaken; [apply Nat.le_0_l|]. apply no_chat_bound. quiet.
Qed.

Lemma ProcessDirect_loop_bound (a : AgentLoop X) (fuel : nat) :
  forall messages last, chat_bound fuel (ProcessDirect_loop a fuel messages last).
Proof.
  induction fuel as [|fuel IH]; intros messages last; simpl.
  - apply chat_bound_ret.
  - apply (chat_bound_bind 1 fuel); [apply chat_bound_provider_Chat|].
    intros [resp|e].
    + destruct (HasToolCalls resp); simpl.
      * apply chat_bound_bind_l; [apply exec_tool_calls_no_chat|]. intros p. apply IH.
      * eapply chat_bound_weaken; [apply Nat.le_0_l|].
        destruct (negb (resp_Content resp =? "")%string);
          [|destruct (negb (last =? "")%string)]; apply chat_bound_ret.
    + eapply chat_bound_weaken; [apply Nat.le_0_l | apply chat_bound_ret].
Qed.

Lemma recall_no_chat (channel chatID content_ : string) :
  all_events (fun ev => is_chat ev = false) (recall (X := X) channel chatID content_).
Proof. unfold recall. quiet. Qed.

Lemma steps_3_to_6_bound (a : AgentLoop X) (channel chatID content_ : string) :
  chat_bound (Z.to_nat (maxIterations a)) (steps_3_to_6 a channel chatID content_).
Proof.
  unfold steps_3_to_6.
  apply chat_bound_bind_l; [apply no_chat_bound; quiet|]. intros _.
  apply chat_bound_bind_l; [apply no_chat_bound; quiet|]. intros r.
  apply chat_bound_bind_l; [apply no_chat_bound, recall_no_chat|]. intros memories.
  apply chat_bound_bind_l; [apply no_chat_bound; quiet|]. intros history.
  apply chat_bound_bind_l; [apply no_chat_bound; quiet|]. intros messages.
  apply chat_bound_bind_r; [apply Run_tool_loop_bound|]. intros p.
  apply chat_bound_ret.
Qed.

Lemma remember_no_chat (a : AgentLoop X) (msg : Inbound) (note : string) :
  all_events (fun ev => is_chat ev = false) (remember a msg note).
Proof. unfold remember. quiet. Qed.

Lemma archive_no_chat (channel chatID : string) :
  all_events (fun ev => is_chat ev = false) (archive (X := X) channel chatID).
Proof. unfold archive, store_trimmed. quiet. Qed.

Lemma process_message_bound (a : AgentLoop X) (msg : Inbound) :
  chat_bound (Z.to_nat (maxIterations a)) (process_message a msg).
Proof.
  unfold process_message.
  apply chat_bound_bind_l; [apply no_chat_bound; quiet|]. intros _.
  destruct (length _ =? 2)%nat.
  - eapply chat_bound_weaken; [apply Nat.le_0_l|].
    apply no_chat_bound, remember_no_chat.
  - apply chat_bound_bind_l; [apply no_chat_bound; quiet|]. intros _.
    apply chat_bound_bind_l; [apply no_chat_bound; quiet|]. intros _.
    apply chat_bound_bind_r; [apply steps_3_to_6_bound|]. intros finalContent.
    apply no_chat_bound.
    apply all_events_bind; [quiet|]. intros _.
    apply all_events_bind; [quiet|]. intros _.
    apply all_events_bind; [apply archive_no_chat|]. intros _.
    quiet.
Qed.

Lemma ProcessDirect_bound (a : AgentLoop X) (content_ : string) :
  chat_bound (Z.to_nat (maxIterations a)) (ProcessDirect a content_).
Proof.
  unfold ProcessDirect.
  apply chat_bound_bind_l; [apply no_chat_bound; quiet|]. intros _.
  apply chat_bound_bind_l; [apply no_chat_bound; quiet|]. intros _.
  apply chat_bound_bind_l; [apply no_chat_bound; quiet|]. intros r.
  apply chat_bound_bind_l; [apply no_chat_bound; quiet|]. intros messages.
  apply ProcessDirect_loop_bound.
Qed.

(** C4. Whatever the inbound message and the state, and whether the
    processing returns or panics, the events the agent loop adds to the
    trace for this message hold at most [maxIterations] calls of
    [provider.Chat] (none when [maxIterations] is not positive); the same
    holds for a call of [ProcessDirect]. *)
Theorem provider_calls_bounded
    (a : AgentLoop X) (msg : Inbound) (content_ : string) (w : World X) :
  (exists tr,
     trace (world_of (process_message a msg w)) = trace w ++ tr /\
     Z.of_nat (chat_calls tr) <= Z.max 0 (maxIterations a)) /\
  (exists tr,
     trace (world_of (ProcessDirect a content_ w)) = trace w ++ tr /\
     Z.of_nat (chat_calls tr) <= Z.max 0 (maxIterations a)).
Proof.
  split.
  - destruct (process_message_bound a msg w) as (tr & Htr & Hn).
    exists tr. split; [exact Htr|].
    generalize dependent (chat_calls tr). intros n Hn. lia.
  - destruct (ProcessDirect_bound a content_ w) as (tr & Htr & Hn).
    exists tr. split; [exact Htr|].
    generalize dependent (chat_calls tr). intros n Hn. lia.
Qed.

End ProviderCalls.

(** ** The agent loop: running the computations *)

Section Running.

Context {X : Type}.

Lemma bind_run {A B} (m : M X A) (f : A -> M X B) (w w1 : World X) (a : A) :
  m w = Done a w1 -> bind m f w = f a w1.
Proof. intros H. unfold bind. now rewrite H. Qed.

Lemma AppendToday_result (s : MemoryStore) (text : string) (n1 n2 : Time) (f : FS) :
  exists r, lift (X := X) (fst (AppendToday s text n1 n2 f)) = fun w => Done r w.
Proof.
  unfold AppendToday. destruct (denied f (memoryDir s)); [eexists; reflexivity|].
  destruct (denied f _); eexists; reflexivity.
Qed.

Lemma memory_AppendToday_run (a : AgentLoop X) (text : string) (w : World X) :
  exists r,
    memory_AppendToday a text w =
    Done r
      {| outside :=
           set_fs (outside w)
             (snd (AppendToday (memory a) text (clock w (ticks w))
                     (clock w (S (ticks w))) (fs (outside w))));
         sessionManager := sessionManager w; memoryPersist := memoryPersist w;
         clock := clock w; ticks := S (S (ticks w)); range_order := range_order w;
         trace := trace w ++ [EvAppendToday text] |}.
Proof.
  unfold memory_AppendToday, bind, emit, time_Now. cbn.
  destruct (AppendToday_result (memory a) text (clock w (ticks w))
              (clock w (S (ticks w))) (fs (outside w))) as [r Hr].
  exists r.
  destruct (AppendToday (memory a) text (clock w (ticks w))
              (clock w (S (ticks w))) (fs (outside w))) as [r0 fs'].
  cbn in *. now rewrite Hr.
Qed.

Lemma log_run (line : string) (w : World X) :
  log line w =
  Done tt {| outside := outside w; sessionManager := sessionManager w;
             memoryPersist := memoryPersist w; clock := clock w;
             ticks := ticks w; range_order := range_order w;
             trace := trace w ++ [EvLog line] |}.
Proof. reflexivity. Qed.

Lemma send_Out_run (out : Outbound) (w : World X) :
  exists tr,
    Forall (fun ev => is_chat ev = false) tr /\
    send_Out out w =
    Done tt
      {| outside :=
           set_hub (outside w)
             (set_Out (hub (outside w)) (fst (try_send (Out (hub (outside w))) out)));
         sessionManager := sessionManager w; memoryPersist := memoryPersist w;
         clock := clock w; ticks := ticks w; range_order := range_order w;
         trace := trace w ++ EvSend out (snd (try_send (Out (hub (outside w))) out)) :: tr |}.
Proof.
  unfold send_Out, bind, emit, log, emit, ret.
  destruct (try_send (Out (hub (outside w))) out) as [c sent]. cbn.
  destruct sent; cbn.
  - exists []. split; [constructor | reflexivity].
  - exists [EvLog "Outbound channel full, dropping message"].
    split; [repeat constructor|]. rewrite <- app_assoc. reflexivity.
Qed.

Lemma GetOrCreate_lookup (sm : SessionManager) (key : string) :
  sessions (snd (GetOrCreate sm key)) !! key = Some (fst (GetOrCreate sm key)).
Proof.
  unfold GetOrCreate. destruct (sessions sm !! key) eqn:E; simpl.
  - exact E.
  - apply lookup_insert_eq.
Qed.

Lemma GetOrCreate_workspace (sm : SessionManager) (key : string) :
  workspace (snd (GetOrCreate sm key)) = workspace sm.
Proof. unfold GetOrCreate. now destruct (sessions sm !! key). Qed.

Lemma GetOrCreate_History (sm : SessionManager) (key : string) :
  History (fst (GetOrCreate sm key)) =
  match sessions sm !! key with
  | Some s => History s
  | None => []
  end.
Proof. unfold GetOrCreate. now destruct (sessions sm !! key). Qed.

Lemma Trim_keeps_last_two (s : Session) (h : list Message) (x y : Message) :
  History s = h ++ [x; y] ->
  exists pre, History (snd (Trim s)) = pre ++ [x; y].
Proof.
  intros Hh. unfold Trim.
  destruct (MaxHistorySize <? length (History s))%nat eqn:E; simpl.
  - rewrite Hh, length_app. simpl length.
    rewrite skipn_app.
    replace (length h + 2 - MaxHistorySize - length h)%nat with 0%nat
      by (unfold MaxHistorySize; lia).
    eexists. reflexivity.
  - exists h. exact Hh.
Qed.

Lemma session_AddMessage_run (key r c : string) (s : Session) (w : World X) :
  sessions (sessionManager w) !! key = Some s ->
  session_AddMessage key r c w =
  Done tt
    {| outside := outside w;
       sessionManager :=
         update_session (sessionManager w) key
           (AddMessage s r c (rfc3339 (clock w (ticks w))));
       memoryPersist := memoryPersist w; clock := clock w; ticks := S (ticks w);
       range_order := range_order w; trace := trace w |}.
Proof.
  intros Hs. unfold session_AddMessage, bind, time_Now. cbn. now rewrite Hs.
Qed.

Lemma sessions_Save_run (key : string) (s : Session) (w : World X) :
  sessions (sessionManager w) !! key = Some s ->
  sessions_Save key w =
  Done tt
    {| outside :=
         set_fs (outside w)
           (snd (WriteSessionFile (fs (outside w))
                   (filepath_Join (filepath_Join (workspace (sessionManager w)) "sessions")
                      (Key s +:+ ".json"))
                   (snd (Trim s))));
       sessionManager := update_session (sessionManager w) key (snd (Trim s));
       memoryPersist := memoryPersist w; clock := clock w; ticks := ticks w;
       range_order := range_order w; trace := trace w ++ [EvSave key] |}.
Proof.
  intros Hs. unfold sessions_Save, bind, emit, Save. cbn. rewrite Hs, Trim_Key.
  unfold WriteSessionFile. now destruct (denied (fs (outside w)) _).
Qed.

(** How the pattern is met: the trimmed content starts with "remember",
    in any case, then white space, optionally "to" and white space, and
    the rest, which holds no line feed, is the note. *)
Example rememberRE_buy_milk :
  FindStringSubmatch rememberRE (TrimSpace "  remember to buy milk ") =
  ["remember to buy milk"; "buy milk"]%string.
Proof. vm_compute. reflexivity. Qed.

Example rememberRE_case_and_spaces :
  FindStringSubmatch rememberRE (TrimSpace "Remember   TO  call Bob") =
  ["Remember   TO  call Bob"; "call Bob"]%string.
Proof. vm_compute. reflexivity. Qed.

Example rememberRE_no_match :
  FindStringSubmatch rememberRE (TrimSpace "please remember to buy milk") = [].
Proof. vm_compute. reflexivity. Qed.

Lemma remember_run (a : AgentLoop X) (msg : Inbound) (note : string) (w : World X) :
  let key := in_Channel msg +:+ ":" +:+ in_ChatID msg in
  let reply := {| out_Channel := in_Channel msg; out_ChatID := in_ChatID msg;
                  out_Content := remembered |} in
  let s0 := fst (GetOrCreate (sessionManager w) key) in
  let s1 := AddMessage s0 "user" (in_Content msg) (rfc3339 (clock w (S (S (ticks w))))) in
  let s2 := AddMessage s1 "assistant" remembered
              (rfc3339 (clock w (S (S (S (ticks w)))))) in
  let fs1 := snd (AppendToday (memory a) note (clock w (ticks w))
                    (clock w (S (ticks w))) (fs (outside w))) in
  exists (tr1 tr2 : list Event),
    Forall (fun ev => is_chat ev = false) tr1 /\
    Forall (fun ev => is_chat ev = false) tr2 /\
    remember a msg note w =
    Done tt
      {| outside :=
           {| hub := set_Out (hub (outside w))
                       (fst (try_send (Out (hub (outside w))) reply));
              fs := snd (WriteSessionFile fs1
                           (filepath_Join
                              (filepath_Join (workspace (sessionManager w)) "sessions")
                              (Key s2 +:+ ".json"))
                           (snd (Trim s2)));
              ext := ext (outside w) |};
         sessionManager :=
           update_session
             (update_session
                (update_session (snd (GetOrCreate (sessionManager w) key)) key s1)
                key s2)
             key (snd (Trim s2));
         memoryPersist := memoryPersist w; clock := clock w;
         ticks := S (S (S (S (ticks w)))); range_order := range_order w;
         trace := trace w ++ EvAppendToday note :: tr1 ++
                  EvSend reply (snd (try_send (Out (hub (outside w))) reply)) :: tr2 ++
                  [EvSave key] |}.
Proof.
  intros key reply s0 s1 s2 fs1. unfold remember.
  destruct (memory_AppendToday_run a note w) as [r Hr].
  rewrite (bind_run _ _ _ _ _ Hr). clear Hr.
  set (w1 := {| outside := set_fs (outside w) fs1; sessionManager := sessionManager w;
                memoryPersist := memoryPersist w; clock := clock w;
                ticks := S (S (ticks w)); range_order := range_order w;
                trace := trace w ++ [EvAppendToday note] |}).
  assert (Hlog : exists tr1,
             Forall (fun ev => is_chat ev = false) tr1 /\
             match r with
             | inl _ => ret tt
             | inr e => log ("error appending to memory: " +:+ e)
             end w1 =
             Done tt {| outside := outside w1; sessionManager := sessionManager w1;
                        memoryPersist := memoryPersist w1; clock := clock w1;
                        ticks := ticks w1; range_order := range_order w1;
                        trace := trace w1 ++ tr1 |}).
  { destruct r as [[]|e].
    - exists []. split; [constructor|]. cbn. now rewrite app_nil_r.
    - exists [EvLog ("error appending to memory: " +:+ e)].
      split; [repeat constructor | reflexivity]. }
  destruct Hlog as (tr1 & Htr1 & Hrun).
  rewrite (bind_run _ _ _ _ _ Hrun). clear Hrun.
  match goal with |- exists _ _, _ /\ _ /\ bind _ _ ?w0 = _ =>
    destruct (send_Out_run reply w0) as (tr2 & Htr2 & Hs) end.
  rewrite (bind_run _ _ _ _ _ Hs). clear Hs.
  unfold sessions_GetOrCreate at 1. unfold bind at 1. subst w1.
  exists tr1, tr2. split; [exact Htr1|]. split; [exact Htr2|].
  erewrite bind_run;
    [|apply (session_AddMessage_run _ _ _ s0); apply GetOrCreate_lookup].
  erewrite bind_run;
    [|apply (session_AddMessage_run _ _ _ s1); apply lookup_insert_eq].
  rewrite (sessions_Save_run _ s2) by apply lookup_insert_eq.
  cbn -[Trim AddMessage GetOrCreate try_send AppendToday WriteSessionFile].
  rewrite GetOrCreate_workspace.
  repeat rewrite <- app_assoc. reflexivity.
Qed.


(** C3. For an inbound message whose trimmed content matches the
    pattern, with [note] the text of the group: the processing returns;
    it calls no provider; it calls [AppendToday] with [note], so that
    today's file (named by the first reading of the clock) ends with the
    stamped line of the note when the file system lets it be written;
    it sends the reply "OK, I've remembered that." for the channel and
    chat of the message on [hub.Out] by the non-blocking send, so that
    the reply is queued last when the queue has room; and the history of
    the session ends with the user turn and the assistant turn. *)
Theorem remember_short_circuit
    (a : AgentLoop X) (msg : Inbound) (w : World X) (whole note : string) :
  FindStringSubmatch rememberRE (TrimSpace (in_Content msg)) = [whole; note] ->
  let key := in_Channel msg +:+ ":" +:+ in_ChatID msg in
  let reply := {| out_Channel := in_Channel msg; out_ChatID := in_ChatID msg;
                  out_Content := "OK, I've remembered that." |} in
  let now1 := clock w (ticks w) in
  let now2 := clock w (S (ticks w)) in
  let today := filepath_Join (memoryDir (memory a)) (date_utc now1 +:+ ".md") in
  exists (w' : World X) (tr : list Event),
    process_message a msg w = Done tt w' /\
    trace w' = trace w ++ tr /\
    chat_calls tr = 0%nat /\
    ext (outside w') = ext (outside w) /\
    List.In (EvAppendToday note) tr /\
    files (fs (outside w')) =
      files (snd (AppendToday (memory a) note now1 now2 (fs (outside w)))) /\
    (denied (fs (outside w)) (memoryDir (memory a)) = false ->
     denied (fs (outside w)) today = false ->
     files (fs (outside w')) !! today =
       Some (match files (fs (outside w)) !! today with Some t => t | None => "" end
             +:+ "[" +:+ rfc3339_utc now2 +:+ "] " +:+ note +:+ LF)) /\
    List.In (EvSend reply (snd (try_send (Out (hub (outside w))) reply))) tr /\
    Out (hub (outside w')) = fst (try_send (Out (hub (outside w))) reply) /\
    ((length (buf (Out (hub (outside w)))) < cap (Out (hub (outside w))))%nat ->
     buf (Out (hub (outside w'))) = buf (Out (hub (outside w))) ++ [reply]) /\
    exists (s' : Session) (pre : list Message) (t1 t2 : string),
      sessions (sessionManager w') !! key = Some s' /\
      History s' =
        pre ++ [ {| Role := "user"; Content := in_Content msg; Timestamp := t1 |};
                 {| Role := "assistant"; Content := "OK, I've remembered that.";
                    Timestamp := t2 |} ].
Proof.
  intros Hm key reply now1 now2 today.
  unfold process_message. rewrite Hm. cbn [length Nat.eqb nth].
  rewrite (bind_run _ _ _ _ _ (log_run _ w)).
  match goal with |- exists _ _, remember a msg note ?w0 = _ /\ _ =>
    destruct (remember_run a msg note w0) as (tr1 & tr2 & Htr1 & Htr2 & Hrun) end.
  cbn -[Trim AddMessage GetOrCreate try_send AppendToday WriteSessionFile] in Hrun.
  eexists _, _. split; [exact Hrun|].
  cbn -[Trim AddMessage GetOrCreate try_send AppendToday WriteSessionFile].
  split; [rewrite <- app_assoc; reflexivity|].
  split.
  { apply chat_calls_none. constructor; [reflexivity|]. constructor; [reflexivity|].
    apply Forall_app. split; [exact Htr1|]. constructor; [reflexivity|].
    apply Forall_app. split; [exact Htr2|]. repeat constructor. }
  split; [reflexivity|].
  split; [right; left; reflexivity|].
  split.
  { unfold WriteSessionFile. now destruct (denied _ _). }
  split.
  { intros D1 D2. unfold WriteSessionFile.
    match goal with |- context [if ?c then _ else _] => destruct c end; cbn;
      unfold AppendToday; fold now1 now2 today; rewrite D1, D2; cbn;
      apply lookup_insert_eq. }
  split.
  { right. right. apply in_or_app. right. left. reflexivity. }
  split; [reflexivity|].
  split.
  { intros Hroom. unfold try_send. apply Nat.ltb_lt in Hroom. now rewrite Hroom. }
  rewrite lookup_insert_eq.
  match goal with |- context [Trim ?s2] =>
    assert (Hh : exists x y,
               History s2 =
               History (fst (GetOrCreate (sessionManager w) key)) ++ [x; y] /\
               Role x = "user"%string /\ Content x = in_Content msg /\
               Role y = "assistant"%string /\
               Content y = "OK, I've remembered that."%string)
      by (eexists _, _; split;
          [cbn; rewrite <- app_assoc; reflexivity | repeat split]);
    destruct Hh as (x & y & Hh & Hx1 & Hx2 & Hy1 & Hy2);
    destruct (Trim_keeps_last_two s2 _ _ _ Hh) as [pre Hpre]
  end.
  exists (snd (Trim
    (AddMessage
       (AddMessage (fst (GetOrCreate (sessionManager w)
                           (in_Channel msg +:+ ":" +:+ in_ChatID msg)))
          "user" (in_Content msg) (rfc3339 (clock w (S (S (ticks w))))))
       "assistant" remembered (rfc3339 (clock w (S (S (S (ticks w))))))))),
    pre, (Timestamp x), (Timestamp y).
  split; [reflexivity|]. rewrite Hpre.
  destruct x, y; simpl in *; subst. reflexivity.
Qed.

End Running.

Lemma remember_short_circuit_witness :
  exists (w' : World unit) (tr : list Event),
    process_message demo_agent demo_remember demo_world = Done tt w' /\
    trace w' = trace demo_world ++ tr /\
    chat_calls tr = 0%nat /\
    List.In (EvAppendToday "buy milk") tr /\
    files (fs (outside w')) !! "ws/memory/2026-10-31.md"%string =
      Some ("[2026-10-31T12:00:01Z] buy milk" +:+ LF) /\
    buf (Out (hub (outside w'))) =
      [{| out_Channel := "telegram"; out_ChatID := "42";
          out_Content := "OK, I've remembered that." |}].
Proof.
  destruct (remember_short_circuit demo_agent demo_remember demo_world
              "remember to buy milk" "buy milk" eq_refl)
    as (w' & tr & H1 & H2 & H3 & _ & H5 & _ & H7 & _ & _ & H10 & _).
  exists w', tr. repeat split; try assumption.
  - apply H7; reflexivity.
  - apply H10. vm_compute. lia.
Defined.


(** ** The agent loop: the archive of the trimmed history *)

Section Archive.

Context {X : Type}.

Lemma all_events_provider_Chat (Q : Event -> Prop) (a : AgentLoop X)
    (messages : list PMessage) :
  Q (EvChat messages) -> all_events Q (provider_Chat a messages).
Proof.
  intros HQ. unfold provider_Chat.
  apply all_events_bind; [now apply all_events_emit|]. intros _.
  apply all_events_bind; [|intros r; apply all_events_lift].
  apply all_events_silent. intros w. now destruct (provider _ _ _ _ _ _ _).
Qed.

Lemma all_events_Run_tool_loop (Q : Event -> Prop) (a : AgentLoop X) (fuel : nat) :
  (forall messages, Q (EvChat messages)) ->
  (forall name args, Q (EvExecute name args)) ->
  (forall line, Q (EvLog line)) ->
  forall messages last, all_events Q (Run_tool_loop a fuel messages last).
Proof.
  intros HC HE HL. induction fuel as [|fuel IH]; intros messages last; simpl.
  - apply all_events_ret.
  - apply all_events_bind; [now apply all_events_provider_Chat|].
    intros [resp|e].
    + destruct (HasToolCalls resp); [|apply all_events_ret].
      apply all_events_bind; [now apply all_events_exec_tool_calls|].
      intros p. apply IH.
    + quiet. apply HL.
Qed.

Lemma process_message_stores_under (a : AgentLoop X) (msg : Inbound) :
  all_events (stores_under (in_Channel msg +:+ in_ChatID msg)) (process_message a msg).
Proof.
  unfold process_message.
  apply all_events_bind; [quiet|]. intros _.
  destruct (length _ =? 2)%nat.
  - unfold remember. quiet.
  - apply all_events_bind; [quiet|]. intros _.
    apply all_events_bind; [quiet|]. intros _.
    apply all_events_bind.
    { unfold steps_3_to_6, recall. 
      apply all_events_bind; [quiet|]. intros _.
      apply all_events_bind; [quiet|]. intros r.
      apply all_events_bind; [quiet|]. intros memories.
      apply all_events_bind; [quiet|]. intros history.
      apply all_events_bind; [quiet|]. intros messages.
      apply all_events_bind; [|intros p; apply all_events_ret].
      apply all_events_Run_tool_loop; intros; exact I. }
    intros finalContent. unfold archive, store_trimmed. quiet.
Qed.

Lemma store_calls_app (t1 t2 : list Event) :
  store_calls (t1 ++ t2) = store_calls t1 ++ store_calls t2.
Proof. apply flat_map_app. Qed.

Lemma stores_under_calls (c : string) (tr : list Event) :
  Forall (stores_under c) tr ->
  Forall (fun call => fst (fst (fst call)) = c) (store_calls tr).
Proof.
  induction 1 as [|ev tr Hev _ IH]; simpl; [constructor|].
  destruct ev; simpl; try exact IH. constructor; [exact Hev | exact IH].
Qed.

(** One trimmed message: a user message is passed over, another one is
    handed to [StoreHistory] under [channel +:+ chatID]. *)
Lemma store_trimmed_run (channel chatID : string) (m : Message) (w : World X) :
  memoryPersist w <> None ->
  exists tr,
    trace (world_of (store_trimmed channel chatID m w)) = trace w ++ tr /\
    sessionManager (world_of (store_trimmed channel chatID m w)) = sessionManager w /\
    memoryPersist (world_of (store_trimmed channel chatID m w)) <> None /\
    (forall w', store_trimmed channel chatID m w = Done tt w' ->
                store_calls tr =
                if not_user m then [store_call_of (channel +:+ chatID) m] else []).
Proof.
  intros Hmp. unfold store_trimmed. fold (not_user m).
  destruct (not_user m).
  - unfold persist_StoreHistory, bind, emit, lift, log, emit, ret. cbn.
    destruct (memoryPersist w) as [mp|] eqn:E; [|contradiction].
    destruct (StoreHistory mp _ _ _ _) as [r mp']. cbn.
    destruct r as [[]|e|e]; cbn.
    + exists [EvStoreHistory (channel +:+ chatID) (Role m) (Content m) (Timestamp m)].
      repeat split; try discriminate.
    + eexists [_; _]. rewrite <- app_assoc.
      repeat split; try discriminate.
    + exists [EvStoreHistory (channel +:+ chatID) (Role m) (Content m) (Timestamp m)].
      repeat split; try discriminate.
  - exists []. cbn. rewrite app_nil_r. repeat split. exact Hmp.
Qed.

Lemma for_each_store_trimmed (channel chatID : string) (msgs : list Message) :
  forall w : World X,
    memoryPersist w <> None ->
    exists tr,
      trace (world_of (for_each msgs (store_trimmed channel chatID) w)) = trace w ++ tr /\
      sessionManager (world_of (for_each msgs (store_trimmed channel chatID) w)) =
        sessionManager w /\
      (forall w', for_each msgs (store_trimmed channel chatID) w = Done tt w' ->
                  store_calls tr =
                  map (store_call_of (channel +:+ chatID)) (List.filter not_user msgs)).
Proof.
  induction msgs as [|m msgs IH]; intros w Hmp.
  - exists []. cbn. rewrite app_nil_r. repeat split.
  - cbn [for_each]. unfold bind.
    destruct (store_trimmed_run channel chatID m w Hmp) as (t1 & H1 & H2 & H3 & H4).
    destruct (store_trimmed channel chatID m w) as [[] w1|e w1]; cbn [world_of] in *.
    + destruct (IH w1 H3) as (t2 & I1 & I2 & I3).
      exists (t1 ++ t2). rewrite I1, H1, app_assoc, I2, H2.
      repeat split. intros w' Hw'.
      rewrite store_calls_app, (I3 w' Hw'), (H4 w1 eq_refl). cbn [List.filter].
      now destruct (not_user m).
    + exists t1. repeat split; try assumption. intros w' Hw'. discriminate Hw'.
Qed.

(** The archive step, when the persistent memory is on: [TrimAll] trims
    every session, and the messages it returns that are not user messages
    are handed to [StoreHistory], all of them under [channel +:+ chatID]. *)
Lemma archive_run (channel chatID : string) (w : World X) (m : MemoryPersist) :
  memoryPersist w = Some m ->
  exists tr,
    trace (world_of (archive channel chatID w)) = trace w ++ tr /\
    sessionManager (world_of (archive channel chatID w)) =
      snd (TrimAll (range_order w (sessions (sessionManager w))) (sessionManager w)) /\
    (forall w', archive channel chatID w = Done tt w' ->
                store_calls tr =
                map (store_call_of (channel +:+ chatID))
                  (List.filter not_user
                     (fst (TrimAll (range_order w (sessions (sessionManager w)))
                             (sessionManager w))))).
Proof.
  intros Hm.
  destruct (TrimAll (range_order w (sessions (sessionManager w))) (sessionManager w))
    as [msgs sm'] eqn:E. cbn [fst snd].
  assert (Hrun : archive channel chatID w =
                 for_each msgs (store_trimmed channel chatID) (set_sessionManager w sm')).
  { unfold archive, get_memoryPersist, sessions_TrimAll, bind. rewrite Hm, E. reflexivity. }
  rewrite Hrun.
  destruct (for_each_store_trimmed channel chatID msgs (set_sessionManager w sm'))
    as (tr & H1 & H2 & H3).
  { cbn. rewrite Hm. discriminate. }
  exists tr. repeat split; assumption.
Qed.

(** What a successful [StoreHistory] inserts. *)
Lemma StoreHistory_row (m m' : MemoryPersist) (c r t ts : string) :
  StoreHistory m c r t ts = (Ok tt, m') ->
  exists row,
    rows (db m') = rows (db m) ++ [row] /\
    channel_id row = c /\ role row = r /\ content row = t /\ timestamp row = ts.
Proof.
  unfold StoreHistory. destruct (embedder m t) as [v|e|e]; try discriminate.
  destruct (broken (db m)); [discriminate|].
  intros H. injection H as <-. eexists. split; [reflexivity|]. repeat split.
Qed.

Lemma string_length_append (s1 s2 : string) :
  String.length (s1 +:+ s2) = (String.length s1 + String.length s2)%nat.
Proof. induction s1 as [|c s1 IH]; simpl; [reflexivity | now rewrite IH]. Qed.

(** The channel of the archive is never the key of the session of the
    message: the key has the separator. *)
Lemma archive_channel_not_key (channel chatID : string) :
  channel +:+ chatID <> channel +:+ ":" +:+ chatID.
Proof.
  intros H. apply (f_equal String.length) in H.
  rewrite !string_length_append in H. simpl in H. lia.
Qed.

Lemma keeps_for_each {A B} (f : World X -> B) (l : list A) (body : A -> M X unit) :
  (forall x, keeps f (body x)) -> keeps f (for_each l body).
Proof.
  intros Hb. induction l as [|x l IH]; simpl.
  - apply keeps_ret.
  - apply keeps_bind; [apply Hb | intros _; exact IH].
Qed.

End Archive.

(** A component of the world that a composed computation never writes. *)
Ltac frame :=
  repeat first
    [ apply keeps_ret
    | apply keeps_bind; [|intros ?]
    | apply keeps_for_each; intros ?
    | match goal with
      | |- keeps _ (match ?x with _ => _ end) => destruct x
      | |- keeps _ (if ?b then _ else _) => destruct b
      end
    | solve [ intros ?w;
              unfold time_Now, emit, log, emit, lift, get_fs, get_memoryPersist,
                set_tool_context, sessions_GetOrCreate, session_GetHistory,
                sessions_TrimAll;
              cbn;
              repeat (match goal with
                      | |- context [match ?x with _ => _ end] => destruct x
                      end; cbn);
              reflexivity ] ].

Section Frames.

Context {X : Type}.

Lemma keeps_provider_Chat {B} (f : World X -> B) (a : AgentLoop X)
    (messages : list PMessage) :
  (forall w o, f (set_outside w o) = f w) ->
  (forall w ev, f {| outside := outside w; sessionManager := sessionManager w;
                     memoryPersist := memoryPersist w; clock := clock w;
                     ticks := ticks w; range_order := range_order w;
                     trace := trace w ++ [ev] |} = f w) ->
  keeps f (provider_Chat a messages).
Proof.
  intros Ho He w. unfold provider_Chat, bind, emit, lift.
  destruct (provider _ _ _ _ _ _ _) as [r x']. cbn.
  destruct r; cbn; now rewrite Ho, He.
Qed.

Lemma keeps_tools_Execute {B} (f : World X -> B) (a : AgentLoop X)
    (name : string) (args : JSON) :
  (forall w o, f (set_outside w o) = f w) ->
  (forall w ev, f {| outside := outside w; sessionManager := sessionManager w;
                     memoryPersist := memoryPersist w; clock := clock w;
                     ticks := ticks w; range_order := range_order w;
                     trace := trace w ++ [ev] |} = f w) ->
  keeps f (tools_Execute a name args).
Proof.
  intros Ho He w. unfold tools_Execute, bind, emit, lift.
  destruct (Execute _ _ _ _) as [r o']. cbn.
  destruct r; cbn; now rewrite Ho, He.
Qed.

Lemma core_outside (w : World X) (o : Outside X) : core (set_outside w o) = core w.
Proof. reflexivity. Qed.

Lemma core_trace (w : World X) (ev : Event) :
  core {| outside := outside w; sessionManager := sessionManager w;
          memoryPersist := memoryPersist w; clock := clock w;
          ticks := ticks w; range_order := range_order w;
          trace := trace w ++ [ev] |} = core w.
Proof. reflexivity. Qed.

Lemma keeps_core_exec_tool_calls (a : AgentLoop X) (calls : list ToolCall) :
  forall messages last, keeps core (exec_tool_calls a calls messages last).
Proof.
  induction calls as [|tc calls IH]; intros messages last; simpl.
  - apply keeps_ret.
  - apply keeps_bind; [|intros r; apply IH].
    apply keeps_tools_Execute; [apply core_outside | apply core_trace].
Qed.

Lemma keeps_core_Run_tool_loop (a : AgentLoop X) (fuel : nat) :
  forall messages last, keeps core (Run_tool_loop a fuel messages last).
Proof.
  induction fuel as [|fuel IH]; intros messages last; simpl.
  - apply keeps_ret.
  - apply keeps_bind;
      [apply keeps_provider_Chat; [apply core_outside | apply core_trace]|].
    intros [resp|e].
    + destruct (HasToolCalls resp); [|apply keeps_ret].
      apply keeps_bind; [apply keeps_core_exec_tool_calls | intros p; apply IH].
    + frame.
Qed.

Lemma keeps_core_GetMemoryContext (a : AgentLoop X) :
  keeps core (memory_GetMemoryContext a).
Proof. unfold memory_GetMemoryContext. frame. Qed.

Lemma keeps_core_recall (channel chatID content_ : string) :
  keeps core (recall (X := X) channel chatID content_).
Proof. unfold recall, persist_QueryHistory. frame. Qed.

Lemma keeps_core_BuildMessages (cb : ContextBuilder) (history : list Message)
    (cur channel chatID memCtx : string) (memories : list MemoryItem) :
  keeps core (BuildMessages (X := X) cb history cur channel chatID memCtx memories).
Proof.
  unfold BuildMessages. apply keeps_bind; [frame|]. intros now.
  apply keeps_bind; [frame|]. intros fs_.
  destruct (skillsLoader cb fs_) as [sk err]. frame.
Qed.

(** After the session is resolved, steps 3 to 6 write neither the
    sessions nor the persistent memory. *)
Lemma steps_3_to_6_core (a : AgentLoop X) (channel chatID content_ : string)
    (w w1 : World X) (reply : string) :
  steps_3_to_6 a channel chatID content_ w = Done reply w1 ->
  core w1 =
  (snd (GetOrCreate (sessionManager w) (channel +:+ ":" +:+ chatID)),
   memoryPersist w, range_order w).
Proof.
  unfold steps_3_to_6. unfold bind at 1. unfold sessions_GetOrCreate at 1.
  intros H.
  match type of H with ?m ?w0 = _ =>
    assert (Hk : keeps core m);
      [|specialize (Hk w0); rewrite H in Hk; exact Hk]
  end.
  apply keeps_bind; [apply keeps_core_GetMemoryContext|]. intros r.
  apply keeps_bind; [apply keeps_core_recall|]. intros memories.
  apply keeps_bind; [frame|]. intros history.
  apply keeps_bind; [apply keeps_core_BuildMessages|]. intros messages.
  apply keeps_bind; [apply keeps_core_Run_tool_loop|]. intros p. apply keeps_ret.
Qed.

Lemma bind_Done_inv {A B} (m : M X A) (f : A -> M X B) (w w' : World X) (b : B) :
  bind m f w = Done b w' -> exists a w1, m w = Done a w1 /\ f a w1 = Done b w'.
Proof.
  unfold bind. destruct (m w) as [a w1|e w1]; [|discriminate].
  intros H. now exists a, w1.
Qed.

Lemma all_events_Done {A} (Q : Event -> Prop) (m : M X A) (w w1 : World X) (a : A) :
  all_events Q m -> m w = Done a w1 ->
  exists tr, trace w1 = trace w ++ tr /\ Forall Q tr.
Proof. intros Hm Hw. specialize (Hm w). now rewrite Hw in Hm. Qed.

Lemma keeps_Done {A B} (f : World X -> B) (m : M X A) (w w1 : World X) (a : A) :
  keeps f m -> m w = Done a w1 -> f w1 = f w.
Proof. intros Hm Hw. specialize (Hm w). now rewrite Hw in Hm. Qed.

Lemma store_calls_none (tr : list Event) :
  Forall (fun ev => is_store ev = false) tr -> store_calls tr = [].
Proof.
  induction 1 as [|ev tr Hev _ IH]; simpl; [reflexivity|].
  destruct ev; simpl in *; try exact IH. discriminate.
Qed.

Lemma steps_3_to_6_no_store (a : AgentLoop X) (channel chatID content_ : string) :
  all_events (fun ev => is_store ev = false) (steps_3_to_6 a channel chatID content_).
Proof.
  unfold steps_3_to_6, recall.
  apply all_events_bind; [quiet|]. intros _.
  apply all_events_bind; [quiet|]. intros r.
  apply all_events_bind; [quiet|]. intros memories.
  apply all_events_bind; [quiet|]. intros history.
  apply all_events_bind; [quiet|]. intros messages.
  apply all_events_bind; [|intros p; apply all_events_ret].
  apply all_events_Run_tool_loop; intros; reflexivity.
Qed.

Ltac no_store_in H tr T S :=
  match type of H with
  | ?m ?w0 = Done _ _ =>
      let Hq := fresh in
      assert (Hq : all_events (fun ev => is_store ev = false) m) by quiet;
      destruct (all_events_Done _ _ _ _ _ Hq H) as (tr & T & S); clear Hq
  end.

Ltac core_kept_in H C :=
  match type of H with
  | ?m ?w0 = Done _ _ =>
      let Hq := fresh in
      assert (Hq : keeps core m) by frame;
      pose proof (keeps_Done _ _ _ _ _ Hq H) as C; clear Hq
  end.

(** The rows the archive adds: one per message the embedder accepts, in
    order, and none on a closed connection. *)
Lemma archive_all_rows (c : string) (msgs : list Message) :
  forall m : MemoryPersist,
    exists stored : list Row,
      rows (db (archive_all m c msgs)) = rows (db m) ++ stored /\
      Forall2 (archived_as c m) stored
        (if broken (db m) then []
         else List.filter (fun x => is_Ok (embedder m (Content x))) msgs).
Proof.
  induction msgs as [|x msgs IH]; intros m; cbn [archive_all List.filter].
  - exists []. rewrite app_nil_r. split; [reflexivity|]. destruct (broken (db m)); constructor.
  - destruct (IH (snd (StoreHistory m c (Role x) (Content x) (Timestamp x))))
      as (stored & Hrows & Hall).
    unfold StoreHistory in *.
    destruct (embedder m (Content x)) as [v|e|e] eqn:E; cbn [snd is_Ok] in *.
    + destruct (broken (db m)) eqn:B; cbn [snd] in *.
      * rewrite B in Hall. now exists stored.
      * cbn in Hrows, Hall. eexists (_ :: stored). split.
        { rewrite Hrows, <- app_assoc. reflexivity. }
        constructor; [|exact Hall].
        repeat split. exists v. split; [exact E | reflexivity].
    + exists stored. split; assumption.
    + exists stored. split; assumption.
Qed.

Lemma keeps_memoryPersist_Save (key : string) :
  keeps (X := X) memoryPersist (sessions_Save key).
Proof.
  intros w0. unfold sessions_Save, bind, emit. cbn.
  destruct (Save _ _ _) as [[r sm'] fs']. now destruct r.
Qed.

Lemma keeps_memoryPersist_send_Out (out : Outbound) :
  keeps (X := X) memoryPersist (send_Out out).
Proof.
  intros w0. destruct (send_Out_run out w0) as (tr & _ & ->). reflexivity.
Qed.

(** The persistent memory after the loop of the archive. *)
Lemma for_each_store_trimmed_memory (channel chatID : string) (msgs : list Message) :
  forall (w0 w1 : World X) (m : MemoryPersist),
    memoryPersist w0 = Some m ->
    for_each msgs (store_trimmed channel chatID) w0 = Done tt w1 ->
    memoryPersist w1 =
      Some (archive_all m (channel +:+ chatID) (List.filter not_user msgs)).
Proof.
  induction msgs as [|x msgs IH]; intros w0 w1 m Hm H.
  - injection H as <-. exact Hm.
  - cbn [for_each] in H. apply bind_Done_inv in H as ([] & w2 & H2 & H).
    cbn [List.filter]. unfold store_trimmed in H2. fold (not_user x) in H2.
    destruct (not_user x).
    + cbn [archive_all]. apply (IH w2 w1); [|exact H].
      unfold persist_StoreHistory, bind, emit, lift, log, emit, ret in H2.
      cbn in H2. rewrite Hm in H2.
      destruct (StoreHistory m _ _ _ _) as [r m2]. cbn in H2.
      destruct r as [[]|e|e]; cbn in H2; [| |discriminate];
        injection H2 as <-; reflexivity.
    + injection H2 as <-. now apply (IH w0 w1).
Qed.

Lemma archive_memory (channel chatID : string) (w0 w1 : World X) (m : MemoryPersist) :
  memoryPersist w0 = Some m ->
  archive channel chatID w0 = Done tt w1 ->
  memoryPersist w1 =
    Some (archive_all m (channel +:+ chatID)
            (List.filter not_user
               (fst (TrimAll (range_order w0 (sessions (sessionManager w0)))
                       (sessionManager w0))))).
Proof.
  intros Hm H.
  unfold archive, get_memoryPersist, sessions_TrimAll, bind in H. rewrite Hm in H.
  destruct (TrimAll (range_order w0 (sessions (sessionManager w0))) (sessionManager w0))
    as [msgs sm'] eqn:E. cbn [fst].
  apply (for_each_store_trimmed_memory channel chatID msgs
           (set_sessionManager w0 sm') w1 m Hm H).
Qed.

(** C10, amended.  Take a message that does not meet the remember
    pattern, with the persistent memory on, whose processing returns.  Let
    [sm1] be the sessions at the archive step: those of the start, with
    the session of the message resolved and extended by the user turn and
    the assistant turn.  Then the calls of [StoreHistory] made for this
    message are exactly the messages [TrimAll] returns on [sm1] that are
    not user messages, each with its own role, content and timestamp, and
    all of them under the channel id [Channel +:+ ChatID] of the inbound
    message, without a separator.  [TrimAll] returns the overflow of every
    session of the map, so this includes messages of other sessions.  The
    channel id is never the key of the session of the inbound message.
    The persistent memory at the end is the one of the start after these
    calls: its table is the old one followed by one row per archived
    message the embedder accepts (none on a closed connection), in order,
    each with this channel id and the role, the content and the timestamp
    of its message. *)
Theorem archive_under_inbound_channel
    (a : AgentLoop X) (msg : Inbound) (w w' : World X) (m : MemoryPersist) :
  process_message a msg w = Done tt w' ->
  length (FindStringSubmatch rememberRE (TrimSpace (in_Content msg))) <> 2%nat ->
  memoryPersist w = Some m ->
  let c := in_Channel msg +:+ in_ChatID msg in
  let key := in_Channel msg +:+ ":" +:+ in_ChatID msg in
  let s0 := fst (GetOrCreate (sessionManager w) key) in
  exists (finalContent t1 t2 : string) (tr : list Event),
    let s1 := AddMessage s0 "user" (in_Content msg) t1 in
    let s2 := AddMessage s1 "assistant" finalContent t2 in
    let sm1 :=
      update_session
        (update_session (snd (GetOrCreate (sessionManager w) key)) key s1) key s2 in
    let order := range_order w (sessions sm1) in
    let archived := List.filter not_user (fst (TrimAll order sm1)) in
    trace w' = trace w ++ tr /\
    store_calls tr = map (store_call_of c) archived /\
    (iteration_order order sm1 ->
     fst (TrimAll order sm1) = trimmed_prefixes order (sessions sm1)) /\
    c <> key /\
    memoryPersist w' = Some (archive_all m c archived) /\
    exists stored : list Row,
      rows (db (archive_all m c archived)) = rows (db m) ++ stored /\
      Forall2 (archived_as c m) stored
        (if broken (db m) then []
         else List.filter (fun x => is_Ok (embedder m (Content x))) archived).
Proof.
  intros H Hlen Hmp c key s0.
  unfold process_message in H.
  destruct (length _ =? 2)%nat eqn:E; [apply Nat.eqb_eq in E; contradiction|].
  clear E Hlen.
  apply bind_Done_inv in H as ([] & wa & Ha & H).
  apply bind_Done_inv in H as ([] & wb & Hb & H).
  apply bind_Done_inv in H as ([] & wc & Hc & H).
  apply bind_Done_inv in H as (fc & wd & Hd & H).
  apply bind_Done_inv in H as ([] & we & He & H).
  apply bind_Done_inv in H as ([] & wf & Hf & H).
  apply bind_Done_inv in H as ([] & wg & Hg & H).
  apply bind_Done_inv in H as ([] & wh & Hh & H).
  (* the steps before the session is extended *)
  no_store_in Ha ta Ta Sa. core_kept_in Ha Ca.
  no_store_in Hb tb Tb Sb. core_kept_in Hb Cb.
  no_store_in Hc tx Tx Sx. core_kept_in Hc Cc.
  destruct (all_events_Done _ _ _ _ _ (steps_3_to_6_no_store _ _ _ _) Hd)
    as (td & Td & Sd).
  pose proof (steps_3_to_6_core _ _ _ _ _ _ _ Hd) as Cd.
  assert (Cw : core wc = core w) by congruence.
  injection Cw as Cw1 Cw2 Cw3. rewrite Cw1, Cw2, Cw3 in Cd.
  injection Cd as Cd1 Cd2 Cd3. fold key in Cd1.
  (* the two turns *)
  rewrite (session_AddMessage_run key _ _ s0) in He
    by (rewrite Cd1; apply GetOrCreate_lookup).
  injection He as <-.
  rewrite (session_AddMessage_run key _ _
             (AddMessage s0 "user" (in_Content msg) (rfc3339 (clock wd (ticks wd)))))
    in Hf by (cbn; apply lookup_insert_eq).
  injection Hf as <-.
  (* the archive *)
  match type of Hg with
  | archive _ _ ?wf0 = _ =>
      destruct (archive_run (in_Channel msg) (in_ChatID msg) wf0 m)
        as (tg & Tg & _ & Sg); [cbn; congruence|]
  end.
  rewrite Hg in Tg. cbn [world_of] in Tg. specialize (Sg wg Hg).
  cbn -[TrimAll AddMessage GetOrCreate] in Tg, Sg. rewrite Cd1, Cd3 in Sg.
  (* the steps after it *)
  no_store_in Hh th Th Sh.
  no_store_in H ti Ti Si.
  exists fc, (rfc3339 (clock wd (ticks wd))), (rfc3339 (clock wd (S (ticks wd)))),
    (ta ++ tb ++ tx ++ td ++ tg ++ th ++ ti).
  cbn zeta. split; [|split; [|split; [|split; [|split]]]].
  - rewrite Ti, Th, Tg, Td, Tx, Tb, Ta. now rewrite <- !app_assoc.
  - rewrite !store_calls_app.
    rewrite (store_calls_none ta Sa), (store_calls_none tb Sb),
      (store_calls_none tx Sx), (store_calls_none td Sd),
      (store_calls_none th Sh), (store_calls_none ti Si).
    cbn [app]. rewrite app_nil_r. exact Sg.
  - intros Hord. now apply TrimAll_spec.
  - apply archive_channel_not_key.
  - (* the database after the archive is the final one *)
    pose proof (keeps_Done _ _ _ _ _ (keeps_memoryPersist_Save key) Hh) as Mh.
    pose proof (keeps_Done _ _ _ _ _ (keeps_memoryPersist_send_Out _) H) as Mi.
    rewrite Mi, Mh.
    match type of Hg with
    | archive _ _ ?wf0 = _ =>
        assert (Mf : memoryPersist wf0 = Some m) by (cbn; congruence);
        pose proof (archive_memory (in_Channel msg) (in_ChatID msg) wf0 wg m Mf Hg) as Mg
    end.
    cbn -[TrimAll AddMessage GetOrCreate archive_all] in Mg.
    rewrite Cd1, Cd3 in Mg. exact Mg.
  - apply archive_all_rows.
Qed.

End Frames.

(** ** The theorems on a small installation *)

Lemma QueryHistory_contract_witness :
  exists v : list F32.t,
    embedder demo_memory "what is the password" = Ok v /\
    Forall (fun it => F64.leb (F64.of_f32 default_threshold) (Similarity it) = true)
      demo_items /\
    non_increasing (map Similarity demo_items) /\
    Z.of_nat (length demo_items) <= 10 /\
    (sel_channel (QueryHistory_stmt (set_db demo_memory demo_db) v "c1" 0) = Some "c1"%string) /\
    (("c1" : string) <> ""%string ->
     Forall (fun it => exists r, List.In r (rows demo_db) /\ channel_id r = "c1"%string /\
                                 item_of_row (floatsToBytes v) it r) demo_items) /\
    (("c1" : string) = ""%string ->
     forall g, QueryHistory (set_db demo_memory (relabel g demo_db)) "c1"
                 "what is the password" 0 = Ok demo_items).
Proof.
  apply (QueryHistory_contract demo_conf demo_engine
           {| rows := []; seq := 0; broken := false |} demo_db demo_memory
           "c1" "what is the password" 0 demo_items).
  - reflexivity.
  - vm_compute. reflexivity.
Defined.

Lemma Trim_splits_and_Save_bounds_witness :
  fst (Trim demo_long) ++ History (snd (Trim demo_long)) = History demo_long /\
  ((length (History demo_long) <= 50)%nat -> fst (Trim demo_long) = []) /\
  exists (r : outcome unit) (sm' : SessionManager) (fs' : FS) (s' : Session),
    Save demo_sessions demo_fs "ntfy:7" = (r, sm', fs') /\
    sessions sm' !! ("ntfy:7" : string) = Some s' /\
    s' = snd (Trim demo_long) /\
    (length (History s') <= 50)%nat /\
    (r = Ok tt ->
     session_files fs' !! filepath_Join (filepath_Join (workspace demo_sessions) "sessions")
                            (Key demo_long +:+ ".json") = Some s').
Proof.
  apply (Trim_splits_and_Save_bounds demo_sessions demo_fs "ntfy:7" demo_long).
  vm_compute. reflexivity.
Defined.

(** The session of 51 messages loses its oldest message, and keeps 50. *)
Example Trim_demo_long :
  fst (Trim demo_long) = [demo_old] /\ length (History (snd (Trim demo_long))) = 50%nat.
Proof. split; reflexivity. Qed.

(** A message of chat 42 on telegram arrives while the session "ntfy:7"
    overflows: the old answer of that session is archived under
    "telegram42". *)
Example archive_of_another_session :
  is_Done (process_message demo_agent demo_hello demo_world_memory) = true /\
  store_calls (trace (world_of (process_message demo_agent demo_hello demo_world_memory))) =
    [("telegram42", "assistant", "the password is 42", "2026-10-30T08:00:00Z")]%string /\
  map (fun r => (channel_id r, content r))
    (match memoryPersist
             (world_of (process_message demo_agent demo_hello demo_world_memory)) with
     | Some m' => rows (db m')
     | None => []
     end) =
    [("telegram42", "the password is 42")]%string.
Proof. repeat split; vm_compute; reflexivity. Qed.

Lemma is_Done_eq {X : Type} (r : run X unit) :
  is_Done r = true -> r = Done tt (world_of r).
Proof. destruct r as [[] w|e w]; [reflexivity | discriminate]. Qed.

(** C10, as stated, fails.  A message of chat ":7" on ntfy arrives while
    the session "ntfy:7" overflows: the channel id of the archive,
    "ntfy" followed by ":7", is the key of the very session the archived
    message comes from. *)
Lemma archive_under_own_session_key :
  ~ archived_as_claimed demo_colon demo_sessions
      (match memoryPersist
               (world_of (process_message demo_agent demo_colon demo_world_memory)) with
       | Some m' => rows (db m')
       | None => []
       end).
Proof.
  intros H.
  destruct (H "ntfy:7"%string demo_long demo_old eq_refl (or_introl eq_refl))
    as (r & _ & _ & _ & _ & Hc & Hk).
  apply Hk. rewrite Hc. reflexivity.
Qed.

(** The row of this run: the old answer of the session "ntfy:7", stored
    under "ntfy:7". *)
Example archive_of_session_ntfy_7 :
  is_Done (process_message demo_agent demo_colon demo_world_memory) = true /\
  fst (Trim demo_long) = [demo_old] /\
  map (fun r => (channel_id r, role r, content r))
    (match memoryPersist
             (world_of (process_message demo_agent demo_colon demo_world_memory)) with
     | Some m' => rows (db m')
     | None => []
     end) =
    [("ntfy:7", "assistant", "the password is 42")]%string.
Proof. repeat split; vm_compute; reflexivity. Qed.

Lemma archive_under_inbound_channel_witness :
  let w := demo_world_memory in
  let w' := world_of (process_message demo_agent demo_hello demo_world_memory) in
  let m := demo_memory in
  let c := ("telegram" +:+ "42")%string in
  let key := ("telegram" +:+ ":" +:+ "42")%string in
  let s0 := fst (GetOrCreate (sessionManager w) key) in
  exists (finalContent t1 t2 : string) (tr : list Event),
    let s1 := AddMessage s0 "user" "hello" t1 in
    let s2 := AddMessage s1 "assistant" finalContent t2 in
    let sm1 :=
      update_session
        (update_session (snd (GetOrCreate (sessionManager w) key)) key s1) key s2 in
    let order := range_order w (sessions sm1) in
    let archived := List.filter not_user (fst (TrimAll order sm1)) in
    trace w' = trace w ++ tr /\
    store_calls tr = map (store_call_of c) archived /\
    (iteration_order order sm1 ->
     fst (TrimAll order sm1) = trimmed_prefixes order (sessions sm1)) /\
    c <> key /\
    memoryPersist w' = Some (archive_all m c archived) /\
    exists stored : list Row,
      rows (db (archive_all m c archived)) = rows (db m) ++ stored /\
      Forall2 (archived_as c m) stored
        (if broken (db m) then []
         else List.filter (fun x => is_Ok (embedder m (Content x))) archived).
Proof.
  apply (archive_under_inbound_channel demo_agent demo_hello demo_world_memory
           (world_of (process_message demo_agent demo_hello demo_world_memory))
           demo_memory).
  - apply is_Done_eq. vm_compute. reflexivity.
  - vm_compute. intros H. discriminate H.
  - reflexivity.
Defined.

(** ** The direct mode *)

(** C8, as stated, fails.  With a persistent memory that holds a row for
    "clidirect" and a provider that answers with an empty text, steps 3 to
    6 query the persistent memory and fall back to the text for an empty
    reply, while [ProcessDirect] does not query it and returns the empty
    text. *)
Lemma ProcessDirect_differs_from_steps :
  ~ direct_meets_spec demo_agent "what is the password" demo_world_cli.
Proof.
  unfold direct_meets_spec.
  assert (H1 : exists w1,
             ProcessDirect demo_agent "what is the password" demo_world_cli =
             Done (inl ""%string) w1).
  { destruct (ProcessDirect demo_agent "what is the password" demo_world_cli)
      as [[r|e] w1|e w1] eqn:E.
    - exists w1. f_equal. f_equal.
      apply (f_equal (fun x => match x with Done (inl r) _ => r | _ => "x"%string end)) in E.
      vm_compute in E. now subst.
    - exfalso.
      apply (f_equal (fun x => match x with Done (inl r) _ => true | _ => false end)) in E.
      vm_compute in E. discriminate.
    - exfalso. apply (f_equal is_Done) in E. vm_compute in E. discriminate. }
  destruct H1 as [w1 ->].
  destruct (direct_as_specified demo_agent "what is the password" demo_world_cli)
    as [r' w2|e w2] eqn:E; [|exact (fun H => H)].
  apply (f_equal (fun x => match x with Done r _ => r | _ => ""%string end)) in E.
  vm_compute in E. subst r'.
  intros [H _]. discriminate H.
Qed.

(** The two differences, one by one. *)
Example ProcessDirect_does_not_query :
  query_calls (trace (world_of (ProcessDirect demo_agent "what is the password"
                                  demo_world_cli))) = [] /\
  query_calls (trace (world_of (direct_as_specified demo_agent "what is the password"
                                  demo_world_cli))) =
    [EvQueryHistory "clidirect" "what is the password" 0].
Proof. split; vm_compute; reflexivity. Qed.

Example ProcessDirect_empty_reply :
  match ProcessDirect demo_agent "what is the password" demo_world with
  | Done r _ => r = inl ""%string
  | Crashed _ _ => False
  end /\
  match direct_as_specified demo_agent "what is the password" demo_world with
  | Done r _ => r = "I've completed processing but have no response to give."%string
  | Crashed _ _ => False
  end.
Proof. split; vm_compute; reflexivity. Qed.

Section Direct.

Context {X : Type}.

Lemma ignores_ret {A} (a : A) : ignores_sessions (ret (X := X) a).
Proof. intros w sm. reflexivity. Qed.

Lemma ignores_bind {A B} (m : M X A) (f : A -> M X B) :
  ignores_sessions m -> (forall a, ignores_sessions (f a)) ->
  ignores_sessions (bind m f).
Proof.
  intros Hm Hf w sm. unfold bind. rewrite Hm.
  destruct (m w) as [a w1|e w1]; simpl; [apply Hf | reflexivity].
Qed.

Lemma ignores_for_each {A} (l : list A) (body : A -> M X unit) :
  (forall x, ignores_sessions (body x)) -> ignores_sessions (for_each l body).
Proof.
  intros Hb. induction l as [|x l IH]; simpl.
  - apply ignores_ret.
  - apply ignores_bind; [apply Hb | intros _; exact IH].
Qed.

Ltac ignore :=
  repeat first
    [ apply ignores_ret
    | apply ignores_bind; [|intros ?]
    | apply ignores_for_each; intros ?
    | match goal with
      | |- ignores_sessions (match ?x with _ => _ end) => destruct x
      | |- ignores_sessions (if ?b then _ else _) => destruct b
      end
    | solve [ intros ?w ?sm;
              unfold time_Now, emit, log, emit, lift, get_fs, get_memoryPersist,
                set_tool_context;
              cbn;
              repeat (match goal with
                      | |- context [match ?x with _ => _ end] => destruct x
                      end; cbn);
              reflexivity ] ].

Lemma ignores_provider_Chat (a : AgentLoop X) (messages : list PMessage) :
  ignores_sessions (provider_Chat a messages).
Proof.
  unfold provider_Chat. apply ignores_bind; [ignore|]. intros _.
  apply ignores_bind; [|intros r; ignore].
  intros w sm. cbn. now destruct (provider _ _ _ _ _ _ _).
Qed.

Lemma ignores_tools_Execute (a : AgentLoop X) (name : string) (args : JSON) :
  ignores_sessions (tools_Execute a name args).
Proof.
  unfold tools_Execute. apply ignores_bind; [ignore|]. intros _.
  apply ignores_bind; [|intros r; ignore].
  intros w sm. cbn. now destruct (Execute _ _ _ _).
Qed.

Lemma ignores_exec_tool_calls (a : AgentLoop X) (calls : list ToolCall) :
  forall messages last, ignores_sessions (exec_tool_calls a calls messages last).
Proof.
  induction calls as [|c calls IH]; intros messages last; simpl.
  - apply ignores_ret.
  - apply ignores_bind; [apply ignores_tools_Execute | intros r; apply IH].
Qed.

Lemma ignores_Run_tool_loop (a : AgentLoop X) (fuel : nat) :
  forall messages last, ignores_sessions (Run_tool_loop a fuel messages last).
Proof.
  induction fuel as [|fuel IH]; intros messages last; simpl.
  - apply ignores_ret.
  - apply ignores_bind; [apply ignores_provider_Chat|].
    intros [resp|e]; [|ignore].
    destruct (HasToolCalls resp); [|apply ignores_ret].
    apply ignores_bind; [apply ignores_exec_tool_calls | intros p; apply IH].
Qed.

Lemma ignores_GetMemoryContext (a : AgentLoop X) :
  ignores_sessions (memory_GetMemoryContext a).
Proof.
  unfold memory_GetMemoryContext. apply ignores_bind; [ignore|]. intros now.
  apply ignores_bind; [|intros r; ignore]. intros w sm. reflexivity.
Qed.

Lemma ignores_BuildMessages (cb : ContextBuilder) (history : list Message)
    (cur channel chatID memCtx : string) (memories : list MemoryItem) :
  ignores_sessions (BuildMessages (X := X) cb history cur channel chatID memCtx memories).
Proof.
  unfold BuildMessages. apply ignores_bind; [ignore|]. intros now.
  apply ignores_bind; [ignore|]. intros fs_.
  destruct (skillsLoader cb fs_) as [sk err]. ignore.
Qed.

(** The two loops make the same calls; when the direct one returns a
    reply that is neither empty nor the text of the exhaustion, it is the
    reply the loop of [Run] and its fallbacks give. *)
Lemma loops_agree (a : AgentLoop X) (fuel : nat) :
  forall (messages : list PMessage) (last reply : string) (w w' : World X),
    ProcessDirect_loop a fuel messages last w = Done (inl reply) w' ->
    reply <> ""%string -> reply <> exhausted ->
    exists finalContent lastToolResult,
      Run_tool_loop a fuel messages last w = Done (finalContent, lastToolResult) w' /\
      final_reply finalContent lastToolResult = reply.
Proof.
  induction fuel as [|fuel IH]; intros messages last reply w w' H Hne Hex; simpl in *.
  - injection H as H _. congruence.
  - apply bind_Done_inv in H as (r & w1 & Hr & H).
    rewrite (bind_run _ _ _ _ _ Hr).
    destruct r as [resp|e]; [|discriminate].
    destruct (HasToolCalls resp); simpl in H.
    + apply bind_Done_inv in H as (p & w2 & Hp & H).
      rewrite (bind_run _ _ _ _ _ Hp). now apply IH.
    + unfold final_reply.
      destruct (String.eqb_spec (resp_Content resp) "") as [Hc|Hc]; simpl in H.
      * destruct (String.eqb_spec last "") as [Hl|Hl]; simpl in H;
          injection H as Hreply Hw; subst w'.
        -- congruence.
        -- exists (resp_Content resp), last. split; [reflexivity|].
           rewrite Hc. simpl. destruct (String.eqb_spec last ""); [contradiction|].
           exact Hreply.
      * injection H as Hreply Hw. subst w'.
        exists (resp_Content resp), last. split; [reflexivity|].
        destruct (String.eqb_spec (resp_Content resp) ""); [contradiction|].
        exact Hreply.
Qed.

Lemma ignores_run {A} (m : M X A) (w w1 : World X) (a : A) (sm : SessionManager) :
  ignores_sessions m -> m w = Done a w1 ->
  m (set_sessionManager w sm) = Done a (set_sessionManager w1 sm).
Proof. intros Hm Hw. rewrite Hm, Hw. reflexivity. Qed.

Lemma keeps_core_set_tool_context (a : AgentLoop X) (name channel chatID : string) :
  keeps core (set_tool_context a name channel chatID).
Proof. frame. Qed.

Lemma keeps_core_ProcessDirect_loop (a : AgentLoop X) (fuel : nat) :
  forall messages last, keeps core (ProcessDirect_loop a fuel messages last).
Proof.
  induction fuel as [|fuel IH]; intros messages last; simpl.
  - apply keeps_ret.
  - apply keeps_bind;
      [apply keeps_provider_Chat; [apply core_outside | apply core_trace]|].
    intros [resp|e]; [|apply keeps_ret].
    destruct (HasToolCalls resp); simpl.
    + apply keeps_bind; [apply keeps_core_exec_tool_calls | intros p; apply IH].
    + destruct (negb _); [apply keeps_ret|]. destruct (negb _); apply keeps_ret.
Qed.

(** [ProcessDirect] writes neither the sessions nor the persistent
    memory, whatever it returns. *)
Lemma ProcessDirect_keeps_core (a : AgentLoop X) (content_ : string) :
  keeps core (ProcessDirect a content_).
Proof.
  unfold ProcessDirect.
  apply keeps_bind; [frame|]. intros _.
  apply keeps_bind; [frame|]. intros _.
  apply keeps_bind; [apply keeps_core_GetMemoryContext|]. intros r.
  apply keeps_bind; [apply keeps_core_BuildMessages|]. intros messages.
  apply keeps_core_ProcessDirect_loop.
Qed.

Lemma all_events_ProcessDirect_loop (Q : Event -> Prop) (a : AgentLoop X) (fuel : nat) :
  (forall messages, Q (EvChat messages)) ->
  (forall name args, Q (EvExecute name args)) ->
  forall messages last, all_events Q (ProcessDirect_loop a fuel messages last).
Proof.
  intros HC HE. induction fuel as [|fuel IH]; intros messages last; simpl.
  - apply all_events_ret.
  - apply all_events_bind; [now apply all_events_provider_Chat|].
    intros [resp|e]; [|apply all_events_ret].
    destruct (HasToolCalls resp); simpl.
    + apply all_events_bind; [now apply all_events_exec_tool_calls|].
      intros p. apply IH.
    + destruct (negb _); [apply all_events_ret|].
      destruct (negb _); apply all_events_ret.
Qed.

(** [ProcessDirect] never calls [QueryHistory]. *)
Lemma ProcessDirect_no_query (a : AgentLoop X) (content_ : string) :
  all_events (fun ev => is_query ev = false) (ProcessDirect a content_).
Proof.
  unfold ProcessDirect.
  apply all_events_bind; [quiet|]. intros _.
  apply all_events_bind; [quiet|]. intros _.
  apply all_events_bind; [quiet|]. intros r.
  apply all_events_bind; [quiet|]. intros messages.
  apply all_events_ProcessDirect_loop; intros; reflexivity.
Qed.

Lemma query_calls_none (tr : list Event) :
  Forall (fun ev => is_query ev = false) tr -> query_calls tr = [].
Proof.
  induction 1 as [|ev tr Hev _ IH]; [reflexivity|].
  unfold query_calls in *. cbn [List.filter]. now rewrite Hev.
Qed.

Lemma query_calls_app (t1 t2 : list Event) :
  query_calls (t1 ++ t2) = query_calls t1 ++ query_calls t2.
Proof. unfold query_calls. apply List.filter_app. Qed.

Lemma ProcessDirect_no_store (a : AgentLoop X) (content_ : string) :
  all_events (fun ev => is_store ev = false) (ProcessDirect a content_).
Proof.
  unfold ProcessDirect.
  apply all_events_bind; [quiet|]. intros _.
  apply all_events_bind; [quiet|]. intros _.
  apply all_events_bind; [quiet|]. intros r.
  apply all_events_bind; [quiet|]. intros messages.
  apply all_events_ProcessDirect_loop; intros; reflexivity.
Qed.

(** C8, amended.  On every input and every state, whether it returns or
    panics, [ProcessDirect] writes neither the sessions nor the persistent
    memory, and calls neither [QueryHistory] nor [StoreHistory].  When it
    returns a reply that is neither empty nor the text of the exhaustion,
    on a state where the persistent memory is off and the session
    "cli:direct" has no history, then the tool context of step 2 followed
    by steps 3 to 6 with channel "cli" and chat "direct" returns the same
    reply, with the same provider and tool state and the same trace of
    calls; the only difference in the final state is that steps 3 to 6
    have resolved the session "cli:direct". *)
Theorem ProcessDirect_agrees_with_steps (a : AgentLoop X) (content_ : string)
    (w : World X) :
  let r := ProcessDirect a content_ w in
  core (world_of r) = core w /\
  (exists tr, trace (world_of r) = trace w ++ tr /\
              query_calls tr = [] /\ store_calls tr = []) /\
  forall (reply : string) (w' : World X),
    r = Done (inl reply) w' ->
    reply <> ""%string ->
    reply <> exhausted ->
    memoryPersist w = None ->
    (forall s, sessions (sessionManager w) !! ("cli" +:+ ":" +:+ "direct")%string = Some s ->
               History s = []) ->
    direct_as_specified a content_ w =
      Done reply
        (set_sessionManager w'
           (snd (GetOrCreate (sessionManager w) ("cli" +:+ ":" +:+ "direct")%string))).
Proof.
  cbv zeta. split; [apply ProcessDirect_keeps_core|]. split.
  { destruct (ProcessDirect_no_query a content_ w) as (tr & Htr & Hq).
    destruct (ProcessDirect_no_store a content_ w) as (tr' & Htr' & Hs).
    assert (tr' = tr) by (rewrite Htr in Htr'; now apply app_inv_head in Htr').
    subst tr'. exists tr. split; [exact Htr|].
    split; [now apply query_calls_none | now apply store_calls_none]. }
  intros reply w' H Hne Hex Hmp Hhist.
  unfold ProcessDirect in H.
  apply bind_Done_inv in H as ([] & w1 & H1 & H).
  apply bind_Done_inv in H as ([] & w2 & H2 & H).
  apply bind_Done_inv in H as (r & w3 & H3 & H).
  apply bind_Done_inv in H as (messages & w4 & H4 & H).
  apply loops_agree in H as (fc & ltr & HL & Hfr); [|assumption..].
  (* the sessions and the persistent memory before the turn is built *)
  pose proof (keeps_Done _ _ _ _ _ (keeps_core_GetMemoryContext a) H3) as C3.
  pose proof (keeps_Done _ _ _ _ _ (keeps_core_set_tool_context a _ _ _) H2) as C2.
  pose proof (keeps_Done _ _ _ _ _ (keeps_core_set_tool_context a _ _ _) H1) as C1.
  assert (C : core w3 = core w) by congruence.
  assert (C' : core w2 = core w) by congruence.
  injection C as Cs Cm _. injection C' as Cs' _ _.
  set (key := ("cli" +:+ ":" +:+ "direct")%string) in *.
  set (sm := snd (GetOrCreate (sessionManager w) key)).
  (* the run of the specified steps *)
  unfold direct_as_specified.
  rewrite (bind_run _ _ _ _ _ H1), (bind_run _ _ _ _ _ H2).
  unfold ProcessDirect_spec, steps_3_to_6. fold key.
  assert (R0 : sessions_GetOrCreate (X := X) key w2 = Done tt (set_sessionManager w2 sm))
    by (unfold sessions_GetOrCreate, sm; now rewrite Cs').
  rewrite (bind_run _ _ _ _ _ R0).
  rewrite (bind_run _ _ _ _ _
             (ignores_run _ _ _ _ sm (ignores_GetMemoryContext a) H3)).
  assert (R1 : recall (X := X) "cli" "direct" content_ (set_sessionManager w3 sm) =
               Done [] (set_sessionManager w3 sm)).
  { unfold recall, bind, get_memoryPersist. cbn. rewrite Cm, Hmp. reflexivity. }
  rewrite (bind_run _ _ _ _ _ R1).
  assert (R2 : session_GetHistory (X := X) key (set_sessionManager w3 sm) =
               Done [] (set_sessionManager w3 sm)).
  { unfold session_GetHistory. cbn [sessionManager set_sessionManager].
    unfold sm. rewrite GetOrCreate_lookup. unfold GetHistory.
    rewrite GetOrCreate_History.
    destruct (sessions (sessionManager w) !! key) as [s|]; [|reflexivity].
    now rewrite (Hhist s eq_refl). }
  rewrite (bind_run _ _ _ _ _ R2).
  rewrite (bind_run _ _ _ _ _
             (ignores_run _ _ _ _ sm (ignores_BuildMessages _ _ _ _ _ _ _) H4)).
  rewrite (bind_run _ _ _ _ _
             (ignores_run _ _ _ _ sm (ignores_Run_tool_loop a _ _ _) HL)).
  cbn [fst snd]. unfold ret. now rewrite Hfr.
Qed.

End Direct.

Lemma direct_Done_eq {X : Type} (r : run X (string + string)) (reply : string) :
  match r with Done (inl s) _ => String.eqb s reply | _ => false end = true ->
  r = Done (inl reply) (world_of r).
Proof.
  destruct r as [[s|e] w|e w]; try discriminate.
  intros H. apply String.eqb_eq in H. now subst.
Qed.

Lemma ProcessDirect_agrees_with_steps_witness :
  direct_as_specified demo_agent_hi "hello" demo_world =
    Done "hi"%string
      (set_sessionManager (world_of (ProcessDirect demo_agent_hi "hello" demo_world))
         (snd (GetOrCreate (sessionManager demo_world)
                 ("cli" +:+ ":" +:+ "direct")%string))).
Proof.
  apply (proj2 (proj2 (ProcessDirect_agrees_with_steps demo_agent_hi "hello" demo_world))
           "hi"%string (world_of (ProcessDirect demo_agent_hi "hello" demo_world))).
  - apply direct_Done_eq; vm_compute; reflexivity.
  - intros H. discriminate H.
  - intros H. discriminate H.
  - reflexivity.
  - intros s H. vm_compute in H. discriminate H.
Defined.

Section Bytes.

Lemma Z_of_byte_range (b : byte) : 0 <= Z_of_byte b < 256.
Proof.
  unfold Z_of_byte. pose proof (Byte.to_N_bounded b) as H. lia.
Qed.

Lemma Z_of_byte_of_Z (z : Z) : Z_of_byte (byte_of_Z z) = z mod 256.
Proof.
  unfold Z_of_byte, byte_of_Z.
  assert (Hr : 0 <= z mod 256 < 256) by (apply Z.mod_pos_bound; lia).
  destruct (Byte.of_N (Z.to_N (z mod 256))) as [b|] eqn:E.
  - apply Byte.to_of_N in E. rewrite E. lia.
  - apply Byte.of_N_None_iff in E. lia.
Qed.

Lemma lor_high_low (k a n : Z) :
  0 <= n -> 0 <= a < 2 ^ n -> Z.lor (k * 2 ^ n) a = k * 2 ^ n + a.
Proof.
  intros Hn Ha.
  assert (H0 : Z.land (k * 2 ^ n) a = 0).
  { apply Z.bits_inj'; intros i Hi. rewrite Z.land_spec, Z.bits_0.
    destruct (Z.lt_ge_cases i n) as [Hlt|Hge].
    - rewrite Z.mul_pow2_bits_low by lia. reflexivity.
    - rewrite <- (Z.mod_small a (2 ^ n)) by lia.
      rewrite Z.mod_pow2_bits_high by lia. apply andb_false_r. }
  now rewrite <- Z.lxor_lor, <- Z.add_nocarry_lxor.
Qed.

Lemma LittleEndian_Uint32_sum (b0 b1 b2 b3 : byte) :
  LittleEndian_Uint32 b0 b1 b2 b3 =
  Z_of_byte b0 + Z_of_byte b1 * 2 ^ 8 + Z_of_byte b2 * 2 ^ 16 + Z_of_byte b3 * 2 ^ 24.
Proof.
  unfold LittleEndian_Uint32.
  pose proof (Z_of_byte_range b0). pose proof (Z_of_byte_range b1).
  pose proof (Z_of_byte_range b2). pose proof (Z_of_byte_range b3).
  rewrite !Z.shiftl_mul_pow2 by lia.
  rewrite (Z.lor_comm (Z_of_byte b2 * 2 ^ 16)), (lor_high_low _ _ 24) by lia.
  replace (Z_of_byte b3 * 2 ^ 24 + Z_of_byte b2 * 2 ^ 16)
    with ((Z_of_byte b3 * 2 ^ 8 + Z_of_byte b2) * 2 ^ 16) by lia.
  rewrite (Z.lor_comm (Z_of_byte b1 * 2 ^ 8)), (lor_high_low _ _ 16) by lia.
  replace ((Z_of_byte b3 * 2 ^ 8 + Z_of_byte b2) * 2 ^ 16 + Z_of_byte b1 * 2 ^ 8)
    with (((Z_of_byte b3 * 2 ^ 8 + Z_of_byte b2) * 2 ^ 8 + Z_of_byte b1) * 2 ^ 8) by lia.
  rewrite (Z.lor_comm (Z_of_byte b0)), (lor_high_low _ _ 8) by lia.
  lia.
Qed.

Lemma LittleEndian_Uint32_PutUint32 (v : Z) :
  exists b0 b1 b2 b3,
    LittleEndian_PutUint32 v = [b0; b1; b2; b3] /\
    LittleEndian_Uint32 b0 b1 b2 b3 = v mod 2 ^ 32.
Proof.
  eexists _, _, _, _. split; [reflexivity|].
  rewrite LittleEndian_Uint32_sum, !Z_of_byte_of_Z, !Z.shiftr_div_pow2 by lia.
  change (2 ^ 8) with 256. change (2 ^ 16) with 65536.
  change (2 ^ 24) with 16777216. change (2 ^ 32) with 4294967296.
  Z.div_mod_to_equations. lia.
Qed.

(** The number of binary digits of a positive number. *)
Lemma digits2_pos_bounds (m : positive) :
  2 ^ (Zpos (digits2_pos m) - 1) <= Zpos m < 2 ^ Zpos (digits2_pos m).
Proof.
  induction m as [m IH|m IH|]; cbn [digits2_pos].
  - rewrite Pos2Z.inj_succ.
    replace (Z.succ (Zpos (digits2_pos m)) - 1) with (Z.succ (Zpos (digits2_pos m) - 1)) by lia.
    rewrite !Z.pow_succ_r by lia. lia.
  - rewrite Pos2Z.inj_succ.
    replace (Z.succ (Zpos (digits2_pos m)) - 1) with (Z.succ (Zpos (digits2_pos m) - 1)) by lia.
    rewrite !Z.pow_succ_r by lia. lia.
  - cbn. lia.
Qed.

(** What [valid_binary] says of a finite binary32 number: it is
    subnormal with the least exponent, or its mantissa has 24 bits. *)
Lemma valid_float32_finite (s : bool) (m : positive) (e : Z) :
  valid_float32 (S754_finite s m e) = true ->
  (Zpos m < 2 ^ 23 /\ e = -149) \/
  (2 ^ 23 <= Zpos m < 2 ^ 24 /\ -149 <= e <= 104).
Proof.
  unfold valid_float32, valid_binary, bounded, canonical_mantissa, fexp, emin,
    F32.prec, F32.emax.
  intros H. apply andb_prop in H as [Hc He].
  apply Z.leb_le in He. apply Z.eqb_eq in Hc.
  pose proof (digits2_pos_bounds m) as [Hlo Hhi].
  set (d := Zpos (digits2_pos m)) in *.
  assert (Hd : 1 <= d) by (unfold d; lia).
  destruct (Z.lt_ge_cases (Zpos m) (2 ^ 23)) as [Hs|Hn].
  - left. split; [exact Hs|].
    assert (d <= 23).
    { destruct (Z.le_gt_cases d 23) as [|Hgt]; [assumption|].
      assert (2 ^ 23 <= 2 ^ (d - 1)) by (apply Z.pow_le_mono_r; lia). lia. }
    lia.
  - right.
    assert (24 <= d).
    { destruct (Z.le_gt_cases 24 d) as [|Hlt]; [assumption|].
      assert (2 ^ d <= 2 ^ 23) by (apply Z.pow_le_mono_r; lia). lia. }
    assert (d = 24) by lia.
    split; [|lia]. split; [exact Hn|]. replace 24 with d by assumption. exact Hhi.
Qed.

Lemma Float32_fields (sg k a : Z) :
  (sg = 0 \/ sg = 1) -> 0 <= k < 256 -> 0 <= a < 2 ^ 23 ->
  let b := Z.lor (sg * 2 ^ 31) (Z.lor (k * 2 ^ 23) a) in
  Z.testbit b 31 = (sg =? 1) /\
  Z.land (Z.shiftr b 23) 255 = k /\
  Z.land b (Z.ones 23) = a.
Proof.
  intros Hs Hk Ha b.
  assert (Hb : b = sg * 2 ^ 31 + k * 2 ^ 23 + a).
  { unfold b. rewrite (lor_high_low k a 23) by lia.
    rewrite (lor_high_low sg _ 31) by lia. lia. }
  change 255 with (Z.ones 8).
  rewrite !Z.land_ones, Z.shiftr_div_pow2 by lia.
  rewrite Hb. clear b Hb.
  change (2 ^ 31) with 2147483648. change (2 ^ 23) with 8388608 in *.
  change (2 ^ 8) with 256.
  split; [|split].
  - destruct (Z.testbit _ 31) eqn:E.
    + apply Z.testbit_true in E; [|lia]. change (2 ^ 31) with 2147483648 in E.
      symmetry. apply Z.eqb_eq. Z.div_mod_to_equations. lia.
    + destruct (Z.eqb_spec sg 1) as [->|]; [|reflexivity].
      assert (T : Z.testbit (1 * 2147483648 + k * 8388608 + a) 31 = true).
      { apply Z.testbit_true; [lia|]. change (2 ^ 31) with 2147483648.
        Z.div_mod_to_equations. lia. }
      congruence.
  - Z.div_mod_to_equations. lia.
  - Z.div_mod_to_equations. lia.
Qed.

Lemma Float32frombits_fields (sg k a : Z) :
  (sg = 0 \/ sg = 1) -> 0 <= k < 256 -> 0 <= a < 2 ^ 23 ->
  Float32frombits (Z.lor (sg * 2 ^ 31) (Z.lor (k * 2 ^ 23) a)) =
  if k =? 255 then (if a =? 0 then S754_infinity (sg =? 1) else S754_nan)
  else if k =? 0 then
    match a with
    | Zpos p => S754_finite (sg =? 1) p (-149)
    | _ => S754_zero (sg =? 1)
    end
  else
    match Z.lor a (Z.shiftl 1 23) with
    | Zpos p => S754_finite (sg =? 1) p (k - 150)
    | _ => S754_nan
    end.
Proof.
  intros Hs Hk Ha.
  destruct (Float32_fields sg k a Hs Hk Ha) as (H1 & H2 & H3).
  unfold Float32frombits. cbv zeta in H1, H2, H3. rewrite H1, H2, H3. reflexivity.
Qed.

Lemma sign_bit_eqb (s : bool) : (sign_bit s =? 1) = s.
Proof. now destruct s. Qed.

(** [math.Float32frombits] undoes [math.Float32bits] on every binary32
    number (the NaN of the model is its own image). *)
Lemma Float32frombits_Float32bits (x : F32.t) :
  valid_float32 x = true -> Float32frombits (Float32bits x) = x.
Proof.
  intros Hv.
  assert (Hsgn : forall s : bool, (if s then Z.shiftl 1 31 else 0) = sign_bit s * 2 ^ 31)
    by (intros []; reflexivity).
  assert (Hsb : forall s, sign_bit s = 0 \/ sign_bit s = 1)
    by (intros []; [right | left]; reflexivity).
  destruct x as [s|s| |s m e]; cbn [Float32bits].
  - rewrite Hsgn. rewrite <- (Z.lor_0_r (sign_bit s * 2 ^ 31)).
    change 0 with (Z.lor (0 * 2 ^ 23) 0) at 1.
    rewrite Float32frombits_fields by (auto; lia). cbn. now rewrite sign_bit_eqb.
  - rewrite Hsgn. change (Z.shiftl 255 23) with (Z.lor (255 * 2 ^ 23) 0).
    rewrite Float32frombits_fields by (auto; lia). cbn. now rewrite sign_bit_eqb.
  - reflexivity.
  - apply valid_float32_finite in Hv as [[Hm He]|[Hm He]].
    + destruct (Z.ltb_spec (Zpos m) (Z.shiftl 1 23)) as [_|Hge];
        [|change (Z.shiftl 1 23) with (2 ^ 23) in Hge; lia].
      rewrite Hsgn. replace (Zpos m) with (Z.lor (0 * 2 ^ 23) (Zpos m)) at 1
        by apply Z.lor_0_l.
      rewrite Float32frombits_fields by (auto; lia). cbn [Z.eqb].
      now rewrite sign_bit_eqb, He.
    + destruct (Z.ltb_spec (Zpos m) (Z.shiftl 1 23)) as [Hlt|_];
        [change (Z.shiftl 1 23) with (2 ^ 23) in Hlt; lia|].
      rewrite Hsgn, Z.shiftl_mul_pow2, Z.land_ones by lia.
      assert (Ha : Zpos m mod 2 ^ 23 = Zpos m - 2 ^ 23).
      { symmetry. apply Z.mod_unique_pos with (q := 1); lia. }
      rewrite Ha, Float32frombits_fields by (auto; lia).
      destruct (Z.eqb_spec (e + 150) 255); [lia|].
      destruct (Z.eqb_spec (e + 150) 0); [lia|].
      rewrite Z.lor_comm, Z.shiftl_mul_pow2, lor_high_low by lia.
      replace (1 * 2 ^ 23 + (Zpos m - 2 ^ 23)) with (Zpos m) by lia.
      rewrite sign_bit_eqb. f_equal. lia.
Qed.

Lemma LittleEndian_PutUint32_range (v : Z) :
  0 <= v < 2 ^ 32 ->
  exists b0 b1 b2 b3,
    LittleEndian_PutUint32 v = [b0; b1; b2; b3] /\
    LittleEndian_Uint32 b0 b1 b2 b3 = v.
Proof.
  intros Hv. destruct (LittleEndian_Uint32_PutUint32 v) as (b0 & b1 & b2 & b3 & E & H).
  exists b0, b1, b2, b3. split; [exact E|]. rewrite H. apply Z.mod_small. exact Hv.
Qed.

Lemma Float32bits_range (x : F32.t) :
  valid_float32 x = true -> 0 <= Float32bits x < 2 ^ 32.
Proof.
  intros Hv.
  assert (Hsgn : forall s : bool, (if s then Z.shiftl 1 31 else 0) = sign_bit s * 2 ^ 31)
    by (intros []; reflexivity).
  assert (Hsb : forall s, 0 <= sign_bit s <= 1) by (intros []; cbn; lia).
  destruct x as [s|s| |s m e]; cbn [Float32bits].
  - rewrite Hsgn. specialize (Hsb s). lia.
  - rewrite Hsgn. change (Z.shiftl 255 23) with (255 * 2 ^ 23).
    rewrite lor_high_low; specialize (Hsb s); lia.
  - lia.
  - apply valid_float32_finite in Hv as [[Hm He]|[Hm He]].
    + destruct (Z.ltb_spec (Zpos m) (Z.shiftl 1 23)) as [_|Hge];
        [|change (Z.shiftl 1 23) with (2 ^ 23) in Hge; lia].
      rewrite Hsgn, lor_high_low; specialize (Hsb s); lia.
    + destruct (Z.ltb_spec (Zpos m) (Z.shiftl 1 23)) as [Hlt|_];
        [change (Z.shiftl 1 23) with (2 ^ 23) in Hlt; lia|].
      rewrite Hsgn, Z.shiftl_mul_pow2, Z.land_ones by lia.
      assert (Ha : 0 <= Zpos m mod 2 ^ 23 < 2 ^ 23) by (apply Z.mod_pos_bound; lia).
      rewrite (lor_high_low (e + 150)) by lia.
      rewrite lor_high_low; specialize (Hsb s); lia.
Qed.

Lemma decode_floats_floatsToBytes (vec : list F32.t) :
  Forall (fun x => valid_float32 x = true) vec ->
  decode_floats (floatsToBytes vec) = vec.
Proof.
  induction 1 as [|x vec Hx _ IH]; [reflexivity|].
  unfold floatsToBytes in *. cbn [flat_map].
  destruct (LittleEndian_PutUint32_range (Float32bits x) (Float32bits_range x Hx))
    as (b0 & b1 & b2 & b3 & -> & E).
  cbn [app decode_floats]. rewrite E, IH.
  now rewrite Float32frombits_Float32bits.
Qed.

Lemma floatsToBytes_length (vec : list F32.t) :
  length (floatsToBytes vec) = (4 * length vec)%nat.
Proof.
  induction vec as [|x vec IH]; [reflexivity|].
  unfold floatsToBytes in *. cbn [flat_map]. rewrite length_app, IH. cbn. lia.
Qed.

End Bytes.

Section StoredVectors.

Lemma bytesToFloats_floatsToBytes (vec : list F32.t) :
  Forall (fun x => valid_float32 x = true) vec ->
  bytesToFloats (floatsToBytes vec) = Some vec.
Proof.
  intros Hv. unfold bytesToFloats.
  rewrite floatsToBytes_length, mod4_eqb.
  now rewrite decode_floats_floatsToBytes.
Qed.

(** X1. An embedding written to the table is read back as it was:
    [bytesToFloats] undoes [floatsToBytes] on every array of binary32
    numbers, and the BLOB has four bytes per number. *)
Theorem floats_round_trip (vec : list F32.t) :
  Forall (fun x => valid_float32 x = true) vec ->
  length (floatsToBytes vec) = (4 * length vec)%nat /\
  bytesToFloats (floatsToBytes vec) = Some vec.
Proof.
  intros Hv. split; [apply floatsToBytes_length|].
  now apply bytesToFloats_floatsToBytes.
Qed.

Lemma similarity_of_encoded (u v : list F32.t) :
  Forall (fun x => valid_float32 x = true) u ->
  Forall (fun x => valid_float32 x = true) v ->
  cosineSimilarityScalar [VBlob (floatsToBytes u); VBlob (floatsToBytes v)] =
    Ok (VFloat (dot_product (zero_pad (Nat.max (length u) (length v)) u)
                  (zero_pad (Nat.max (length u) (length v)) v))).
Proof.
  intros Hu Hv.
  rewrite (similarity_of_blobs (length u) (length v)) by apply floatsToBytes_length.
  now rewrite !decode_floats_floatsToBytes.
Qed.

(** X2. The similarity SQLite computes for two stored embeddings is the
    dot product of the two arrays, the shorter one extended with zeros;
    it never fails on BLOBs written by [floatsToBytes]. *)
Theorem similarity_of_stored_vectors (u v : list F32.t) :
  Forall (fun x => valid_float32 x = true) u ->
  Forall (fun x => valid_float32 x = true) v ->
  let n := Nat.max (length u) (length v) in
  cosineSimilarityScalar [VBlob (floatsToBytes u); VBlob (floatsToBytes v)] =
    Ok (VFloat (dot_product (zero_pad n u) (zero_pad n v))) /\
  cosineDistanceScalar [VBlob (floatsToBytes u); VBlob (floatsToBytes v)] =
    if (length u =? 0)%nat || (length v =? 0)%nat then Ok (VFloat F64.one)
    else Ok (VFloat (F64.sub F64.one (dot_product (zero_pad n u) (zero_pad n v)))).
Proof.
  intros Hu Hv n. split; [now apply similarity_of_encoded|].
  destruct u as [|x u]; [now rewrite cosine_distance_empty by (left; reflexivity)|].
  destruct v as [|y v]; [now rewrite cosine_distance_empty by (right; reflexivity)|].
  rewrite (distance_of_blobs (length (x :: u)) (length (y :: v)))
    by (try apply floatsToBytes_length; discriminate).
  now rewrite !decode_floats_floatsToBytes.
Qed.

Lemma similarity_of_stored_vectors_witness :
  let u := [F32.of_Z 1; F32.zero] in
  let v := [F32.of_Z 1] in
  cosineSimilarityScalar [VBlob (floatsToBytes u); VBlob (floatsToBytes v)] =
    Ok (VFloat (dot_product (zero_pad 2 u) (zero_pad 2 v))) /\
  cosineDistanceScalar [VBlob (floatsToBytes u); VBlob (floatsToBytes v)] =
    Ok (VFloat (F64.sub F64.one (dot_product (zero_pad 2 u) (zero_pad 2 v)))).
Proof.
  apply (similarity_of_stored_vectors [F32.of_Z 1; F32.zero] [F32.of_Z 1]);
    repeat constructor.
Defined.

Lemma floats_round_trip_witness :
  let vec := [F32.of_Z 1; F32.div (F32.of_Z 1) (F32.of_Z 3); S754_nan;
              S754_infinity true; S754_zero true; S754_finite false 1 (-149)] in
  length (floatsToBytes vec) = 24%nat /\
  bytesToFloats (floatsToBytes vec) = Some vec.
Proof.
  apply (floats_round_trip
           [F32.of_Z 1; F32.div (F32.of_Z 1) (F32.of_Z 3); S754_nan;
            S754_infinity true; S754_zero true; S754_finite false 1 (-149)]).
  repeat constructor.
Defined.

End StoredVectors.

Section Symmetry.

Lemma F32_mul_comm (x y : F32.t) : F32.mul x y = F32.mul y x.
Proof.
  unfold F32.mul.
  destruct x as [sx|sx| |sx mx ex], y as [sy|sy| |sy my ey]; cbn [SFmul];
    try reflexivity; try (now rewrite xorb_comm).
  now rewrite xorb_comm, Pos.mul_comm, Z.add_comm.
Qed.

Lemma dot_loop_comm (u : list F32.t) :
  forall (v : list F32.t) (acc : F64.t),
    length u = length v -> dot_loop u v acc = dot_loop v u acc.
Proof.
  induction u as [|x u IH]; intros [|y v] acc Hlen; try discriminate; [reflexivity|].
  cbn [dot_loop]. rewrite F32_mul_comm. apply IH. now injection Hlen.
Qed.

Lemma decode_floats_length_div (n : nat) :
  forall b : list byte, (length b <= n)%nat ->
    length (decode_floats b) = (length b / 4)%nat.
Proof.
  induction n as [n IH] using (well_founded_induction lt_wf).
  intros [|b0 [|b1 [|b2 [|b3 rest]]]] Hn; try reflexivity.
  cbn [decode_floats length].
  rewrite (IH (length rest)); [|simpl in Hn; lia|lia].
  replace (S (S (S (S (length rest))))) with (length rest + 1 * 4)%nat by lia.
  rewrite Nat.div_add by lia. lia.
Qed.

Lemma bytesToFloats_lengths (a b : list byte) (u v : list F32.t) :
  length a = length b -> bytesToFloats a = Some u -> bytesToFloats b = Some v ->
  length u = length v.
Proof.
  unfold bytesToFloats. intros Hlen Ha Hb.
  destruct (length a mod 4 =? 0)%nat; [|discriminate].
  destruct (length b mod 4 =? 0)%nat; [|discriminate].
  injection Ha as <-. injection Hb as <-.
  rewrite (decode_floats_length_div (length a)), (decode_floats_length_div (length b))
    by lia.
  now rewrite Hlen.
Qed.

Lemma dot_product_comm (u v : list F32.t) : dot_product u v = dot_product v u.
Proof.
  unfold dot_product. generalize F64.zero.
  revert v. induction u as [|x u IH]; intros [|y v] acc; try reflexivity.
  cbn [combine fold_left fst snd]. rewrite F32_mul_comm. apply IH.
Qed.

Lemma mod4_cases (a : list byte) :
  (exists p, length a = (4 * p)%nat) \/ (length a mod 4 =? 0)%nat = false.
Proof.
  destruct (length a mod 4 =? 0)%nat eqn:E; [left|now right].
  apply Nat.eqb_eq in E. now apply mod4_length.
Qed.

(** X3. Both scalar functions are symmetric: exchanging the two
    arguments changes neither the value nor the failure, whatever the
    arguments are. *)
Theorem cosine_functions_symmetric (x y : Value) :
  cosineSimilarityScalar [x; y] = cosineSimilarityScalar [y; x] /\
  cosineDistanceScalar [x; y] = cosineDistanceScalar [y; x].
Proof.
  destruct x as [|z1|f1|c1|s1|a], y as [|z2|f2|c2|s2|b]; try (split; reflexivity).
  destruct (mod4_cases a) as [[p Hp]|Ha], (mod4_cases b) as [[q Hq]|Hb].
  - split.
    + rewrite (similarity_of_blobs p q a b), (similarity_of_blobs q p b a) by assumption.
      now rewrite dot_product_comm, Nat.max_comm.
    + destruct (Nat.eq_dec p 0%nat) as [->|Hp0].
      { destruct a; [|discriminate].
        now rewrite !cosine_distance_empty by (auto). }
      destruct (Nat.eq_dec q 0%nat) as [->|Hq0].
      { destruct b; [|discriminate].
        now rewrite !cosine_distance_empty by (auto). }
      rewrite (distance_of_blobs p q a b), (distance_of_blobs q p b a) by assumption.
      now rewrite dot_product_comm, Nat.max_comm.
  - split.
    + unfold cosineSimilarityScalar. rewrite Hb. cbn [negb orb].
      now rewrite orb_true_r.
    + destruct a as [|a0 a]; [now rewrite !cosine_distance_empty by auto|].
      destruct b as [|b0 b]; [now rewrite !cosine_distance_empty by auto|].
      unfold cosineDistanceScalar. rewrite Hb. cbn [length Nat.eqb negb orb].
      now rewrite orb_true_r.
  - split.
    + unfold cosineSimilarityScalar. rewrite Ha. cbn [negb orb].
      now rewrite orb_true_r.
    + destruct a as [|a0 a]; [now rewrite !cosine_distance_empty by auto|].
      destruct b as [|b0 b]; [now rewrite !cosine_distance_empty by auto|].
      unfold cosineDistanceScalar. rewrite Ha. cbn [length Nat.eqb negb orb].
      now rewrite orb_true_r.
  - split.
    + unfold cosineSimilarityScalar. rewrite Ha, Hb. reflexivity.
    + destruct a as [|a0 a]; [now rewrite !cosine_distance_empty by auto|].
      destruct b as [|b0 b]; [now rewrite !cosine_distance_empty by auto|].
      unfold cosineDistanceScalar. rewrite Ha, Hb. reflexivity.
Qed.

End Symmetry.

Section Distance.

(** Against zeros the sum stays [+0] as long as the components are
    numbers, and is NaN from the first infinity or NaN on. *)
Lemma dot_with_zeros (v : list F32.t) :
  forall acc : F64.t,
    acc = F64.zero \/ acc = S754_nan ->
    fold_left (fun acc p => F64.add acc (F64.of_f32 (F32.mul (fst p) (snd p))))
      (combine (repeat F32.zero (length v)) v) acc =
    if F64.is_nan acc then S754_nan
    else if forallb is_number v then F64.zero else S754_nan.
Proof.
  induction v as [|x v IH]; intros acc Hacc; cbn [length repeat combine fold_left forallb].
  - destruct Hacc as [-> | ->]; reflexivity.
  - cbn [fst snd]. rewrite IH.
    + destruct Hacc as [-> | ->]; destruct x as [s|s| |s m e]; try reflexivity.
      all: destruct s; reflexivity.
    + destruct Hacc as [-> | ->]; destruct x as [s|s| |s m e]; cbn; auto.
      all: destruct s; cbn; auto.
Qed.

Lemma dot_product_zeros (v : list F32.t) :
  dot_product (repeat F32.zero (length v)) v =
    if forallb is_number v then F64.zero else S754_nan.
Proof.
  unfold dot_product. rewrite dot_with_zeros by (now left). reflexivity.
Qed.

(** The similarity of the empty BLOB and a whole array. *)
Lemma similarity_with_empty (q : nat) (b : list byte) :
  length b = (4 * q)%nat ->
  cosineSimilarityScalar [VBlob []; VBlob b] =
    Ok (VFloat (if forallb is_number (decode_floats b) then F64.zero else S754_nan)) /\
  cosineSimilarityScalar [VBlob b; VBlob []] =
    Ok (VFloat (if forallb is_number (decode_floats b) then F64.zero else S754_nan)).
Proof.
  intros Hb.
  pose proof (decode_floats_length q b Hb) as Hl.
  assert (H1 : cosineSimilarityScalar [VBlob []; VBlob b] =
               Ok (VFloat (if forallb is_number (decode_floats b)
                           then F64.zero else S754_nan))).
  { rewrite (similarity_of_blobs 0 q [] b eq_refl Hb).
    cbn [decode_floats Nat.max]. unfold zero_pad. cbn [length app].
    rewrite Nat.sub_0_r, Hl, Nat.sub_diag. cbn [repeat]. rewrite app_nil_r.
    rewrite <- Hl. now rewrite dot_product_zeros. }
  split; [exact H1|].
  rewrite <- H1.
  rewrite (similarity_of_blobs q 0 b [] Hb eq_refl),
    (similarity_of_blobs 0 q [] b eq_refl Hb).
  rewrite Nat.max_0_r. cbn [Nat.max].
  now rewrite dot_product_comm.
Qed.

Lemma distance_agrees_with_empty (b : list byte) :
  (distance_agrees (Ok (VFloat F64.one)) (cosineSimilarityScalar [VBlob []; VBlob b]) <->
   array_of_numbers b = true) /\
  (distance_agrees (Ok (VFloat F64.one)) (cosineSimilarityScalar [VBlob b; VBlob []]) <->
   array_of_numbers b = true).
Proof.
  unfold array_of_numbers.
  destruct (mod4_cases b) as [[q Hq]|Hm].
  - destruct (similarity_with_empty q b Hq) as [-> ->].
    rewrite Hq, mod4_eqb. cbn [andb].
    destruct (forallb is_number (decode_floats b)); cbn [distance_agrees].
    + split; (split; [reflexivity|intros _; vm_compute; reflexivity]).
    + split; (split; [intros H; vm_compute in H; discriminate H|discriminate]).
  - rewrite Hm. cbn [andb].
    assert (H1 : cosineSimilarityScalar [VBlob []; VBlob b] =
                 Err "blobs must contain whole float32 values").
    { unfold cosineSimilarityScalar. rewrite Hm. cbn. reflexivity. }
    assert (H2 : cosineSimilarityScalar [VBlob b; VBlob []] =
                 Err "blobs must contain whole float32 values").
    { unfold cosineSimilarityScalar. rewrite Hm. cbn. reflexivity. }
    rewrite H1, H2. cbn [distance_agrees].
    split; (split; [contradiction|discriminate]).
Qed.

(** C6, amended.  On two non-empty BLOBs [cosine_distance] is exactly
    [1 - cosine_similarity], and one fails if and only if the other does.
    As soon as one BLOB is empty [cosine_distance] is [1.0], without
    looking at the other; this is again [1 - cosine_similarity] exactly
    when the other BLOB is a whole array of numbers: the similarity fails
    on a length that is no multiple of four, and is NaN when a component
    is an infinity or NaN. *)
Theorem cosine_distance_is_one_minus_similarity (a b : list byte) :
  let d := cosineDistanceScalar [VBlob a; VBlob b] in
  let s := cosineSimilarityScalar [VBlob a; VBlob b] in
  (a <> [] -> b <> [] -> distance_agrees d s) /\
  (a = [] \/ b = [] -> d = Ok (VFloat F64.one)) /\
  (a = [] -> (distance_agrees d s <-> array_of_numbers b = true)) /\
  (b = [] -> (distance_agrees d s <-> array_of_numbers a = true)).
Proof.
  cbv zeta. split; [|split; [|split]].
  - intros Ha Hb.
    destruct (mod4_cases a) as [[p Hp]|Ma]; [destruct (mod4_cases b) as [[q Hq]|Mb]|].
    + rewrite (similarity_of_blobs p q _ _ Hp Hq).
      rewrite (distance_of_blobs p q _ _ Hp Hq).
      * reflexivity.
      * intros ->. destruct a; [contradiction|discriminate].
      * intros ->. destruct b; [contradiction|discriminate].
    + destruct a as [|a0 a]; [contradiction|]. destruct b as [|b0 b]; [contradiction|].
      unfold cosineDistanceScalar, cosineSimilarityScalar.
      rewrite Mb, orb_true_r. exact I.
    + destruct a as [|a0 a]; [contradiction|]. destruct b as [|b0 b]; [contradiction|].
      unfold cosineDistanceScalar, cosineSimilarityScalar.
      rewrite Ma. exact I.
  - apply cosine_distance_empty.
  - intros ->. rewrite cosine_distance_empty by (now left).
    apply distance_agrees_with_empty.
  - intros ->. rewrite cosine_distance_empty by (now right).
    apply distance_agrees_with_empty.
Qed.

End Distance.

Lemma cosine_distance_is_one_minus_similarity_witness :
  distance_agrees
    (cosineDistanceScalar [VBlob []; VBlob [x00; x00; x80; x3f]])
    (cosineSimilarityScalar [VBlob []; VBlob [x00; x00; x80; x3f]]).
Proof.
  apply (proj1 (proj2 (proj2 (cosine_distance_is_one_minus_similarity
                                [] [x00; x00; x80; x3f]))) eq_refl).
  vm_compute. reflexivity.
Defined.

Section Store.

Lemma similarity_column_whole (q : list byte) (r : Row) :
  (length q mod 4 = 0)%nat -> (length (embedding r) mod 4 = 0)%nat ->
  exists x, similarity_column q r = Ok x.
Proof.
  intros Hq Hr.
  destruct (mod4_length _ Hq) as [p Hp], (mod4_length _ Hr) as [p' Hp'].
  unfold similarity_column. rewrite (similarity_of_blobs p' p) by assumption.
  destruct (F64.is_nan _); eexists; reflexivity.
Qed.

Lemma where_rows_whole (st : SelectStmt) (rs : list Row) :
  (length (sel_vector st) mod 4 = 0)%nat ->
  Forall (fun r => (length (embedding r) mod 4 = 0)%nat) rs ->
  exists l, where_rows st rs = Ok l /\ (length l <= length rs)%nat.
Proof.
  intros Hq. induction 1 as [|r rs Hr _ (l & IH & Hl)]; cbn [where_rows].
  - exists []. split; [reflexivity | simpl; lia].
  - destruct (match sel_channel st with
              | Some c => String.eqb (channel_id r) c
              | None => true
              end).
    + destruct (similarity_column_whole _ r Hq Hr) as [x ->]. rewrite IH.
      destruct x as [x|]; [|exists l; split; [reflexivity | simpl; lia]].
      destruct (F64.leb _ x); eexists; (split; [reflexivity | simpl; lia]).
    + exists l. split; [exact IH | simpl; lia].
Qed.

Lemma floatsToBytes_mod4 (v : list F32.t) : (length (floatsToBytes v) mod 4 = 0)%nat.
Proof.
  rewrite floatsToBytes_length. apply Nat.eqb_eq, mod4_eqb.
Qed.

(** X5. Whole embeddings are an invariant of the table: [StoreHistory]
    and [BatchStoreHistory] keep it.  On such a table the scalar
    function never fails, so [QueryHistory] fails only when the embedder
    fails or the connection is closed. *)
Theorem QueryHistory_fails_only_outside (m : MemoryPersist) (c q : string) (k : Z)
    (r t ts : string) (items : list Message) :
  whole_embeddings (db m) ->
  whole_embeddings (db (snd (StoreHistory m c r t ts))) /\
  whole_embeddings (db (snd (BatchStoreHistory m c items))) /\
  match QueryHistory m c q k with
  | Ok _ => is_Ok (embedder m q) = true /\ broken (db m) = false
  | Err e =>
      (exists e', embedder m q = Err e' /\ e = ("embedding query: " +:+ e')%string) \/
      (is_Ok (embedder m q) = true /\ broken (db m) = true /\
       e = "querying memory: database is closed"%string)
  | Panic e => embedder m q = Panic e
  end.
Proof.
  intros Hw. split; [|split].
  - unfold StoreHistory.
    destruct (embedder m t) as [v|e|e]; try exact Hw.
    destruct (broken (db m)); [exact Hw|].
    unfold whole_embeddings in *. cbn. apply Forall_app. split; [exact Hw|].
    constructor; [|constructor]. apply floatsToBytes_mod4.
  - unfold BatchStoreHistory. destruct items as [|it items]; [exact Hw|].
    destruct (broken (db m)); [exact Hw|].
    assert (G : forall l (tx : DB), whole_embeddings tx ->
                match BatchStoreHistory_loop m c l tx with
                | Ok d => whole_embeddings d
                | _ => True
                end).
    { induction l as [|x l IH]; intros tx Htx; cbn [BatchStoreHistory_loop];
        [exact Htx|].
      destruct (embedder m (Content x)) as [v|e|e]; try exact I.
      apply IH. unfold whole_embeddings in *. cbn. apply Forall_app.
      split; [exact Htx|]. constructor; [|constructor]. apply floatsToBytes_mod4. }
    specialize (G (it :: items) (db m) Hw).
    destruct (BatchStoreHistory_loop m c (it :: items) (db m)); try exact Hw.
    exact G.
  - unfold QueryHistory.
    destruct (embedder m q) as [v|e|e] eqn:E; [|left; eauto|reflexivity].
    unfold run_select. destruct (broken (db m)) eqn:B; [right; auto|].
    destruct (where_rows_whole (QueryHistory_stmt m v c k) (rows (db m)))
      as (l & -> & _); [apply floatsToBytes_mod4 | exact Hw |]. auto.
Qed.

Lemma insert_desc_In (x p : Row * F64.t) (l : list (Row * F64.t)) :
  List.In p (insert_desc x l) <-> p = x \/ List.In p l.
Proof.
  induction l as [|y l IH]; cbn [insert_desc].
  - simpl. intuition.
  - destruct (F64.leb (snd x) (snd y)); simpl; rewrite ?IH; intuition.
Qed.

Lemma order_by_In (p : Row * F64.t) (l : list (Row * F64.t)) :
  List.In p (order_by_similarity_desc l) <-> List.In p l.
Proof.
  unfold order_by_similarity_desc. induction l as [|x l IH]; [reflexivity|].
  cbn [fold_right]. rewrite insert_desc_In, IH. simpl. intuition.
Qed.

Lemma limit_all {A} (n : Z) (l : list A) :
  Z.of_nat (length l) <= n -> limit n l = l.
Proof.
  intros H. unfold limit. destruct (n <? 0); [reflexivity|].
  apply firstn_all2. lia.
Qed.

Lemma where_rows_complete (st : SelectStmt) (rs : list Row) :
  forall l, where_rows st rs = Ok l ->
  forall r x,
    List.In r rs ->
    match sel_channel st with Some c => channel_id r = c | None => True end ->
    similarity_column (sel_vector st) r = Ok (Some x) ->
    F64.leb (sel_threshold st) x = true ->
    List.In (r, x) l.
Proof.
  induction rs as [|r0 rs IH]; intros l H r x Hin Hc Hs Ht; [destruct Hin|].
  cbn [where_rows] in H.
  destruct Hin as [->|Hin].
  - assert (Hch : match sel_channel st with
                  | Some c => String.eqb (channel_id r) c
                  | None => true
                  end = true).
    { destruct (sel_channel st); [|reflexivity]. now apply String.eqb_eq. }
    rewrite Hch, Hs in H.
    destruct (where_rows st rs) as [rest|e|e]; try discriminate.
    rewrite Ht in H. injection H as <-. now left.
  - destruct (match sel_channel st with
              | Some c => String.eqb (channel_id r0) c
              | None => true
              end).
    + destruct (similarity_column (sel_vector st) r0) as [sim|e|e]; try discriminate.
      destruct (where_rows st rs) as [rest|e|e]; try discriminate.
      specialize (IH rest eq_refl r x Hin Hc Hs Ht).
      destruct sim as [y|]; [|injection H as <-; exact IH].
      destruct (F64.leb (sel_threshold st) y); injection H as <-;
        [now right | exact IH].
    + now apply IH.
Qed.

(** X6. What is stored is found again: after [StoreHistory] of a text,
    [QueryHistory] for the same text and channel succeeds and returns the
    stored item with the similarity of its embedding to itself, when this
    similarity reaches the threshold and the limit exceeds the number of
    rows the table had. *)
Theorem stored_item_is_found (m : MemoryPersist) (c r t ts : string) (k : Z)
    (v : list F32.t) :
  whole_embeddings (db m) ->
  broken (db m) = false ->
  embedder m t = Ok v ->
  Forall (fun x => valid_float32 x = true) v ->
  F64.leb (F64.of_f32 (threshold m)) (dot_product v v) = true ->
  Z.of_nat (length (rows (db m))) < (if k <=? 0 then topk m else k) ->
  exists items,
    QueryHistory (snd (StoreHistory m c r t ts)) c t k = Ok items /\
    List.In {| Kind := ""; mi_Role := r; Text := t; Similarity := dot_product v v;
               mi_Timestamp := ts |} items.
Proof.
  intros Hw Hb He Hv Ht Hk.
  unfold StoreHistory. rewrite He, Hb. cbn [snd].
  set (row := {| id := seq (db m) + 1; channel_id := c; role := r; content := t;
                 timestamp := ts; embedding := floatsToBytes v |}).
  unfold QueryHistory. cbn [embedder set_db db]. rewrite He.
  unfold run_select. cbn [broken rows].
  set (st := QueryHistory_stmt _ v c k).
  assert (Hq : sel_vector st = floatsToBytes v) by reflexivity.
  assert (Hl : sel_limit st = if k <=? 0 then topk m else k) by reflexivity.
  assert (Hth : sel_threshold st = F64.of_f32 (threshold m)) by reflexivity.
  assert (Hch : match sel_channel st with
                | Some c' => channel_id row = c'
                | None => True
                end).
  { unfold st, QueryHistory_stmt. cbn [sel_channel].
    destruct (negb (String.eqb c "")); reflexivity. }
  destruct (where_rows_whole st (rows (db m) ++ [row])) as (l & Hl' & Hlen).
  { rewrite Hq. apply floatsToBytes_mod4. }
  { apply Forall_app. split; [exact Hw|].
    constructor; [apply floatsToBytes_mod4 | constructor]. }
  rewrite Hl'. eexists. split; [reflexivity|].
  assert (Hsim : similarity_column (sel_vector st) row = Ok (Some (dot_product v v))).
  { unfold similarity_column. rewrite Hq. cbn [embedding row].
    rewrite (similarity_of_encoded v v Hv Hv).
    rewrite Nat.max_id, zero_pad_id.
    now rewrite (leb_not_nan _ _ Ht). }
  assert (Hin : List.In (row, dot_product v v) l).
  { apply (where_rows_complete st _ l Hl' row);
      [apply in_or_app; right; now left | exact Hch | exact Hsim | now rewrite Hth]. }
  rewrite limit_all.
  - apply in_map_iff. exists (row, dot_product v v). split; [reflexivity|].
    apply order_by_In. exact Hin.
  - rewrite order_by_length, Hl. rewrite length_app in Hlen. simpl in Hlen. lia.
Qed.

Lemma BatchStoreHistory_loop_embedder (m1 m2 : MemoryPersist) (c : string)
    (items : list Message) :
  embedder m1 = embedder m2 ->
  forall tx, BatchStoreHistory_loop m1 c items tx = BatchStoreHistory_loop m2 c items tx.
Proof.
  intros He. induction items as [|it items IH]; intros tx; [reflexivity|].
  cbn [BatchStoreHistory_loop]. rewrite He.
  destruct (embedder m2 (Content it)); try reflexivity. apply IH.
Qed.

Lemma BatchStoreHistory_loop_each (c : string) (items : list Message) :
  forall (m : MemoryPersist),
    broken (db m) = false ->
    match BatchStoreHistory_loop m c items (db m) with
    | Ok d => StoreHistory_each m c items = (Ok tt, set_db m d)
    | _ => is_Ok (fst (StoreHistory_each m c items)) = false
    end.
Proof.
  induction items as [|it items IH]; intros m Hb;
    cbn [BatchStoreHistory_loop StoreHistory_each].
  - destruct m as [e [rs sq br]]. cbn in *. now subst br.
  - unfold StoreHistory.
    destruct (embedder m (Content it)) as [v|e|e]; try reflexivity.
    rewrite Hb.
    set (d1 := {| rows := _; seq := _; broken := false |}).
    specialize (IH (set_db m d1) eq_refl). cbn [set_db db embedder] in IH.
    rewrite (BatchStoreHistory_loop_embedder (set_db m d1) m c items eq_refl) in IH.
    destruct (BatchStoreHistory_loop m c items d1); exact IH.
Qed.

(** X7. [BatchStoreHistory] is all or nothing.  For no items it does
    nothing, even on a closed connection; when it succeeds the store is
    the one that storing the items one by one with [StoreHistory] gives;
    when it fails the store is unchanged, also when rows were already
    inserted before the failure, and storing one by one fails too. *)
Theorem BatchStoreHistory_atomic (m : MemoryPersist) (c : string)
    (items : list Message) :
  BatchStoreHistory m c [] = (Ok tt, m) /\
  match BatchStoreHistory m c items with
  | (Ok _, m') => StoreHistory_each m c items = (Ok tt, m')
  | (_, m') =>
      m' = m /\ items <> [] /\ is_Ok (fst (StoreHistory_each m c items)) = false
  end.
Proof.
  split; [reflexivity|].
  unfold BatchStoreHistory. destruct items as [|it items]; [reflexivity|].
  destruct (broken (db m)) eqn:Hb.
  - repeat split; [discriminate|].
    cbn [StoreHistory_each]. unfold StoreHistory.
    destruct (embedder m (Content it)); try reflexivity. now rewrite Hb.
  - pose proof (BatchStoreHistory_loop_each c (it :: items) m Hb) as H.
    destruct (BatchStoreHistory_loop m c (it :: items) (db m)); [exact H|..];
      (repeat split; [discriminate | exact H]).
Qed.

End Store.

Lemma QueryHistory_fails_only_outside_witness :
  let m := set_db demo_memory demo_db in
  whole_embeddings (db (snd (StoreHistory m "c1" "assistant" "hello" "ts"))) /\
  whole_embeddings (db (snd (BatchStoreHistory m "c1" [demo_old; demo_filler]))) /\
  match QueryHistory m "c1" "the password" 0 with
  | Ok _ => is_Ok (embedder m "the password") = true /\ broken (db m) = false
  | Err e =>
      (exists e', embedder m "the password" = Err e' /\
                  e = ("embedding query: " +:+ e')%string) \/
      (is_Ok (embedder m "the password") = true /\ broken (db m) = true /\
       e = "querying memory: database is closed"%string)
  | Panic e => embedder m "the password" = Panic e
  end.
Proof.
  apply (QueryHistory_fails_only_outside (set_db demo_memory demo_db)
           "c1" "the password" 0 "assistant" "hello" "ts" [demo_old; demo_filler]).
  repeat constructor.
Defined.

Lemma stored_item_is_found_witness :
  exists items,
    QueryHistory
      (snd (StoreHistory (set_db demo_memory demo_db) "c1" "assistant"
              "the sky is blue" "2026-10-31T08:00:00Z"))
      "c1" "the sky is blue" 0 = Ok items /\
    List.In {| Kind := ""; mi_Role := "assistant"; Text := "the sky is blue";
               Similarity := dot_product [F32.of_Z 1; F32.zero] [F32.of_Z 1; F32.zero];
               mi_Timestamp := "2026-10-31T08:00:00Z" |} items.
Proof.
  apply (stored_item_is_found (set_db demo_memory demo_db) "c1" "assistant"
           "the sky is blue" "2026-10-31T08:00:00Z" 0 [F32.of_Z 1; F32.zero]).
  - repeat constructor.
  - reflexivity.
  - vm_compute. reflexivity.
  - repeat constructor.
  - vm_compute. reflexivity.
  - vm_compute. reflexivity.
Defined.

Section Chunks.

Lemma slice_step {A} (l : list A) (i n : Z) :
  0 <= i -> 0 < n -> i < Z.of_nat (length l) ->
  let end_ := if i + n >? Z.of_nat (length l) then Z.of_nat (length l) else i + n in
  slice l i end_ <> [] /\
  (length (slice l i end_) <= Z.to_nat n)%nat /\
  (i + n < Z.of_nat (length l) -> length (slice l i end_) = Z.to_nat n) /\
  slice l i end_ ++ skipn (Z.to_nat (i + n)) l = skipn (Z.to_nat i) l.
Proof.
  intros Hi Hn Hlt end_. unfold slice.
  assert (Hs : length (skipn (Z.to_nat i) l) = (length l - Z.to_nat i)%nat)
    by apply length_skipn.
  assert (He : (Z.to_nat (end_ - i) = Nat.min (Z.to_nat n) (length l - Z.to_nat i))%nat).
  { unfold end_. destruct (Z.gtb_spec (i + n) (Z.of_nat (length l))); lia. }
  rewrite He. repeat split.
  - intros E. apply (f_equal (@length A)) in E.
    rewrite length_firstn, Hs in E. simpl in E. lia.
  - rewrite length_firstn. lia.
  - intros Hfull. rewrite length_firstn, Hs. lia.
  - replace (Z.to_nat (i + n)) with (Z.to_nat n + Z.to_nat i)%nat by lia.
    rewrite <- skipn_skipn.
    destruct (Nat.le_gt_cases (Z.to_nat n) (length l - Z.to_nat i)) as [Hle|Hgt].
    + rewrite Nat.min_l by lia. apply firstn_skipn.
    + rewrite Nat.min_r by lia.
      rewrite firstn_all2 by lia. rewrite (skipn_all2 (n := Z.to_nat n)) by lia.
      apply app_nil_r.
Qed.

Lemma splitIntoChunks_loop_groups (words : list string) (maxWords : Z) (fuel : nat) :
  0 < maxWords ->
  forall (i : Z) (chunks : list string),
    0 <= i ->
    Z.max 0 (Z.of_nat (length words) - i) < Z.of_nat fuel ->
    exists groups : list (list string),
      splitIntoChunks_loop fuel words i maxWords chunks =
        Some (Ok (chunks ++ map (fun g => Join g " ") groups)) /\
      concat groups = skipn (Z.to_nat i) words /\
      Forall (fun g => g <> [] /\ (length g <= Z.to_nat maxWords)%nat) groups /\
      Forall (fun g => length g = Z.to_nat maxWords) (removelast groups).
Proof.
  intros Hmax. induction fuel as [|fuel IH]; intros i chunks Hi Hfuel; [lia|].
  cbn [splitIntoChunks_loop].
  destruct (Z.ltb_spec i (Z.of_nat (length words))) as [Hlt|Hge].
  - destruct (slice_step words i maxWords Hi Hmax Hlt) as (Hne & Hle & Hfull & Hcat).
    set (end_ := if i + maxWords >? Z.of_nat (length words)
                 then Z.of_nat (length words) else i + maxWords) in *.
    assert (Hend : (end_ <? i) = false).
    { apply Z.ltb_ge. unfold end_.
      destruct (Z.gtb_spec (i + maxWords) (Z.of_nat (length words))); lia. }
    rewrite Hend.
    destruct (IH (i + maxWords) (chunks ++ [Join (slice words i end_) " "]))
      as (gs & Hgs & Hc & Hb & Hr); [lia | lia |].
    exists (slice words i end_ :: gs). repeat split.
    + rewrite Hgs. cbn [map]. now rewrite <- app_assoc.
    + cbn [concat]. rewrite Hc. exact Hcat.
    + constructor; [split; assumption | exact Hb].
    + destruct gs as [|g gs]; [constructor|].
      change (removelast (slice words i end_ :: g :: gs))
        with (slice words i end_ :: removelast (g :: gs)).
      constructor; [|exact Hr]. apply Hfull.
      destruct (Z.lt_ge_cases (i + maxWords) (Z.of_nat (length words))) as [|Hover];
        [assumption|].
      exfalso. cbn [concat] in Hc.
      rewrite skipn_all2 in Hc by lia.
      apply app_eq_nil in Hc as [Hg _]. subst g.
      inversion Hb as [|? ? [Hg _] _]. now apply Hg.
  - exists []. repeat split; try constructor.
    + now rewrite app_nil_r.
    + rewrite skipn_all2 by lia. reflexivity.
Qed.

(** X8. [splitIntoChunks] with a positive number of words per chunk
    loses no word and repeats none: the chunks are the words of the text
    cut into consecutive groups, each joined with single spaces; no group
    is empty or has more than [maxWords] words, and every group but the
    last has exactly [maxWords]. *)
Theorem splitIntoChunks_partitions_words (text : string) (maxWords : Z) :
  0 < maxWords ->
  exists groups : list (list string),
    splitIntoChunks (S (String.length text)) text maxWords =
      Some (Ok (map (fun g => Join g " ") groups)) /\
    concat groups = Fields text /\
    Forall (fun g => g <> [] /\ (length g <= Z.to_nat maxWords)%nat) groups /\
    Forall (fun g => length g = Z.to_nat maxWords) (removelast groups).
Proof.
  intros Hmax. unfold splitIntoChunks.
  pose proof (Fields_length text) as HF.
  destruct (splitIntoChunks_loop_groups (Fields text) maxWords
              (S (String.length text)) Hmax 0 []) as (gs & H1 & H2 & H3 & H4);
    [lia | lia |].
  exists gs. repeat split; assumption.
Qed.

Lemma splitIntoChunks_partitions_words_witness :
  exists groups : list (list string),
    splitIntoChunks (S (String.length "a b  c d e")) "a b  c d e" 2 =
      Some (Ok (map (fun g => Join g " ") groups)) /\
    concat groups = Fields "a b  c d e" /\
    Forall (fun g => g <> [] /\ (length g <= Z.to_nat 2)%nat) groups /\
    Forall (fun g => length g = Z.to_nat 2) (removelast groups).
Proof.
  apply (splitIntoChunks_partitions_words "a b  c d e" 2). lia.
Defined.

(** X9. [splitIntoChunks] with a step that is not positive, on a text
    with at least one word: a negative [maxWords] panics at the first
    slice, and with [maxWords = 0] the loop never ends, whatever the
    number of iterations it is given. *)
Theorem splitIntoChunks_without_step (text : string) (maxWords : Z) (fuel : nat) :
  Fields text <> [] ->
  maxWords <= 0 ->
  if maxWords <? 0
  then exists msg, splitIntoChunks (S fuel) text maxWords = Some (Panic msg)
  else splitIntoChunks fuel text maxWords = None.
Proof.
  intros Hw Hmax. unfold splitIntoChunks.
  assert (Hlen : 0 < Z.of_nat (length (Fields text)))
    by (destruct (Fields text); [contradiction | simpl; lia]).
  destruct (Z.ltb_spec maxWords 0) as [Hneg|Hzero].
  - cbn [splitIntoChunks_loop].
    destruct (Z.ltb_spec 0 (Z.of_nat (length (Fields text)))); [|lia].
    destruct (Z.gtb_spec (0 + maxWords) (Z.of_nat (length (Fields text)))); [lia|].
    destruct (Z.ltb_spec (0 + maxWords) 0); [eexists; reflexivity | lia].
  - assert (maxWords = 0) as -> by lia. generalize (@nil string).
    induction fuel as [|fuel IH]; intros chunks; [reflexivity|].
    cbn [splitIntoChunks_loop].
    destruct (Z.ltb_spec 0 (Z.of_nat (length (Fields text)))); [|lia].
    destruct (Z.gtb_spec (0 + 0) (Z.of_nat (length (Fields text)))); [lia|].
    cbn [Z.add Z.ltb Z.compare]. apply IH.
Qed.

Lemma splitIntoChunks_without_step_witness :
  splitIntoChunks 1000 "a b" 0 = None.
Proof.
  apply (splitIntoChunks_without_step "a b" 0 1000).
  - vm_compute. discriminate.
  - lia.
Defined.

(** X10. A text without a word cannot be embedded: [Embed] returns the
    error "no embeddings found in the response" without calling the
    engine, so [StoreHistory] of such a content and [QueryHistory] for
    such a query fail and leave the store as it is. *)
Theorem Embed_without_words (e : ONNXEmbedder) (text : string)
    (m : MemoryPersist) (c r ts : string) (k : Z) :
  Fields text = [] ->
  embedder m = ONNXEmbedder_Embed e ->
  Embed e text = Some (Err "no embeddings found in the response", []) /\
  StoreHistory m c r text ts =
    (Err "embedding content: no embeddings found in the response", m) /\
  QueryHistory m c text k = Err "embedding query: no embeddings found in the response".
Proof.
  intros Hw He.
  assert (HE : Embed e text = Some (Err "no embeddings found in the response", [])).
  { unfold Embed, splitIntoChunks. rewrite Hw. reflexivity. }
  split; [exact HE|].
  unfold StoreHistory, QueryHistory. rewrite He. unfold ONNXEmbedder_Embed.
  rewrite HE. split; reflexivity.
Qed.

Lemma Embed_without_words_witness :
  Embed (NewONNXEmbedder demo_engine) "  " =
    Some (Err "no embeddings found in the response", []) /\
  StoreHistory demo_memory "c1" "assistant" "  " "ts" =
    (Err "embedding content: no embeddings found in the response", demo_memory) /\
  QueryHistory demo_memory "c1" "  " 0 =
    Err "embedding query: no embeddings found in the response".
Proof.
  apply (Embed_without_words (NewONNXEmbedder demo_engine) "  " demo_memory
           "c1" "assistant" "ts" 0); reflexivity.
Defined.

Lemma EmbedBatch_loop_pointwise (e : ONNXEmbeddingEngine) (f : string -> list F32.t)
    (content : list string) (batchSize : Z) (fuel : nat) :
  (forall l, l <> [] -> engine_Embed e l = Ok (map f l)) ->
  0 < batchSize ->
  forall (i : Z) (allEmbeddings : list (list F32.t)),
    0 <= i ->
    Z.max 0 (Z.of_nat (length content) - i) < Z.of_nat fuel ->
    EmbedBatch_loop fuel e content i batchSize allEmbeddings =
      Some (Ok (allEmbeddings ++ map f (skipn (Z.to_nat i) content))).
Proof.
  intros Hf Hb. induction fuel as [|fuel IH]; intros i acc Hi Hfuel; [lia|].
  cbn [EmbedBatch_loop].
  destruct (Z.ltb_spec i (Z.of_nat (length content))) as [Hlt|Hge].
  - destruct (slice_step content i batchSize Hi Hb Hlt) as (Hne & _ & _ & Hcat).
    rewrite (Hf _ Hne), IH by lia.
    now rewrite <- app_assoc, <- map_app, Hcat.
  - rewrite skipn_all2 by lia. now rewrite app_nil_r.
Qed.

(** X11. Batching does not show: when the engine embeds every text of a
    batch on its own, [EmbedBatch] returns the embeddings of the texts in
    order, whatever the batch size asked for; the engine is never called
    on an empty batch, and not at all for no texts. *)
Theorem EmbedBatch_is_transparent (e : ONNXEmbeddingEngine) (f : string -> list F32.t)
    (content : list string) (batchSize : Z) (fuel : nat) :
  (forall l, l <> [] -> engine_Embed e l = Ok (map f l)) ->
  (length content < fuel)%nat ->
  EmbedBatch fuel e content batchSize = Some (Ok (map f content)).
Proof.
  intros Hf Hfuel. unfold EmbedBatch.
  set (b := if batchSize <=? 0
            then (if BatchSize e <=? 0 then 32 else BatchSize e) else batchSize).
  assert (Hb : 0 < b).
  { unfold b. destruct (Z.leb_spec batchSize 0); [|lia].
    destruct (Z.leb_spec (BatchSize e) 0); lia. }
  rewrite (EmbedBatch_loop_pointwise e f content b fuel Hf Hb) by lia.
  reflexivity.
Qed.

Lemma EmbedBatch_is_transparent_witness :
  EmbedBatch 4 demo_engine ["a"; "b"; "c"]%string 2 =
    Some (Ok (map (fun _ => [F32.of_Z 1; F32.zero]) ["a"; "b"; "c"]%string)).
Proof.
  apply (EmbedBatch_is_transparent demo_engine (fun _ => [F32.of_Z 1; F32.zero])
           ["a"; "b"; "c"]%string 2 4).
  - intros l _. reflexivity.
  - simpl. lia.
Defined.

End Chunks.

Section Mean.



End Mean.


(** A text of 401 words: three chunks, of 200, 200 and 1 words, whose
    vectors are [(399, 1)], [(399, 1)] and [(1, 1)]. *)
Example Embed_mean_of_three_chunks :
  splitIntoChunks 802 demo_words 200 =
    Some (Ok [Join (repeat "w"%string 200) " "; Join (repeat "w"%string 200) " ";
              "w"%string]) /\
  Embed (NewONNXEmbedder length_engine) demo_words =
    Some (Ok [F32.div (F32.of_Z 799) (F32.of_Z 3); F32.div (F32.of_Z 3) (F32.of_Z 3)],
          []).
Proof. split; vm_compute; reflexivity. Qed.

Section SessionMap.

Lemma Trim_noop (s : Session) :
  (length (History s) <= MaxHistorySize)%nat -> Trim s = ([], s).
Proof. apply Trim_short. Qed.

Lemma TrimAll_loop_trimmed (order : list string) :
  forall (ss : gmap string Session) (acc : list Message),
    all_trimmed ss -> TrimAll_loop order ss acc = (acc, ss).
Proof.
  induction order as [|k order IH]; intros ss acc Hall; cbn [TrimAll_loop];
    [reflexivity|].
  destruct (ss !! k) as [s|] eqn:E; [|now apply IH].
  rewrite (Trim_short s (Hall k s E)). cbn [length Nat.ltb Nat.leb].
  rewrite insert_id by exact E. now apply IH.
Qed.

(** X12. After [TrimAll] nothing is left to trim: with an order that
    visits every session, every session is within the bound of 50
    messages, so a second [TrimAll], in any order, returns no message and
    changes nothing, and [Save] of any session drops no message. *)
Theorem TrimAll_leaves_nothing_to_trim
    (order order' : list string) (sm : SessionManager) :
  iteration_order order sm ->
  let sm' := snd (TrimAll order sm) in
  all_trimmed (sessions sm') /\
  TrimAll order' sm' = ([], sm') /\
  forall k s, sessions sm' !! k = Some s -> Trim s = ([], s).
Proof.
  intros Hord sm'.
  destruct (TrimAll_spec order sm Hord) as [_ Hs].
  assert (Hall : all_trimmed (sessions sm')).
  { intros k s' Hk. unfold sm' in Hk.
    destruct (sessions sm !! k) as [s|] eqn:E.
    - destruct (Hs k s E) as (Hk' & _ & Hb). rewrite Hk' in Hk.
      injection Hk as <-. exact Hb.
    - exfalso. unfold TrimAll in Hk.
      pose proof (TrimAll_loop_spec order (sessions sm) [] (proj1 Hord)) as [_ Hl].
      destruct (TrimAll_loop order (sessions sm) []) as [tm ss] eqn:El.
      cbn in Hk, Hl. rewrite Hl, E in Hk. now destruct (bool_decide _). }
  split; [exact Hall|]. split.
  - unfold TrimAll. rewrite (TrimAll_loop_trimmed order' _ [] Hall).
    now destruct sm'.
  - intros k s Hk. apply Trim_short. exact (Hall k s Hk).
Qed.

Lemma TrimAll_leaves_nothing_to_trim_witness :
  let sm' := snd (TrimAll ["ntfy:7"%string] demo_sessions) in
  all_trimmed (sessions sm') /\
  TrimAll ["telegram:42"; "ntfy:7"; "ntfy:7"]%string sm' = ([], sm') /\
  forall k s, sessions sm' !! k = Some s -> Trim s = ([], s).
Proof.
  apply (TrimAll_leaves_nothing_to_trim ["ntfy:7"%string]
           ["telegram:42"; "ntfy:7"; "ntfy:7"]%string demo_sessions).
  split.
  - repeat constructor. apply not_elem_of_nil.
  - intros k. unfold demo_sessions, update_session, NewSessionManager. cbn.
    rewrite list_elem_of_singleton. split.
    + intros ->. rewrite lookup_insert_eq. eauto.
    + intros [s Hs]. destruct (decide (k = "ntfy:7"%string)) as [|Hne]; [assumption|].
      rewrite lookup_insert_ne in Hs by congruence. now rewrite lookup_empty in Hs.
Defined.

(** X13. [GetOrCreate] is the lookup that inserts on a miss: a session
    that exists is returned and the map is not touched; a missing one is
    created empty under its key; the other keys are never touched; and
    asking again returns the same session. *)
Theorem GetOrCreate_lookup_or_insert (sm : SessionManager) (key : string) :
  let s := fst (GetOrCreate sm key) in
  let sm' := snd (GetOrCreate sm key) in
  sessions sm' !! key = Some s /\
  (forall s0, sessions sm !! key = Some s0 -> s = s0 /\ sm' = sm) /\
  (sessions sm !! key = None -> s = {| Key := key; History := [] |}) /\
  (forall k, k <> key -> sessions sm' !! k = sessions sm !! k) /\
  workspace sm' = workspace sm /\
  GetOrCreate sm' key = (s, sm').
Proof.
  intros s sm'. subst s sm'. unfold GetOrCreate.
  destruct (sessions sm !! key) as [s0|] eqn:E; cbn [fst snd sessions workspace].
  - rewrite E. repeat split; try assumption; try congruence.
    all: try (now destruct sm).
  - rewrite lookup_insert_eq. repeat split; try congruence.
    all: try (intros k Hk; now rewrite lookup_insert_ne by congruence).
Qed.

(** X14. Sessions stay under their own keys: [GetOrCreate], the two
    assignments through the pointer ([AddMessage], [Trim]), [TrimAll] and
    [Save] keep every session of the map stored under its [Key]; so the
    file [Save] writes for the session at [key] is [sessions/key.json]
    of the workspace. *)
Theorem sessions_keep_their_keys (sm : SessionManager) (key role_ content_ now : string)
    (order : list string) (fs : FS) :
  own_keys sm ->
  own_keys (snd (GetOrCreate sm key)) /\
  (forall s, sessions sm !! key = Some s ->
             own_keys (update_session sm key (AddMessage s role_ content_ now))) /\
  own_keys (snd (TrimAll order sm)) /\
  own_keys (snd (fst (Save sm fs key))) /\
  (forall s, sessions sm !! key = Some s ->
     Save sm fs key =
       (fst (WriteSessionFile fs
               (filepath_Join (filepath_Join (workspace sm) "sessions") (key +:+ ".json"))
               (snd (Trim s))),
        update_session sm key (snd (Trim s)),
        snd (WriteSessionFile fs
               (filepath_Join (filepath_Join (workspace sm) "sessions") (key +:+ ".json"))
               (snd (Trim s))))).
Proof.
  intros Hown.
  assert (Hupd : forall s', Key s' = key -> own_keys (update_session sm key s')).
  { intros s' Hk k s. unfold update_session. cbn.
    destruct (decide (k = key)) as [->|Hne].
    - rewrite lookup_insert_eq. intros H. injection H as <-. exact Hk.
    - rewrite lookup_insert_ne by congruence. apply Hown. }
  split; [|split; [|split; [|split]]].
  - unfold GetOrCreate. destruct (sessions sm !! key) eqn:E; cbn [snd]; [exact Hown|].
    apply (Hupd {| Key := key; History := [] |}). reflexivity.
  - intros s Hs. apply Hupd. cbn. exact (Hown key s Hs).
  - unfold TrimAll.
    assert (G : forall o ss acc, (forall k s, ss !! k = Some s -> Key s = k) ->
                forall k s, snd (TrimAll_loop o ss acc) !! k = Some s -> Key s = k).
    { induction o as [|k0 o IH]; intros ss acc Hss; cbn [TrimAll_loop]; [exact Hss|].
      destruct (ss !! k0) as [s0|] eqn:E; [|now apply IH].
      destruct (Trim s0) as [tm s0'] eqn:Et. apply IH.
      intros k s. destruct (decide (k = k0)) as [->|Hne].
      - rewrite lookup_insert_eq. intros H. injection H as <-.
        replace s0' with (snd (Trim s0)) by now rewrite Et.
        rewrite Trim_Key. now apply Hss.
      - rewrite lookup_insert_ne by congruence. apply Hss. }
    specialize (G order (sessions sm) [] Hown).
    destruct (TrimAll_loop order (sessions sm) []) as [tm ss]. exact G.
  - unfold Save. destruct (sessions sm !! key) as [s|] eqn:E; [|exact Hown].
    destruct (WriteSessionFile _ _ _) as [r fs']. cbn [fst snd].
    apply Hupd. rewrite Trim_Key. exact (Hown key s E).
  - intros s Hs. unfold Save. rewrite Hs.
    rewrite Trim_Key, (Hown key s Hs).
    now destruct (WriteSessionFile _ _ _).
Qed.

Lemma sessions_keep_their_keys_witness :
  own_keys (snd (GetOrCreate demo_sessions "telegram:42")).
Proof.
  apply (sessions_keep_their_keys demo_sessions "telegram:42" "user" "hello" "now"
           ["ntfy:7"%string] demo_fs).
  intros k s. unfold demo_sessions, update_session, NewSessionManager. cbn.
  destruct (decide (k = "ntfy:7"%string)) as [->|Hne].
  - rewrite lookup_insert_eq. intros H. injection H as <-. reflexivity.
  - rewrite lookup_insert_ne by congruence. now rewrite lookup_empty.
Defined.

End SessionMap.

Section FileMemory.

Lemma append_assoc_string (a b c : string) : ((a +:+ b) +:+ c = a +:+ (b +:+ c))%string.
Proof.
  induction a as [|x a IH]; [reflexivity|].
  change (String x ((a +:+ b) +:+ c) = String x (a +:+ (b +:+ c))).
  now rewrite IH.
Qed.

Lemma append_not_empty (a b : string) : b <> ""%string -> (a +:+ b)%string <> ""%string.
Proof. destruct a; [now intros | discriminate]. Qed.

Lemma read_or_empty_allowed (fs : FS) (path : string) :
  denied fs path = false ->
  read_or_empty fs path =
    Ok (match files fs !! path with Some t => t | None => ""%string end).
Proof.
  intros Hd. unfold read_or_empty, ReadFile. rewrite Hd.
  now destruct (files fs !! path).
Qed.

(** X15. What [AppendToday] writes is read back: when the directory and
    the two files can be opened, [AppendToday] succeeds, [ReadToday] on
    the same day returns the old notes followed by the stamped line, and
    the memory context [GetMemoryContext] builds for the system prompt
    ends with this line. *)
Theorem appended_note_reaches_context (s : MemoryStore) (text : string)
    (now1 now2 now : Time) (fs : FS) :
  denied fs (memoryDir s) = false ->
  denied fs (filepath_Join (memoryDir s) (date_utc now1 +:+ ".md")) = false ->
  denied fs (filepath_Join (memoryDir s) "MEMORY.md") = false ->
  date_utc now = date_utc now1 ->
  let fs' := snd (AppendToday s text now1 now2 fs) in
  fst (AppendToday s text now1 now2 fs) = Ok tt /\
  (exists old,
     ReadToday s now fs = Ok old /\
     ReadToday s now fs' = Ok (old +:+ today_line now2 text)) /\
  exists before, GetMemoryContext s now fs' = Ok (before +:+ today_line now2 text).
Proof.
  intros Hd Ht Hm Hday fs'.
  set (path := filepath_Join (memoryDir s) (date_utc now1 +:+ ".md")) in *.
  set (old := match files fs !! path with Some t => t | None => ""%string end).
  assert (Hfs : AppendToday s text now1 now2 fs =
                (Ok tt, {| files := <[path := (old +:+ today_line now2 text)%string]> (files fs);
                           session_files := session_files fs;
                           denied := denied fs |})).
  { unfold AppendToday. rewrite Hd. fold path. rewrite Ht. reflexivity. }
  unfold fs'. rewrite Hfs. cbn [fst snd].
  assert (Hnew : ReadToday s now
                   {| files := <[path := (old +:+ today_line now2 text)%string]> (files fs);
                      session_files := session_files fs; denied := denied fs |} =
                 Ok (old +:+ today_line now2 text)%string).
  { unfold ReadToday. rewrite Hday. fold path.
    rewrite read_or_empty_allowed by exact Ht. cbn [files].
    now rewrite lookup_insert_eq. }
  split; [reflexivity|]. split.
  - exists old. split; [|exact Hnew].
    unfold ReadToday. rewrite Hday. fold path. now apply read_or_empty_allowed.
  - unfold GetMemoryContext. rewrite Hnew.
    unfold ReadLongTerm. rewrite read_or_empty_allowed by exact Hm.
    set (lt := match _ !! _ with Some t => t | None => ""%string end).
    assert (Hne : String.eqb (old +:+ today_line now2 text) "" = false).
    { apply String.eqb_neq, append_not_empty. discriminate. }
    rewrite Hne, andb_false_r.
    destruct (String.eqb lt ""); [now exists old|].
    exists (lt +:+ LF +:+ LF +:+ "---" +:+ LF +:+ LF +:+ old)%string.
    now rewrite !append_assoc_string.
Qed.

Lemma appended_note_reaches_context_witness :
  let s := NewMemoryStoreWithWorkspace "ws" 100 in
  let fs' := snd (AppendToday s "buy milk" (demo_time 0) (demo_time 1) demo_fs) in
  fst (AppendToday s "buy milk" (demo_time 0) (demo_time 1) demo_fs) = Ok tt /\
  (exists old,
     ReadToday s (demo_time 2) demo_fs = Ok old /\
     ReadToday s (demo_time 2) fs' = Ok (old +:+ today_line (demo_time 1) "buy milk")) /\
  exists before,
    GetMemoryContext s (demo_time 2) fs' =
      Ok (before +:+ today_line (demo_time 1) "buy milk").
Proof.
  apply (appended_note_reaches_context (NewMemoryStoreWithWorkspace "ws" 100)
           "buy milk" (demo_time 0) (demo_time 1) (demo_time 2) demo_fs);
    reflexivity.
Defined.

(** X16. [WriteLongTerm] overwrites [MEMORY.md]: what it writes is what
    [ReadLongTerm] returns, whatever the file held; it touches no other
    file; and it changes nothing when it fails. *)
Theorem WriteLongTerm_then_ReadLongTerm (s : MemoryStore) (content_ : string) (fs : FS) :
  match WriteLongTerm s content_ fs with
  | (Ok _, fs') =>
      ReadLongTerm s fs' = Ok content_ /\
      (forall p, p <> filepath_Join (memoryDir s) "MEMORY.md" ->
                 files fs' !! p = files fs !! p) /\
      session_files fs' = session_files fs
  | (_, fs') => fs' = fs
  end.
Proof.
  unfold WriteLongTerm.
  destruct (denied fs (memoryDir s)); [reflexivity|].
  destruct (denied fs (filepath_Join (memoryDir s) "MEMORY.md")) eqn:Hd; [reflexivity|].
  repeat split.
  - unfold ReadLongTerm. rewrite read_or_empty_allowed by exact Hd.
    cbn [files]. now rewrite lookup_insert_eq.
  - intros p Hp. cbn [files]. now rewrite lookup_insert_ne by congruence.
Qed.

End FileMemory.

Section ProxyRoom.

Lemma for_channel_cons (c : string) (m : Outbound) (l : list Outbound) :
  for_channel c (m :: l) =
  if String.eqb (out_Channel m) c then m :: for_channel c l else for_channel c l.
Proof. reflexivity. Qed.

Lemma dropped_app (l1 l2 : list ProxyEvent) : dropped (l1 ++ l2) = dropped l1 ++ dropped l2.
Proof. unfold dropped. apply flat_map_app. Qed.

(** X17. The proxy loses no message of a transport that has room: when
    each transport queue has room for the messages of its channel that
    wait in [hub.Out], no message is dropped in front of a full queue and
    each queue receives all the messages of its channel the proxy takes,
    in their order; and when the proxy is granted as many turns as
    messages wait, it empties [hub.Out]. *)
Theorem proxy_loses_nothing_with_room (n : nat) (hub : Hub) :
  (length (buf (TelegramOut hub)) + length (for_channel "telegram" (buf (Out hub)))
   <= cap (TelegramOut hub))%nat ->
  (length (buf (NtfyOut hub)) + length (for_channel "ntfy" (buf (Out hub)))
   <= cap (NtfyOut hub))%nat ->
  let hub' := fst (proxy_run n hub []) in
  let log := snd (proxy_run n hub []) in
  dropped log = [] /\
  forwarded_to "telegram" log = for_channel "telegram" (map event_msg log) /\
  forwarded_to "ntfy" log = for_channel "ntfy" (map event_msg log) /\
  ((length (buf (Out hub)) <= n)%nat ->
   buf (Out hub') = [] /\ map event_msg log = buf (Out hub)).
Proof.
  revert hub. induction n as [|n IH]; intros hub HT HN; cbn [proxy_run fst snd].
  - split; [reflexivity|]. split; [reflexivity|]. split; [reflexivity|].
    intros H. destruct (buf (Out hub)); [now split | simpl in H; lia].
  - unfold proxy_step, receive.
    destruct (buf (Out hub)) as [|msg rest] eqn:Hout; cbn [fst snd].
    + rewrite Hout. repeat split; reflexivity.
    + set (hub0 := set_Out hub {| buf := rest; cap := cap (Out hub) |}).
      rewrite !for_channel_cons in HT, HN.
      unfold proxy_dispatch.
      destruct (String.eqb_spec (out_Channel msg) "telegram") as [Ec|Ec].
      * (* a message for telegram: the queue has room *)
        assert (Ent : String.eqb (out_Channel msg) "ntfy" = false)
          by (rewrite Ec; reflexivity).
        rewrite Ent in HN. cbn [length] in HT.
        unfold try_send. cbn [TelegramOut hub0 set_Out].
        destruct (Nat.ltb_spec (length (buf (TelegramOut hub))) (cap (TelegramOut hub)))
          as [_|Hfull]; [|lia].
        rewrite (proxy_run_log n _ [Forwarded "telegram" msg]). cbn [fst snd].
        match goal with |- context [proxy_run n ?h []] => set (hub1 := h) end.
        destruct (IH hub1) as (I1 & I2 & I3 & I4).
        { subst hub1. cbn -[for_channel]. rewrite length_app. cbn [length]. lia. }
        { subst hub1. cbn -[for_channel]. exact HN. }
        rewrite dropped_app, !forwarded_to_app, map_app. cbn [map event_msg].
        cbn [app]. rewrite !for_channel_cons, Ent.
        destruct (String.eqb_spec (out_Channel msg) "telegram"); [|contradiction].
        split; [|split; [|split; [|intros H; split]]].
        -- exact I1.
        -- cbn. now rewrite I2.
        -- cbn. exact I3.
        -- apply I4. subst hub1. cbn. simpl in H. lia.
        -- f_equal. apply I4. subst hub1. cbn. simpl in H. lia.
      * destruct (String.eqb_spec (out_Channel msg) "ntfy") as [En|En].
        -- cbn [length] in HN.
           unfold try_send. cbn [NtfyOut hub0 set_Out].
           destruct (Nat.ltb_spec (length (buf (NtfyOut hub))) (cap (NtfyOut hub)))
             as [_|Hfull]; [|lia].
           rewrite (proxy_run_log n _ [Forwarded "ntfy" msg]). cbn [fst snd].
           match goal with |- context [proxy_run n ?h []] => set (hub1 := h) end.
           destruct (IH hub1) as (I1 & I2 & I3 & I4).
           { subst hub1. cbn -[for_channel]. exact HT. }
           { subst hub1. cbn -[for_channel]. rewrite length_app. cbn [length]. lia. }
           rewrite dropped_app, !forwarded_to_app, map_app. cbn [map event_msg].
           cbn [app]. rewrite !for_channel_cons.
           destruct (String.eqb_spec (out_Channel msg) "telegram"); [contradiction|].
           destruct (String.eqb_spec (out_Channel msg) "ntfy"); [|contradiction].
           split; [|split; [|split; [|intros H; split]]].
           ++ exact I1.
           ++ cbn. exact I2.
           ++ cbn. now rewrite I3.
           ++ apply I4. subst hub1. cbn. simpl in H. lia.
           ++ f_equal. apply I4. subst hub1. cbn. simpl in H. lia.
        -- rewrite (proxy_run_log n _ [UnknownChannel msg]). cbn [fst snd].
           destruct (IH hub0) as (I1 & I2 & I3 & I4).
           { subst hub0. cbn -[for_channel]. exact HT. }
           { subst hub0. cbn -[for_channel]. exact HN. }
           rewrite dropped_app, !forwarded_to_app, map_app. cbn [map event_msg].
           cbn [app]. rewrite !for_channel_cons.
           destruct (String.eqb_spec (out_Channel msg) "telegram"); [contradiction|].
           destruct (String.eqb_spec (out_Channel msg) "ntfy"); [contradiction|].
           split; [|split; [|split; [|intros H; split]]].
           ++ exact I1.
           ++ cbn. exact I2.
           ++ cbn. exact I3.
           ++ apply I4. subst hub0. cbn. simpl in H. lia.
           ++ f_equal. apply I4. subst hub0. cbn. simpl in H. lia.
Qed.

End ProxyRoom.

Lemma proxy_loses_nothing_with_room_witness :
  let hub' := fst (proxy_run 3 demo_hub_waiting []) in
  let log := snd (proxy_run 3 demo_hub_waiting []) in
  dropped log = [] /\
  forwarded_to "telegram" log = for_channel "telegram" (map event_msg log) /\
  forwarded_to "ntfy" log = for_channel "ntfy" (map event_msg log) /\
  ((length (buf (Out demo_hub_waiting)) <= 3)%nat ->
   buf (Out hub') = [] /\ map event_msg log = buf (Out demo_hub_waiting)).
Proof.
  apply (proxy_loses_nothing_with_room 3 demo_hub_waiting); vm_compute; lia.
Defined.

Section Replies.

Context {X : Type}.

Lemma send_calls_app (t1 t2 : list Event) :
  send_calls (t1 ++ t2) = send_calls t1 ++ send_calls t2.
Proof. unfold send_calls. apply flat_map_app. Qed.

Lemma send_calls_none (tr : list Event) :
  Forall (fun ev => is_send ev = false) tr -> send_calls tr = [].
Proof.
  induction 1 as [|ev tr Hev _ IH]; [reflexivity|].
  destruct ev; try discriminate; exact IH.
Qed.

Lemma replies_once_bind_l {A B} (P : Outbound -> Prop) (R : A -> Prop)
    (m : M X A) (f : A -> M X B) :
  all_events (fun ev => is_send ev = false) m -> returns R m ->
  (forall a, R a -> replies_once P (f a)) -> replies_once P (bind m f).
Proof.
  intros Hm HR Hf w b w' H.
  apply bind_Done_inv in H as (a & w1 & H1 & H2).
  destruct (all_events_Done _ _ _ _ _ Hm H1) as (t1 & T1 & S1).
  destruct (Hf a (HR _ _ _ H1) _ _ _ H2) as (t2 & out & sent & T2 & S2 & HP).
  exists (t1 ++ t2), out, sent. split; [|split; [|exact HP]].
  - rewrite T2, T1. now rewrite app_assoc.
  - now rewrite send_calls_app, (send_calls_none t1 S1).
Qed.

Lemma replies_once_bind_r {A B} (P : Outbound -> Prop) (m : M X A) (f : A -> M X B) :
  replies_once P m -> (forall a, all_events (fun ev => is_send ev = false) (f a)) ->
  replies_once P (bind m f).
Proof.
  intros Hm Hf w b w' H.
  apply bind_Done_inv in H as (a & w1 & H1 & H2).
  destruct (Hm _ _ _ H1) as (t1 & out & sent & T1 & S1 & HP).
  destruct (all_events_Done _ _ _ _ _ (Hf a) H2) as (t2 & T2 & S2).
  exists (t1 ++ t2), out, sent. split; [|split; [|exact HP]].
  - rewrite T2, T1. now rewrite app_assoc.
  - rewrite send_calls_app, (send_calls_none t2 S2), S1. reflexivity.
Qed.

Lemma replies_once_send_Out (P : Outbound -> Prop) (out : Outbound) :
  P out -> replies_once P (send_Out (X := X) out).
Proof.
  intros HP w [] w' H.
  unfold send_Out, bind, emit, log, emit, ret in H.
  destruct (try_send (Out (hub (outside w))) out) as [c [|]]; cbn in H;
    injection H as <-; cbn [trace].
  - exists [EvSend out true], out, true. repeat split. exact HP.
  - exists [EvSend out false; EvLog "Outbound channel full, dropping message"], out, false.
    rewrite <- app_assoc. repeat split. exact HP.
Qed.

Lemma returns_any {A} (m : M X A) : returns (fun _ => True) m.
Proof. intros w a w' _. exact I. Qed.

Lemma final_reply_not_empty (finalContent lastToolResult : string) :
  final_reply finalContent lastToolResult <> ""%string.
Proof.
  unfold final_reply.
  destruct (String.eqb_spec finalContent ""), (String.eqb_spec lastToolResult "");
    cbn [negb andb]; try assumption; discriminate.
Qed.

Lemma steps_3_to_6_returns (a : AgentLoop X) (channel chatID content_ : string) :
  returns (fun reply => reply <> ""%string) (steps_3_to_6 a channel chatID content_).
Proof.
  intros w reply w' H. unfold steps_3_to_6 in H.
  apply bind_Done_inv in H as (? & ? & _ & H).
  apply bind_Done_inv in H as (? & ? & _ & H).
  apply bind_Done_inv in H as (? & ? & _ & H).
  apply bind_Done_inv in H as (? & ? & _ & H).
  apply bind_Done_inv in H as (? & ? & _ & H).
  apply bind_Done_inv in H as (p & ? & _ & H).
  injection H as <- _. apply final_reply_not_empty.
Qed.

Lemma steps_3_to_6_no_send (a : AgentLoop X) (channel chatID content_ : string) :
  all_events (fun ev => is_send ev = false) (steps_3_to_6 a channel chatID content_).
Proof.
  unfold steps_3_to_6, recall.
  apply all_events_bind; [quiet|]. intros _.
  apply all_events_bind; [quiet|]. intros r.
  apply all_events_bind; [quiet|]. intros memories.
  apply all_events_bind; [quiet|]. intros history.
  apply all_events_bind; [quiet|]. intros messages.
  apply all_events_bind; [|intros p; apply all_events_ret].
  apply all_events_Run_tool_loop; intros; reflexivity.
Qed.

Lemma process_message_replies_once (a : AgentLoop X) (msg : Inbound) :
  replies_once
    (fun out => out_Channel out = in_Channel msg /\ out_ChatID out = in_ChatID msg /\
                out_Content out <> ""%string)
    (process_message a msg).
Proof.
  unfold process_message.
  apply (replies_once_bind_l _ (fun _ => True)); [quiet | apply returns_any |].
  intros ? _; cbv beta. cbv zeta.
  destruct (length _ =? 2)%nat.
  - unfold remember.
    apply (replies_once_bind_l _ (fun _ => True)); [quiet | apply returns_any |].
    intros r _; cbv beta.
    apply (replies_once_bind_l _ (fun _ => True)); [quiet | apply returns_any |].
    intros ? _; cbv beta. apply replies_once_bind_r.
    + apply replies_once_send_Out. repeat split. discriminate.
    + intros ?. quiet.
  - apply (replies_once_bind_l _ (fun _ => True)); [quiet | apply returns_any |].
    intros ? _; cbv beta.
    apply (replies_once_bind_l _ (fun _ => True)); [quiet | apply returns_any |].
    intros ? _; cbv beta.
    apply (replies_once_bind_l _ (fun reply => reply <> ""%string));
      [apply steps_3_to_6_no_send | apply steps_3_to_6_returns |].
    intros finalContent Hne.
    apply (replies_once_bind_l _ (fun _ => True)); [quiet | apply returns_any |].
    intros ? _; cbv beta.
    apply (replies_once_bind_l _ (fun _ => True)); [quiet | apply returns_any |].
    intros ? _; cbv beta.
    apply (replies_once_bind_l _ (fun _ => True));
      [unfold archive, store_trimmed; quiet | apply returns_any |].
    intros ? _; cbv beta.
    apply (replies_once_bind_l _ (fun _ => True)); [quiet | apply returns_any |].
    intros ? _; cbv beta.
    apply replies_once_send_Out. repeat split. exact Hne.
Qed.

(** X18. Every message the loop finishes gets one reply: the
    processing of an inbound message that returns makes, by itself,
    exactly one non-blocking send on [hub.Out] (dropped when the queue is
    full), addressed to the channel and the chat of the message, and its
    text is never empty. *)
Theorem one_reply_per_message (a : AgentLoop X) (msg : Inbound) (w w' : World X) :
  process_message a msg w = Done tt w' ->
  exists tr out sent,
    trace w' = trace w ++ tr /\
    send_calls tr = [(out, sent)] /\
    out_Channel out = in_Channel msg /\
    out_ChatID out = in_ChatID msg /\
    out_Content out <> ""%string.
Proof.
  intros H.
  destruct (process_message_replies_once a msg w tt w' H)
    as (tr & out & sent & T & S & HP).
  now exists tr, out, sent.
Qed.

End Replies.

Lemma one_reply_per_message_witness :
  exists tr out sent,
    trace (world_of (process_message demo_agent_hi demo_hello demo_world)) =
      trace demo_world ++ tr /\
    send_calls tr = [(out, sent)] /\
    out_Channel out = in_Channel demo_hello /\
    out_ChatID out = in_ChatID demo_hello /\
    out_Content out <> ""%string.
Proof.
  apply (one_reply_per_message demo_agent_hi demo_hello demo_world
           (world_of (process_message demo_agent_hi demo_hello demo_world))).
  apply is_Done_eq. vm_compute. reflexivity.
Defined.

Section LoopSteps.

Context {X : Type}.

Lemma tools_Execute_Done (a : AgentLoop X) (name : string) (args : JSON)
    (w w' : World X) (r : string + string) :
  tools_Execute a name args w = Done r w' ->
  trace w' = trace w ++ [EvExecute name args] /\ core w' = core w /\
  outside w' = snd (Execute (tools a) name args (outside w)) /\
  match fst (Execute (tools a) name args (outside w)) with
  | Ok res => r = inl res
  | Err e => r = inr e
  | Panic _ => False
  end.
Proof.
  unfold tools_Execute, bind, emit, lift. cbn.
  destruct (Execute (tools a) name args (outside w)) as [[res|e|e] o']; cbn;
    intros H; try discriminate; injection H as <- <-; repeat split.
Qed.

Lemma last_nonempty_default {A} (l : list A) (x d1 d2 : A) :
  List.last (x :: l) d1 = List.last (x :: l) d2.
Proof.
  revert x. induction l as [|y l IH]; intros x; [reflexivity|].
  change (List.last (y :: l) d1 = List.last (y :: l) d2). apply IH.
Qed.

Lemma last_cons_default {A} (x : A) (l : list A) (d : A) :
  List.last (x :: l) d = List.last l x.
Proof.
  destruct l as [|y l]; [reflexivity|].
  change (List.last (y :: l) d = List.last (y :: l) x). apply last_nonempty_default.
Qed.

Ltac finish_call IH :=
  let results := fresh "results" in
  let o2 := fresh "o" in
  let Hl := fresh "Hl" in
  let w' := fresh "w'" in
  let Hrun := fresh "Hrun" in
  let Ho := fresh "Ho" in
  let Ht := fresh "Ht" in
  let Hc := fresh "Hc" in
  match goal with
  | |- context [exec_tool_calls _ _ ?ms ?l ?w1] =>
      specialize (IH ms l w1); cbn [outside set_outside] in IH
  end;
  match type of IH with
  | match ?t with _ => _ end => destruct t as [[results o2]|]
  end;
  [ destruct IH as (Hl & w' & Hrun & Ho & Ht & Hc);
    split; [cbn [length]; now rewrite Hl|];
    exists w'; rewrite Hrun; cbn [combine map fst snd];
    split; [|split; [exact Ho|split; [|exact Hc]]];
    [ f_equal; f_equal; [now rewrite <- app_assoc|];
      symmetry; apply last_cons_default
    | rewrite Ht; cbn [trace set_outside]; rewrite <- app_assoc; reflexivity ]
  | exact IH ].

(** X19. The tool calls of a response are executed in their order, one
    after the other, each on the state the one before left, and for each
    call one tool message is appended that carries the id of the call and
    the result of the tool.  A tool that fails does not stop the loop: its
    error becomes the text "(tool error) ..." of its message and the next
    call is executed.  The last text is what the loop keeps as
    [lastToolResult]; the sessions and the persistent memory are not
    touched; only a panic of a tool ends the loop. *)
Theorem exec_tool_calls_in_order (a : AgentLoop X) (calls : list ToolCall) :
  forall (messages : list PMessage) (last : string) (w : World X),
    match tool_results (tools a) calls (outside w) with
    | Some (results, o') =>
        length results = length calls /\
        exists w',
          exec_tool_calls a calls messages last w =
            Done (messages ++ map (fun q => tool_message (fst q) (snd q))
                                (combine calls results),
                  List.last results last) w' /\
          outside w' = o' /\
          trace w' =
            trace w ++ map (fun tx => EvExecute (tc_Name tx) (tc_Arguments tx)) calls /\
          core w' = core w
    | None =>
        exists e w', exec_tool_calls a calls messages last w = Crashed e w'
    end.
Proof.
  induction calls as [|tx calls IH]; intros messages last w;
    cbn [exec_tool_calls tool_results].
  - split; [reflexivity|]. exists w. cbn. rewrite !app_nil_r. repeat split.
  - unfold bind at 1. unfold tools_Execute, bind, emit, lift. cbn.
    destruct (Execute (tools a) (tc_Name tx) (tc_Arguments tx) (outside w))
      as [[res|e|e] o1]; cbn [result_text].
    + finish_call IH.
    + finish_call IH.
    + cbn. eexists _, _. reflexivity.
Qed.

(** X21. An agent that is granted no iteration never calls the
    provider and still answers: steps 3 to 6 return the text for a
    missing response, and [ProcessDirect] returns the text of the
    exhaustion. *)
Theorem no_iteration_no_provider_call (a : AgentLoop X) (channel chatID content_ : string)
    (w : World X) :
  maxIterations a <= 0 ->
  match steps_3_to_6 a channel chatID content_ w with
  | Done reply w' =>
      reply = no_response /\ chat_calls (trace w') = chat_calls (trace w)
  | Crashed _ _ => True
  end /\
  match ProcessDirect a content_ w with
  | Done r w' => r = inl exhausted /\ chat_calls (trace w') = chat_calls (trace w)
  | Crashed _ _ => True
  end.
Proof.
  intros Hmax.
  assert (Hz : Z.to_nat (maxIterations a) = 0%nat) by lia.
  assert (Hnone : forall (A : Type) (m : M X A) (w0 w1 : World X) (x : A),
             all_events (fun ev => is_chat ev = false) m -> m w0 = Done x w1 ->
             chat_calls (trace w1) = chat_calls (trace w0)).
  { intros A m w0 w1 x Hm Hr.
    destruct (all_events_Done _ _ _ _ _ Hm Hr) as (tr & -> & Htr).
    rewrite chat_calls_app, (chat_calls_none tr Htr). lia. }
  split.
  - destruct (steps_3_to_6 a channel chatID content_ w) as [reply w'|] eqn:H;
      [|exact I].
    split.
    + unfold steps_3_to_6 in H. rewrite Hz in H.
      apply bind_Done_inv in H as (? & ? & _ & H).
      apply bind_Done_inv in H as (? & ? & _ & H).
      apply bind_Done_inv in H as (? & ? & _ & H).
      apply bind_Done_inv in H as (? & ? & _ & H).
      apply bind_Done_inv in H as (? & ? & _ & H).
      cbn in H. injection H as <- _. reflexivity.
    + refine (Hnone _ _ _ _ _ _ H).
      unfold steps_3_to_6, recall. rewrite Hz.
      apply all_events_bind; [quiet|]. intros ?.
      apply all_events_bind; [quiet|]. intros ?.
      apply all_events_bind; [quiet|]. intros ?.
      apply all_events_bind; [quiet|]. intros ?.
      apply all_events_bind; [quiet|]. intros ?.
      cbn [Run_tool_loop]. quiet.
  - destruct (ProcessDirect a content_ w) as [r w'|] eqn:H; [|exact I].
    split.
    + unfold ProcessDirect in H. rewrite Hz in H.
      apply bind_Done_inv in H as (? & ? & _ & H).
      apply bind_Done_inv in H as (? & ? & _ & H).
      apply bind_Done_inv in H as (? & ? & _ & H).
      apply bind_Done_inv in H as (? & ? & _ & H).
      cbn in H. injection H as <- _. reflexivity.
    + refine (Hnone _ _ _ _ _ _ H).
      unfold ProcessDirect. rewrite Hz.
      apply all_events_bind; [quiet|]. intros ?.
      apply all_events_bind; [quiet|]. intros ?.
      apply all_events_bind; [quiet|]. intros ?.
      apply all_events_bind; [quiet|]. intros ?.
      cbn [ProcessDirect_loop]. quiet.
Qed.

(** The first call of the provider in both loops, when it fails. *)
Lemma provider_Chat_Err (a : AgentLoop X) (messages : list PMessage) (w : World X)
    (e : string) (x' : X) :
  provider a messages (Definitions (tools a)) (model a) (temperature a) (maxTokens a)
    (ext (outside w)) = (Err e, x') ->
  provider_Chat a messages w =
    Done (inr e)
      {| outside := set_ext (outside w) x'; sessionManager := sessionManager w;
         memoryPersist := memoryPersist w; clock := clock w; ticks := ticks w;
         range_order := range_order w; trace := trace w ++ [EvChat messages] |}.
Proof.
  intros H. unfold provider_Chat, bind, emit, lift. cbn. rewrite H. reflexivity.
Qed.

(** X22. A failure of the provider ends the turn at once.  When the
    provider fails whatever it is asked, steps 3 to 6 of an agent with at
    least one iteration make exactly one call of the provider, execute no
    tool and return the apology, while [ProcessDirect] returns the error
    of the provider itself. *)
Theorem provider_failure_ends_the_turn (a : AgentLoop X) (channel chatID content_ : string)
    (w : World X) :
  0 < maxIterations a ->
  (forall messages x,
      is_Err (fst (provider a messages (Definitions (tools a)) (model a)
                     (temperature a) (maxTokens a) x)) = true) ->
  match steps_3_to_6 a channel chatID content_ w with
  | Done reply w' =>
      reply = apology /\
      exists tr, trace w' = trace w ++ tr /\ chat_calls tr = 1%nat /\
                 Forall (fun ev => match ev with EvExecute _ _ => False | _ => True end) tr
  | Crashed _ _ => True
  end /\
  match ProcessDirect a content_ w with
  | Done r w' =>
      exists e w0 messages,
        r = inr e /\
        fst (provider a messages (Definitions (tools a)) (model a)
               (temperature a) (maxTokens a) (ext (outside w0))) = Err e
  | Crashed _ _ => True
  end.
Proof.
  intros Hmax Hdown.
  destruct (Z.to_nat (maxIterations a)) as [|fuel] eqn:Hz; [lia|].
  assert (Hfail : forall messages (w0 : World X),
             exists e x', provider a messages (Definitions (tools a)) (model a)
                            (temperature a) (maxTokens a) (ext (outside w0)) = (Err e, x')).
  { intros messages w0. specialize (Hdown messages (ext (outside w0))).
    destruct (provider a messages _ _ _ _ _) as [[r|e|e] x']; try discriminate.
    eauto. }
  split.
  - destruct (steps_3_to_6 a channel chatID content_ w) as [reply w'|] eqn:H;
      [|exact I].
    unfold steps_3_to_6 in H. rewrite Hz in H.
    apply bind_Done_inv in H as (? & w1 & H1 & H).
    apply bind_Done_inv in H as (? & w2 & H2 & H).
    apply bind_Done_inv in H as (? & w3 & H3 & H).
    apply bind_Done_inv in H as (? & w4 & H4 & H).
    apply bind_Done_inv in H as (messages & w5 & H5 & H).
    apply bind_Done_inv in H as (p & w6 & H6 & H).
    cbn [Run_tool_loop] in H6.
    destruct (Hfail messages w5) as (e & x' & He).
    rewrite (bind_run _ _ _ _ _ (provider_Chat_Err a messages w5 e x' He)) in H6.
    cbn in H6. injection H6 as <- <-. injection H as <- <-.
    split; [reflexivity|].
    assert (Q : forall (A : Type) (m : M X A) (wa wb : World X) (y : A),
               all_events (fun ev => is_chat ev = false /\
                                     match ev with EvExecute _ _ => False | _ => True end) m ->
               m wa = Done y wb ->
               exists tr, trace wb = trace wa ++ tr /\ chat_calls tr = 0%nat /\
                 Forall (fun ev => match ev with EvExecute _ _ => False | _ => True end) tr).
    { intros A m wa wb y Hm Hr.
      destruct (all_events_Done _ _ _ _ _ Hm Hr) as (tr & T & S).
      exists tr. split; [exact T|]. split.
      - apply chat_calls_none. eapply List.Forall_impl; [|exact S]. now intros ? [? _].
      - eapply List.Forall_impl; [|exact S]. now intros ? [_ ?]. }
    assert (S1 : exists tr, trace w1 = trace w ++ tr /\ chat_calls tr = 0%nat /\
               Forall (fun ev => match ev with EvExecute _ _ => False | _ => True end) tr).
    { match type of H1 with ?m _ = _ => apply (Q _ m _ _ _) with (2 := H1) end.
      quiet; (split; [reflexivity | exact I]). }
    assert (S2 : exists tr, trace w2 = trace w1 ++ tr /\ chat_calls tr = 0%nat /\
               Forall (fun ev => match ev with EvExecute _ _ => False | _ => True end) tr).
    { match type of H2 with ?m _ = _ => apply (Q _ m _ _ _) with (2 := H2) end.
      quiet; (split; [reflexivity | exact I]). }
    assert (S3 : exists tr, trace w3 = trace w2 ++ tr /\ chat_calls tr = 0%nat /\
               Forall (fun ev => match ev with EvExecute _ _ => False | _ => True end) tr).
    { match type of H3 with ?m _ = _ => apply (Q _ m _ _ _) with (2 := H3) end.
      unfold recall. quiet; (split; [reflexivity | exact I]). }
    assert (S4 : exists tr, trace w4 = trace w3 ++ tr /\ chat_calls tr = 0%nat /\
               Forall (fun ev => match ev with EvExecute _ _ => False | _ => True end) tr).
    { match type of H4 with ?m _ = _ => apply (Q _ m _ _ _) with (2 := H4) end.
      quiet; (split; [reflexivity | exact I]). }
    assert (S5 : exists tr, trace w5 = trace w4 ++ tr /\ chat_calls tr = 0%nat /\
               Forall (fun ev => match ev with EvExecute _ _ => False | _ => True end) tr).
    { match type of H5 with ?m _ = _ => apply (Q _ m _ _ _) with (2 := H5) end.
      quiet; (split; [reflexivity | exact I]). }
    destruct S1 as (t1 & T1 & C1 & E1), S2 as (t2 & T2 & C2 & E2),
      S3 as (t3 & T3 & C3 & E3), S4 as (t4 & T4 & C4 & E4), S5 as (t5 & T5 & C5 & E5).
    exists (t1 ++ t2 ++ t3 ++ t4 ++ t5 ++
            [EvChat messages; EvLog ("provider error: " +:+ e)]).
    cbn [trace]. split; [|split].
    + rewrite T5, T4, T3, T2, T1. rewrite <- !app_assoc. reflexivity.
    + rewrite !chat_calls_app, C1, C2, C3, C4, C5. reflexivity.
    + repeat (apply Forall_app; split; [assumption|]).
      repeat constructor.
  - destruct (ProcessDirect a content_ w) as [r w'|] eqn:H; [|exact I].
    unfold ProcessDirect in H. rewrite Hz in H.
    apply bind_Done_inv in H as (? & w1 & H1 & H).
    apply bind_Done_inv in H as (? & w2 & H2 & H).
    apply bind_Done_inv in H as (? & w3 & H3 & H).
    apply bind_Done_inv in H as (messages & w4 & H4 & H).
    cbn [ProcessDirect_loop] in H.
    destruct (Hfail messages w4) as (e & x' & He).
    rewrite (bind_run _ _ _ _ _ (provider_Chat_Err a messages w4 e x' He)) in H.
    cbn in H. injection H as <- _.
    exists e, w4, messages. split; [reflexivity|]. now rewrite He.
Qed.

End LoopSteps.

(** Two calls of tools the registry does not know: both are run, both
    failures become tool messages. *)
Example exec_tool_calls_after_a_failure :
  let calls := [ {| tc_ID := "call-1"; tc_Name := "read_file"; tc_Arguments := JNull |};
                 {| tc_ID := "call-2"; tc_Name := "exec"; tc_Arguments := JNull |} ] in
  match exec_tool_calls demo_agent calls [] "" demo_world with
  | Done p _ =>
      p = ([ {| msg_Role := "tool";
                msg_Content := "(tool error) tool not found: read_file";
                msg_ToolCalls := []; msg_ToolCallID := "call-1" |};
             {| msg_Role := "tool";
                msg_Content := "(tool error) tool not found: exec";
                msg_ToolCalls := []; msg_ToolCallID := "call-2" |} ],
           "(tool error) tool not found: exec"%string)
  | Crashed _ _ => False
  end.
Proof. vm_compute. reflexivity. Qed.


Lemma no_iteration_no_provider_call_witness :
  match steps_3_to_6 demo_agent_idle "telegram" "42" "hello" demo_world with
  | Done reply w' =>
      reply = no_response /\ chat_calls (trace w') = chat_calls (trace demo_world)
  | Crashed _ _ => True
  end /\
  match ProcessDirect demo_agent_idle "hello" demo_world with
  | Done r w' =>
      r = inl exhausted /\ chat_calls (trace w') = chat_calls (trace demo_world)
  | Crashed _ _ => True
  end.
Proof.
  apply (no_iteration_no_provider_call demo_agent_idle "telegram" "42" "hello" demo_world).
  vm_compute. discriminate.
Defined.

Lemma provider_failure_ends_the_turn_witness :
  match steps_3_to_6 demo_agent_down "telegram" "42" "hello" demo_world with
  | Done reply w' =>
      reply = apology /\
      exists tr, trace w' = trace demo_world ++ tr /\ chat_calls tr = 1%nat /\
                 Forall (fun ev => match ev with EvExecute _ _ => False | _ => True end) tr
  | Crashed _ _ => True
  end /\
  match ProcessDirect demo_agent_down "hello" demo_world with
  | Done r w' =>
      exists e w0 messages,
        r = inr e /\
        fst (provider demo_agent_down messages (Definitions (tools demo_agent_down))
               (model demo_agent_down) (temperature demo_agent_down)
               (maxTokens demo_agent_down) (ext (outside w0))) = Err e
  | Crashed _ _ => True
  end.
Proof.
  apply (provider_failure_ends_the_turn demo_agent_down "telegram" "42" "hello" demo_world).
  - reflexivity.
  - intros messages x. reflexivity.
Defined.

Section RememberPath.

Context {X : Type}.

(** X23. The remember path never archives.  When a message of the
    remember pattern arrives for a session that already holds 50
    messages, the two new turns push the two oldest messages out at
    [Save]: they are in no session any more, and [StoreHistory] is not
    called for them, whether the persistent memory is on or off. *)
Theorem remember_drops_oldest_unarchived
    (a : AgentLoop X) (msg : Inbound) (w : World X) (whole note : string) :
  FindStringSubmatch rememberRE (TrimSpace (in_Content msg)) = [whole; note] ->
  let key := in_Channel msg +:+ ":" +:+ in_ChatID msg in
  let s0 := fst (GetOrCreate (sessionManager w) key) in
  length (History s0) = 50%nat ->
  exists (w' : World X) (tr : list Event) (s' : Session) (t1 t2 : string),
    process_message a msg w = Done tt w' /\
    trace w' = trace w ++ tr /\
    store_calls tr = [] /\
    memoryPersist w' = memoryPersist w /\
    sessions (sessionManager w') !! key = Some s' /\
    length (History s') = 50%nat /\
    firstn 2 (History s0) ++ History s' =
      History s0 ++
      [ {| Role := "user"; Content := in_Content msg; Timestamp := t1 |};
        {| Role := "assistant"; Content := remembered; Timestamp := t2 |} ].
Proof.
  intros Hmatch key s0 Hlen.
  assert (Hstore : all_events (fun ev => is_store ev = false) (process_message a msg)).
  { unfold process_message. rewrite Hmatch. cbn [length Nat.eqb nth].
    unfold remember. quiet. }
  destruct (Hstore w) as (tr & Htr & Hs).
  unfold process_message in *. rewrite Hmatch in *. cbn [length Nat.eqb nth] in *.
  rewrite (bind_run _ _ _ _ _ (log_run _ w)) in *.
  match goal with
  | |- context [remember a msg note ?w0] =>
      destruct (remember_run a msg note w0) as (tr1 & tr2 & _ & _ & Hrun)
  end.
  cbn [sessionManager outside clock ticks memoryPersist range_order trace] in Hrun.
  fold key in Hrun. fold s0 in Hrun.
  rewrite Hrun in *. cbn [world_of] in Htr.
  set (s1 := AddMessage s0 "user" (in_Content msg) (rfc3339 (clock w (S (S (ticks w)))))) in *.
  set (s2 := AddMessage s1 "assistant" remembered
               (rfc3339 (clock w (S (S (S (ticks w))))))) in *.
  eexists _, tr, (snd (Trim s2)), _, _.
  split; [reflexivity|]. split; [exact Htr|]. split; [now apply store_calls_none|].
  split; [reflexivity|].
  cbn [sessionManager]. split; [apply lookup_insert_eq|].
  assert (H2 : History s2 = History s0 ++
                 [ {| Role := "user"; Content := in_Content msg;
                      Timestamp := rfc3339 (clock w (S (S (ticks w)))) |};
                   {| Role := "assistant"; Content := remembered;
                      Timestamp := rfc3339 (clock w (S (S (S (ticks w))))) |} ]).
  { unfold s2, s1, AddMessage. cbn [History]. now rewrite <- app_assoc. }
  assert (L2 : length (History s2) = 52%nat).
  { rewrite H2, length_app, Hlen. reflexivity. }
  unfold Trim, MaxHistorySize. rewrite L2. cbn [Nat.ltb Nat.leb Nat.sub snd History].
  split.
  - rewrite length_skipn, L2. reflexivity.
  - rewrite <- H2.
    replace (firstn 2 (History s0)) with (firstn 2 (History s2)).
    + apply firstn_skipn.
    + rewrite H2, firstn_app, Hlen. cbn [Nat.sub firstn]. apply app_nil_r.
Qed.

End RememberPath.

Lemma remember_drops_oldest_unarchived_witness :
  let key := ("telegram" +:+ ":" +:+ "42")%string in
  let s0 := fst (GetOrCreate (sessionManager demo_world_full) key) in
  exists (w' : World unit) (tr : list Event) (s' : Session) (t1 t2 : string),
    process_message demo_agent demo_remember demo_world_full = Done tt w' /\
    trace w' = trace demo_world_full ++ tr /\
    store_calls tr = [] /\
    memoryPersist w' = memoryPersist demo_world_full /\
    sessions (sessionManager w') !! key = Some s' /\
    length (History s') = 50%nat /\
    firstn 2 (History s0) ++ History s' =
      History s0 ++
      [ {| Role := "user"; Content := in_Content demo_remember; Timestamp := t1 |};
        {| Role := "assistant"; Content := remembered; Timestamp := t2 |} ].
Proof.
  apply (remember_drops_oldest_unarchived demo_agent demo_remember demo_world_full
           "remember to buy milk" "buy milk").
  - vm_compute. reflexivity.
  - vm_compute. reflexivity.
Defined.

Section Normalize.

Lemma squared_norm_zero (v : list F32.t) :
  Forall (fun x => is_zero x = true) v ->
  fold_left (fun norm val => F32.add norm (F32.mul val val)) v F32.zero = F32.zero.
Proof.
  induction 1 as [|x v Hx _ IH]; [reflexivity|].
  cbn [fold_left]. destruct x as [s| | |]; try discriminate.
  replace (F32.add F32.zero (F32.mul (S754_zero s) (S754_zero s))) with F32.zero
    by (destruct s; reflexivity).
  exact IH.
Qed.

(** X24. The two normalizations differ on a vector of zeros:
    [normalizeEmbeddings] of the engine leaves it as it is, since its
    norm is not positive, while [normalizeVector] of package memory
    divides by the norm and returns NaN in every component.  Both keep
    the number of components, of every vector. *)
Theorem normalizing_a_zero_vector (v : list F32.t) (es : list (list F32.t)) :
  Forall (fun x => is_zero x = true) v ->
  normalizeEmbeddings (v :: es) = v :: normalizeEmbeddings es /\
  normalizeVector v = map (fun _ => S754_nan) v /\
  map (@length F32.t) (normalizeEmbeddings es) = map (@length F32.t) es /\
  length (normalizeVector v) = length v.
Proof.
  intros Hz.
  assert (Hn : vector_norm v = F32.zero).
  { unfold vector_norm. now rewrite squared_norm_zero. }
  split; [|split; [|split]].
  - unfold normalizeEmbeddings. cbn [map]. now rewrite Hn.
  - unfold normalizeVector. rewrite Hn. clear Hn.
    induction Hz as [|x v Hx _ IH]; [reflexivity|].
    cbn [map]. rewrite IH. destruct x as [s| | |]; try discriminate. reflexivity.
  - unfold normalizeEmbeddings. rewrite map_map. apply map_ext. intros e.
    destruct (SFltb _ _); [apply length_map | reflexivity].
  - unfold normalizeVector. apply length_map.
Qed.

Lemma normalizing_a_zero_vector_witness :
  let v := [S754_zero false; S754_zero true; S754_zero false] in
  let es := [[F32.of_Z 3; F32.of_Z 4]] in
  normalizeEmbeddings (v :: es) = v :: normalizeEmbeddings es /\
  normalizeVector v = map (fun _ => S754_nan) v /\
  map (@length F32.t) (normalizeEmbeddings es) = map (@length F32.t) es /\
  length (normalizeVector v) = length v.
Proof.
  apply (normalizing_a_zero_vector [S754_zero false; S754_zero true; S754_zero false]
           [[F32.of_Z 3; F32.of_Z 4]]).
  repeat constructor.
Defined.

Example normalizeEmbeddings_3_4 :
  normalizeEmbeddings [[F32.of_Z 3; F32.of_Z 4]] =
    [[F32.div (F32.of_Z 3) (F32.of_Z 5); F32.div (F32.of_Z 4) (F32.of_Z 5)]].
Proof. vm_compute. reflexivity. Qed.

End Normalize.

Section Tokens.

Lemma Tokenize_length (t : Tokenizer) (text : string) (n : Z) (seq : list Z) :
  Tokenize t text n = Ok seq ->
  0 < n ->
  exists ids, EncodeSingle t text = Ok ids /\
              Z.of_nat (length seq) = Z.max (Z.of_nat (length ids)) n.
Proof.
  unfold Tokenize. intros H Hn.
  destruct (Z.leb_spec n 0); [lia|]. destruct (Z.leb_spec n 0); [lia|].
  destruct (EncodeSingle t text) as [ids|e|e]; try discriminate.
  injection H as <-. exists ids. split; [reflexivity|].
  rewrite length_app, repeat_length. lia.
Qed.

(** X25. [Tokenize] pads and never truncates: its result is the ids of
    the text followed by zeros, and has [maxLength] entries (the default
    of the tokenizer when [maxLength] is not positive) or as many as the
    text has ids, whichever is more; it fails when no positive
    [maxLength] is left or when the encoding fails. *)
Theorem Tokenize_pads_never_truncates (t : Tokenizer) (text : string) (maxLength : Z) :
  let n := if maxLength <=? 0 then tk_maxLength t else maxLength in
  match Tokenize t text maxLength with
  | Ok tokens =>
      0 < n /\
      exists ids,
        EncodeSingle t text = Ok ids /\
        firstn (length ids) tokens = ids /\
        Forall (fun x => x = 0) (skipn (length ids) tokens) /\
        Z.of_nat (length tokens) = Z.max (Z.of_nat (length ids)) n
  | Err e => (n <= 0 /\ e = "maxLength must be > 0"%string) \/ EncodeSingle t text = Err e
  | Panic e => EncodeSingle t text = Panic e
  end.
Proof.
  intros n. unfold Tokenize. fold n.
  destruct (Z.leb_spec n 0) as [Hn|Hn]; [left; auto|].
  destruct (EncodeSingle t text) as [ids|e|e]; [|now right|reflexivity].
  split; [exact Hn|]. exists ids. repeat split.
  - now rewrite firstn_app, Nat.sub_diag, firstn_all, app_nil_r.
  - rewrite skipn_app, Nat.sub_diag, skipn_all, skipn_O. cbn [app].
    apply List.Forall_forall. intros x Hx. now apply repeat_spec in Hx.
  - rewrite length_app, repeat_length. lia.
Qed.

Lemma check_lengths_None (tokens : list (list Z)) (seqLen : Z) :
  forall i, check_lengths tokens i seqLen = None <->
            Forall (fun seq => Z.of_nat (length seq) = seqLen) tokens.
Proof.
  induction tokens as [|seq rest IH]; intros i; cbn [check_lengths].
  - split; [constructor | reflexivity].
  - destruct (Z.eqb_spec (Z.of_nat (length seq)) seqLen) as [E|E]; cbn [negb].
    + rewrite IH. split; [now constructor | now inversion 1].
    + split; [discriminate | inversion 1; contradiction].
Qed.

Lemma copy_at_row (pre seq post : list Z) (n : nat) :
  length seq = n ->
  copy_at (pre ++ repeat 0 n ++ post) (length pre) (length pre + n) seq =
  pre ++ seq ++ post.
Proof.
  intros Hn. unfold copy_at.
  replace (length pre + n - length pre)%nat with n by lia.
  rewrite Hn, Nat.min_id, <- Hn, firstn_all, firstn_app, Nat.sub_diag, firstn_all.
  cbn [firstn]. rewrite app_nil_r. f_equal. f_equal.
  rewrite skipn_app, skipn_all2 by lia.
  replace (length pre + length seq - length pre)%nat with (length seq) by lia.
  cbn [app]. rewrite skipn_app, skipn_all2 by (rewrite repeat_length; lia).
  rewrite repeat_length, Hn, Nat.sub_diag. reflexivity.
Qed.

Lemma flatten_rows_concat (seqLen : nat) (rows_ : list (list Z)) :
  Forall (fun seq => length seq = seqLen) rows_ ->
  forall (done : list (list Z)),
    Forall (fun seq => length seq = seqLen) done ->
    flatten_rows rows_ (length done) seqLen
      (concat done ++ repeat 0 (length rows_ * seqLen)) =
    concat done ++ concat rows_.
Proof.
  induction 1 as [|seq rest Hs _ IH]; intros done Hd; cbn [flatten_rows].
  - reflexivity.
  - assert (Hlen : length (concat done) = (length done * seqLen)%nat).
    { clear -Hd. induction Hd as [|d done Hd _ IH]; [reflexivity|].
      cbn [concat length]. rewrite length_app, IH, Hd. lia. }
    cbn [length]. replace ((S (length rest)) * seqLen)%nat
      with (seqLen + length rest * seqLen)%nat by lia.
    rewrite repeat_app.
    replace ((length done + 1) * seqLen)%nat with (length (concat done) + seqLen)%nat
      by lia.
    rewrite <- Hlen, (copy_at_row (concat done) seq _ seqLen Hs).
    specialize (IH (done ++ [seq])).
    rewrite length_app, concat_app in IH. cbn [length concat] in IH.
    rewrite app_nil_r, Nat.add_1_r, <- app_assoc in IH.
    rewrite IH; [cbn [concat]; now rewrite <- app_assoc|].
    apply Forall_app. split; [exact Hd | now constructor].
Qed.

Lemma CreateInputTensorFromTokens_is_Ok (seq0 : list Z) (rest : list (list Z)) :
  (Forall (fun seq => length seq = length seq0) (seq0 :: rest) ->
   exists data,
     CreateInputTensorFromTokens (seq0 :: rest) =
       Ok (data, [Z.of_nat (length (seq0 :: rest)); Z.of_nat (length seq0)])) /\
  (~ Forall (fun seq => length seq = length seq0) (seq0 :: rest) ->
   is_Err (CreateInputTensorFromTokens (seq0 :: rest)) = true).
Proof.
  unfold CreateInputTensorFromTokens.
  destruct (check_lengths (seq0 :: rest) 0 (Z.of_nat (length seq0))) as [e|] eqn:E.
  - split; [|reflexivity]. intros Hall.
    assert (E' : check_lengths (seq0 :: rest) 0 (Z.of_nat (length seq0)) = None).
    { apply check_lengths_None. eapply List.Forall_impl; [|exact Hall].
      intros s Hs. cbv beta in Hs. now rewrite Hs. }
    congruence.
  - split; [eauto|]. intros Hnot. exfalso. apply Hnot.
    apply check_lengths_None in E.
    eapply List.Forall_impl; [|exact E]. intros s Hs. cbv beta in Hs. lia.
Qed.

(** X26. [CreateInputTensorFromTokens] accepts a batch exactly when all
    its sequences have the length of the first: it then hands to the
    runtime the sequences laid end to end, with the shape
    [[batch, length]]; an empty batch and a batch of unequal lengths are
    refused. *)
Theorem CreateInputTensorFromTokens_accepts_equal_lengths (tokens : list (list Z)) :
  match CreateInputTensorFromTokens tokens with
  | Ok (data, shape) =>
      exists seq0 rest,
        tokens = seq0 :: rest /\
        Forall (fun seq => length seq = length seq0) tokens /\
        data = concat tokens /\
        shape = [Z.of_nat (length tokens); Z.of_nat (length seq0)]
  | Err _ =>
      tokens = [] \/
      exists seq0 rest,
        tokens = seq0 :: rest /\
        ~ Forall (fun seq => length seq = length seq0) tokens
  | Panic _ => False
  end.
Proof.
  unfold CreateInputTensorFromTokens. destruct tokens as [|seq0 rest]; [now left|].
  destruct (check_lengths (seq0 :: rest) 0 (Z.of_nat (length seq0))) as [e|] eqn:E.
  - right. exists seq0, rest. split; [reflexivity|]. intros Hall.
    assert (E' : check_lengths (seq0 :: rest) 0 (Z.of_nat (length seq0)) = None).
    { apply check_lengths_None. eapply List.Forall_impl; [|exact Hall].
      intros s Hs. cbv beta in Hs. now rewrite Hs. }
    congruence.
  - apply check_lengths_None in E.
    assert (Hall : Forall (fun seq => length seq = length seq0) (seq0 :: rest)).
    { eapply List.Forall_impl; [|exact E]. intros s Hs. cbv beta in Hs. lia. }
    exists seq0, rest. repeat split; [exact Hall|].
    exact (flatten_rows_concat (length seq0) (seq0 :: rest) Hall [] (List.Forall_nil _)).
Qed.

Lemma TokenizeBatch_loop_lengths (t : Tokenizer) (n : Z) (texts : list string) :
  0 < n ->
  forall i tokens,
    TokenizeBatch_loop t texts i n = Ok tokens ->
    Forall2 (fun text seq =>
               exists ids, EncodeSingle t text = Ok ids /\
                           Z.of_nat (length seq) = Z.max (Z.of_nat (length ids)) n)
            texts tokens.
Proof.
  intros Hn. induction texts as [|text texts IH]; intros i tokens H;
    cbn [TokenizeBatch_loop] in H.
  - injection H as <-. constructor.
  - destruct (Tokenize t text n) as [seq|e|e] eqn:ET; try discriminate.
    destruct (TokenizeBatch_loop t texts (i + 1) n) as [rest|e|e] eqn:E; try discriminate.
    injection H as <-. constructor; [|now apply (IH (i + 1))].
    exact (Tokenize_length t text n seq ET Hn).
Qed.

Lemma Tokenize_without_length (t : Tokenizer) (text : string) (n : Z) :
  n <= 0 -> tk_maxLength t <= 0 -> Tokenize t text n = Err "maxLength must be > 0".
Proof.
  intros Hn Htk. unfold Tokenize.
  destruct (Z.leb_spec n 0); [|lia].
  destruct (Z.leb_spec (tk_maxLength t) 0); [reflexivity|lia].
Qed.

(** X27. A batch is tokenized into a tensor only when no text is too
    long for it: when every text of a batch that [TokenizeBatch] accepts
    has at most [maxLength] ids, all sequences have [maxLength] entries
    and [CreateInputTensorFromTokens] accepts them, with the shape
    [[batch, maxLength]]; but a text with more ids keeps them all, so a
    batch whose first text fits and that holds a longer one is refused. *)
Theorem batch_with_a_long_text_is_refused (t : Tokenizer) (text0 : string)
    (others : list string) (maxLength : Z) (tokens : list (list Z)) :
  TokenizeBatch t (text0 :: others) maxLength = Ok tokens ->
  let n := if maxLength <=? 0 then tk_maxLength t else maxLength in
  fits_in t n text0 = true ->
  if forallb (fits_in t n) others
  then Forall (fun seq => Z.of_nat (length seq) = n) tokens /\
       exists data,
         CreateInputTensorFromTokens tokens =
           Ok (data, [Z.of_nat (length (text0 :: others)); n])
  else is_Err (CreateInputTensorFromTokens tokens) = true.
Proof.
  intros H n Hfit. unfold TokenizeBatch in H. fold n in H.
  assert (Hn : 0 < n).
  { destruct (Z.ltb_spec 0 n) as [|Hle]; [assumption|exfalso].
    assert (Htk : tk_maxLength t <= 0).
    { unfold n in Hle. destruct (Z.leb_spec maxLength 0); lia. }
    cbn [TokenizeBatch_loop] in H.
    rewrite (Tokenize_without_length t text0 n Hle Htk) in H. discriminate. }
  pose proof (TokenizeBatch_loop_lengths t n _ Hn 0 tokens H) as HF.
  inversion HF as [|? seq0 ? rest (ids0 & He0 & Hl0) HF']; subst.
  assert (H0 : Z.of_nat (length seq0) = n).
  { unfold fits_in in Hfit. rewrite He0 in Hfit. apply Z.leb_le in Hfit. lia. }
  destruct (CreateInputTensorFromTokens_is_Ok seq0 rest) as [Hyes Hno].
  destruct (forallb (fits_in t n) others) eqn:Hall.
  - assert (Hrest : Forall (fun seq => Z.of_nat (length seq) = n) rest).
    { rewrite forallb_forall in Hall. clear -HF' Hall.
      induction HF' as [|text seq texts tokens (ids & He & Hl) _ IH]; [constructor|].
      constructor.
      - specialize (Hall text (or_introl eq_refl)). unfold fits_in in Hall.
        rewrite He in Hall. apply Z.leb_le in Hall. lia.
      - apply IH. intros x Hx. apply Hall. now right. }
    split; [now constructor|].
    destruct Hyes as [data Hdata].
    { constructor; [reflexivity|].
      eapply List.Forall_impl; [|exact Hrest]. intros s Hs. cbv beta in Hs. lia. }
    exists data. rewrite Hdata. cbn [length].
    rewrite (Forall2_length _ _ _ HF'), <- H0. reflexivity.
  - apply Hno. intros Hsame.
    assert (Hfits : forallb (fits_in t n) others = true); [|congruence].
    apply forallb_forall. inversion Hsame as [|? ? _ Hrest]; subst. clear -HF' Hrest Hn H0.
    revert Hrest. induction HF' as [|text seq texts tokens (ids & He & Hl) _ IH];
      intros Hrest x Hx; [destruct Hx|].
    inversion Hrest as [|? ? Hs Hrest']; subst.
    destruct Hx as [<-|Hx]; [|now apply IH].
    unfold fits_in. rewrite He. apply Z.leb_le. lia.
Qed.

End Tokens.

Lemma batch_with_a_long_text_is_refused_witness :
  is_Err (CreateInputTensorFromTokens
            [[7; 7; 0; 0]; [7; 7; 7; 7; 7; 7]]) = true.
Proof.
  apply (batch_with_a_long_text_is_refused demo_tokenizer "ab" ["abcdef"]%string 0
           [[7; 7; 0; 0]; [7; 7; 7; 7; 7; 7]]); reflexivity.
Defined.

Example batch_of_short_texts :
  TokenizeBatch demo_tokenizer ["ab"; "abc"]%string 0 =
    Ok [[7; 7; 0; 0]; [7; 7; 7; 0]] /\
  CreateInputTensorFromTokens [[7; 7; 0; 0]; [7; 7; 7; 0]] =
    Ok ([7; 7; 0; 0; 7; 7; 7; 0], [2; 4]) /\
  generateAttentionMasks [[7; 7; 0; 0]; [7; 7; 7; 0]] = [[1; 1; 0; 0]; [1; 1; 1; 0]].
Proof. repeat split. Qed.

Section Statistics.

Lemma int64_small (z : Z) : - 2 ^ 63 <= z < 2 ^ 63 -> int64 z = z.
Proof.
  intros H. unfold int64.
  rewrite Z.mod_small by lia. lia.
Qed.

Lemma updateStats_loop_p95 (lats : list Z) :
  forall i p95Index total p95,
    snd (updateStats_loop lats i p95Index total p95) =
      if (0 <? p95Index) && (i <=? p95Index) &&
         (p95Index <? i + Z.of_nat (length lats))
      then nth (Z.to_nat (p95Index - i)) lats 0
      else p95.
Proof.
  induction lats as [|lat rest IH]; intros i idx total p95; cbn [updateStats_loop length].
  - cbn [snd]. destruct (0 <? idx), (Z.leb_spec i idx), (Z.ltb_spec idx (i + Z.of_nat 0));
      cbn [andb]; try reflexivity; lia.
  - rewrite IH. rewrite Nat2Z.inj_succ.
    destruct (Z.ltb_spec 0 idx), (Z.leb_spec (i + 1) idx), (Z.leb_spec i idx),
      (Z.ltb_spec idx (i + 1 + Z.of_nat (length rest))),
      (Z.ltb_spec idx (i + Z.succ (Z.of_nat (length rest)))),
      (Z.eqb_spec i idx); cbn [andb]; try reflexivity; try lia.
    + replace (Z.to_nat (idx - i)) with (S (Z.to_nat (idx - (i + 1)))) by lia.
      reflexivity.
    + subst. rewrite Z.sub_diag. reflexivity.
Qed.

Lemma updateStats_loop_total (lats : list Z) :
  forall i p95Index total p95,
    Forall (fun lat => 0 <= lat < 2 ^ 56) lats ->
    0 <= total ->
    total + Z.of_nat (length lats) * 2 ^ 56 < 2 ^ 63 ->
    fst (updateStats_loop lats i p95Index total p95) = total + fold_right Z.add 0 lats.
Proof.
  induction lats as [|lat rest IH]; intros i idx total p95 Hall Ht Hb;
    cbn [updateStats_loop length fold_right].
  - cbn [fst]. lia.
  - inversion Hall as [|? ? Hlat Hrest]; subst.
    cbn [length] in Hb. rewrite Nat2Z.inj_succ in Hb.
    rewrite int64_small by lia.
    rewrite IH by (try assumption; lia). lia.
Qed.

Lemma updateStats_RecentLatencies (s : InferenceStats) :
  RecentLatencies (updateStats s) = RecentLatencies s.
Proof.
  unfold updateStats. destruct (RecentLatencies s) eqn:E; [now rewrite E|].
  destruct (updateStats_loop _ _ _ _ _). reflexivity.
Qed.

Lemma updateStats_counters (s : InferenceStats) :
  TotalInferences (updateStats s) = TotalInferences s /\
  TotalErrors (updateStats s) = TotalErrors s /\
  ErrorRate (updateStats s) = ErrorRate s.
Proof.
  unfold updateStats. destruct (RecentLatencies s) eqn:E; [easy|].
  destruct (updateStats_loop _ _ _ _ _). easy.
Qed.

Lemma updateStats_P95Latency (s : InferenceStats) :
  (length (RecentLatencies s) <= 100)%nat ->
  P95Latency (updateStats s) =
    if (20 <=? length (RecentLatencies s))%nat
    then nth (length (RecentLatencies s) * 95 / 100) (RecentLatencies s) 0
    else P95Latency s.
Proof.
  intros Hlen. unfold updateStats.
  destruct (RecentLatencies s) as [|lat0 rest] eqn:E; [reflexivity|].
  set (lats := lat0 :: rest) in *.
  set (n := Z.of_nat (length lats)).
  pose proof (updateStats_loop_p95 lats 0
                (if 20 <=? n then Z.quot (int64 (n * 95)) 100 else 0) 0 (P95Latency s)) as Hp.
  destruct (updateStats_loop lats 0 _ 0 (P95Latency s)) as [total p95].
  cbn [snd] in Hp. cbn [P95Latency]. rewrite Hp. clear Hp.
  destruct (Nat.leb_spec 20 (length lats)) as [H20|H20];
    destruct (Z.leb_spec 20 n) as [H20'|H20']; try (unfold n in *; lia).
  - rewrite int64_small by (unfold n; lia).
    rewrite Z.quot_div_nonneg by (unfold n; lia).
    assert (Hq : n * 95 / 100 = Z.of_nat (length lats * 95 / 100)).
    { unfold n. rewrite Nat2Z.inj_div, Nat2Z.inj_mul. reflexivity. }
    rewrite Hq.
    assert (Hlt : (length lats * 95 / 100 < length lats)%nat).
    { apply Nat.Div0.div_lt_upper_bound. lia. }
    assert (Hpos : (0 < length lats * 95 / 100)%nat).
    { apply Nat.div_str_pos. lia. }
    destruct (Z.ltb_spec 0 (Z.of_nat (length lats * 95 / 100))); [|lia].
    destruct (Z.leb_spec 0 (Z.of_nat (length lats * 95 / 100))); [|lia].
    unfold n in *.
    destruct (Z.ltb_spec (Z.of_nat (length lats * 95 / 100))
                (0 + Z.of_nat (length lats))); [|lia].
    cbn [andb]. rewrite Z.sub_0_r, Nat2Z.id. reflexivity.
  - reflexivity.
Qed.

Lemma RecordInferences_snoc (s : InferenceStats) (calls : list (Z * Z)) (c : Z * Z) :
  RecordInferences s (calls ++ [c]) =
    RecordInference (RecordInferences s calls) (fst c) (snd c).
Proof. unfold RecordInferences. now rewrite fold_left_app. Qed.

(** The window after one more latency. *)
Lemma window_snoc (lats : list Z) (lat : Z) :
  let w := skipn (length lats - 100) lats ++ [lat] in
  (if (100 <? length w)%nat then skipn 1 w else w) =
    skipn (length (lats ++ [lat]) - 100) (lats ++ [lat]).
Proof.
  cbv zeta. rewrite !length_app, length_skipn. cbn [length].
  assert (Hk : skipn (length lats - 100) (lats ++ [lat]) =
               skipn (length lats - 100) lats ++ [lat]).
  { rewrite skipn_app.
    replace (length lats - 100 - length lats)%nat with 0%nat by lia. reflexivity. }
  destruct (Nat.ltb_spec 100 (length lats - (length lats - 100) + 1)) as [H|H].
  - replace (length lats + 1 - 100)%nat with (1 + (length lats - 100))%nat by lia.
    rewrite <- skipn_skipn, Hk. reflexivity.
  - replace (length lats + 1 - 100)%nat with (length lats - 100)%nat by lia.
    now rewrite Hk.
Qed.

Lemma RecordInferences_RecentLatencies (calls : list (Z * Z)) :
  RecentLatencies (RecordInferences NewInferenceStats calls) =
    skipn (length calls - 100) (map snd calls).
Proof.
  induction calls as [|c calls IH] using rev_ind; [reflexivity|].
  rewrite RecordInferences_snoc. unfold RecordInference.
  rewrite updateStats_RecentLatencies. cbn [RecentLatencies].
  rewrite IH, map_app. cbn [map].
  rewrite <- (length_map snd calls), <- (length_map snd (calls ++ [c])), map_app.
  apply window_snoc.
Qed.

(** X28. The statistics keep the latencies of the last 100 inferences,
    oldest first.  [P95Latency] is read off this window by position, not
    by rank: with at least 20 latencies in the window it is the one at
    index [len * 95 / 100] in arrival order (with a full window, the
    latency of the fifth most recent inference); with fewer it is 0. *)
Theorem P95Latency_is_positional (calls : list (Z * Z)) :
  let s := RecordInferences NewInferenceStats calls in
  let window := skipn (length calls - 100) (map snd calls) in
  RecentLatencies s = window /\
  (length window <= 100)%nat /\
  P95Latency s =
    if (20 <=? length window)%nat
    then nth (length window * 95 / 100) window 0
    else 0.
Proof.
  cbv zeta. split; [apply RecordInferences_RecentLatencies|].
  split; [rewrite length_skipn, length_map; lia|].
  induction calls as [|c calls IH] using rev_ind; [reflexivity|].
  pose proof (RecordInferences_RecentLatencies (calls ++ [c])) as Hw.
  pose proof (RecordInferences_RecentLatencies calls) as Hw0.
  rewrite RecordInferences_snoc in Hw |- *.
  unfold RecordInference in Hw |- *.
  rewrite updateStats_RecentLatencies in Hw. cbn [RecentLatencies] in Hw.
  rewrite updateStats_P95Latency; cbn [RecentLatencies P95Latency]; rewrite Hw.
  2: { rewrite length_skipn, length_map. lia. }
  destruct (Nat.leb_spec 20 (length (skipn (length (calls ++ [c]) - 100)
                                       (map snd (calls ++ [c]))))) as [H|H];
    [reflexivity|].
  rewrite IH.
  destruct (Nat.leb_spec 20 (length (skipn (length calls - 100) (map snd calls))))
    as [H'|H']; [|reflexivity].
  rewrite !length_skipn, !length_map, !length_app in *. cbn [length] in *. lia.
Qed.

(** X29. [AverageLatency] is the mean, rounded down, of the latencies in
    the window, that is of the last 100 inferences only (for latencies
    below 2^56 ns, about two years, whose sum cannot overflow). *)
Theorem AverageLatency_of_window (calls : list (Z * Z)) :
  calls <> [] ->
  Forall (fun c => 0 <= snd c < 2 ^ 56) calls ->
  let window := skipn (length calls - 100) (map snd calls) in
  AverageLatency (RecordInferences NewInferenceStats calls) =
    fold_right Z.add 0 window / Z.of_nat (length window).
Proof.
  intros Hne Hall. cbv zeta.
  destruct calls as [|c calls _] using rev_ind; [congruence|]. clear Hne.
  pose proof (RecordInferences_RecentLatencies (calls ++ [c])) as Hw.
  rewrite RecordInferences_snoc in Hw |- *.
  unfold RecordInference in Hw |- *.
  rewrite updateStats_RecentLatencies in Hw. cbn [RecentLatencies] in Hw.
  set (window := skipn (length (calls ++ [c]) - 100) (map snd (calls ++ [c]))) in *.
  assert (Hlen : (0 < length window <= 100)%nat).
  { unfold window. rewrite length_skipn, length_map, length_app. cbn [length]. lia. }
  assert (Hwin : Forall (fun lat => 0 <= lat < 2 ^ 56) window).
  { apply List.Forall_forall. intros lat Hin.
    unfold window in Hin.
    assert (Hin' : List.In lat (map snd (calls ++ [c]))).
    { rewrite <- (firstn_skipn (length (calls ++ [c]) - 100)). apply in_or_app. now right. }
    apply in_map_iff in Hin' as (c' & <- & Hc').
    now apply (proj1 (List.Forall_forall _ _) Hall). }
  assert (Hsum : 0 <= fold_right Z.add 0 window).
  { clear -Hwin. induction Hwin; cbn [fold_right]; lia. }
  unfold updateStats. cbn [RecentLatencies]. rewrite Hw.
  destruct window as [|lat0 rest] eqn:E; [cbn in Hlen; lia|]. rewrite <- E in *.
  match goal with
  | |- context [updateStats_loop window 0 ?idx 0 ?p] =>
      pose proof (updateStats_loop_total window 0 idx 0 p Hwin (Z.le_refl 0)) as Ht;
      destruct (updateStats_loop window 0 idx 0 p) as [total p95]
  end.
  cbn [fst] in Ht. cbn [AverageLatency].
  rewrite Ht by lia. rewrite Z.quot_div_nonneg by lia. reflexivity.
Qed.

Lemma AverageLatency_of_window_witness :
  AverageLatency (RecordInferences NewInferenceStats [(1, 10); (2, 25)]) = 17.
Proof.
  apply (AverageLatency_of_window [(1, 10); (2, 25)]).
  - discriminate.
  - repeat constructor; cbn; lia.
Defined.

Lemma record_failed_Embeds_snoc (s : InferenceStats) (calls : list (Z * Z)) (c : Z * Z) :
  record_failed_Embeds s (calls ++ [c]) =
    record_failed_Embed (record_failed_Embeds s calls) (fst c) (snd c).
Proof. unfold record_failed_Embeds. now rewrite fold_left_app. Qed.

Lemma RecordInference_counters (s : InferenceStats) (tokenCount latency : Z) :
  TotalInferences (RecordInference s tokenCount latency) =
    int64 (TotalInferences s + 1) /\
  TotalErrors (RecordInference s tokenCount latency) = TotalErrors s /\
  ErrorRate (RecordInference s tokenCount latency) = ErrorRate s.
Proof.
  unfold RecordInference.
  match goal with |- context [updateStats ?s'] =>
    destruct (updateStats_counters s') as (-> & -> & ->) end.
  easy.
Qed.

Lemma failed_Embeds_counters (fails : list (Z * Z)) :
  Z.of_nat (length fails) < 2 ^ 63 ->
  let k := Z.of_nat (length fails) in
  let s := record_failed_Embeds NewInferenceStats fails in
  TotalInferences s = k /\ TotalErrors s = k /\
  ErrorRate s = if k <=? 1 then F64.zero else F64_div (F64.of_Z k) (F64.of_Z (k - 1)).
Proof.
  cbv zeta. induction fails as [|c fails IH] using rev_ind; intros Hk; [easy|].
  rewrite length_app in Hk |- *. cbn [length] in Hk |- *.
  destruct IH as (Hi & He & Hr); [lia|].
  rewrite record_failed_Embeds_snoc. unfold record_failed_Embed.
  set (s := record_failed_Embeds NewInferenceStats fails) in *.
  destruct (RecordInference_counters (RecordError s) (fst c) (snd c)) as (-> & -> & ->).
  unfold RecordError, updateErrorRate. cbn [TotalInferences TotalErrors].
  rewrite Hi, He. rewrite (int64_small (Z.of_nat (length fails) + 1)) by lia.
  replace (Z.of_nat (length fails + 1)) with (Z.of_nat (length fails) + 1) by lia.
  destruct (Z.ltb_spec 0 (Z.of_nat (length fails))) as [Hpos|Hzero];
    cbn [TotalInferences TotalErrors ErrorRate].
  - rewrite int64_small by lia. split; [reflexivity|]. split; [reflexivity|].
    destruct (Z.leb_spec (Z.of_nat (length fails) + 1) 1); [lia|].
    now replace (Z.of_nat (length fails) + 1 - 1) with (Z.of_nat (length fails)) by lia.
  - rewrite int64_small by lia. split; [reflexivity|]. split; [reflexivity|].
    destruct (Z.leb_spec (Z.of_nat (length fails) + 1) 1); [|lia].
    rewrite Hr. destruct (Z.leb_spec (Z.of_nat (length fails)) 1); [reflexivity|lia].
Qed.

(** X30. [ErrorRate] is not the share of failed inferences.  A failed
    [Embed] counts its error before it counts itself: after [k] failed
    calls on fresh statistics the rate is [k / (k - 1)] (2.0 after two
    failures), after a single one it is still 0; and the inferences
    recorded later without an error leave it unchanged. *)
Theorem ErrorRate_after_failures (fails oks : list (Z * Z)) :
  Z.of_nat (length fails) < 2 ^ 63 ->
  let k := Z.of_nat (length fails) in
  ErrorRate (RecordInferences (record_failed_Embeds NewInferenceStats fails) oks) =
    if k <=? 1 then F64.zero else F64_div (F64.of_Z k) (F64.of_Z (k - 1)).
Proof.
  intros Hk. cbv zeta.
  destruct (failed_Embeds_counters fails Hk) as (_ & _ & <-).
  generalize (record_failed_Embeds NewInferenceStats fails). intros s.
  induction oks as [|c oks IH] using rev_ind; [reflexivity|].
  rewrite RecordInferences_snoc.
  now destruct (RecordInference_counters (RecordInferences s oks) (fst c) (snd c))
    as (_ & _ & ->).
Qed.

Lemma ErrorRate_after_failures_witness :
  ErrorRate (RecordInferences
               (record_failed_Embeds NewInferenceStats [(1, 5); (1, 7)])
               [(1, 3); (4, 9)]) = F64.of_Z 2.
Proof.
  apply (ErrorRate_after_failures [(1, 5); (1, 7)] [(1, 3); (4, 9)]).
  vm_compute. reflexivity.
Defined.

End Statistics.
